(** * lynq-js: session lifecycle, metric aggregation and dispatch

    A shallow embedding of the tracker script: the classes
    [PerformanceTracker] and [AnalyticsTracker] of its IIFE, and the two
    classifiers of [BrowserDetector] as functions of the user agent.

    Conventions of the embedding.
    - A JavaScript number that carries a performance timing or a layout-shift
      score (a double) is a rational [Q], and the model adds and subtracts
      rationals exactly: it follows the code on the runs in which no
      operation on doubles rounds.  Comparisons, [Math.max] and the sort are
      exact in both.
    - Epoch milliseconds ([Date.now()]) are integers [Z].  The result of
      [parseInt] is [number]: an integer or [NaN]; the model keeps integers
      beyond 2^53 as they are written, where the code rounds them to a
      double, and [String(n)] writes every integer in decimal digits, as the
      code does below 10^21.
    - A JavaScript string is the list of the bytes of its UTF-8 encoding.
    - [null] and [undefined] are [None].
    - A call of [crypto.randomUUID()] gives a string, or throws (the method
      is missing outside secure contexts): its result is an [option].
    - [localStorage] is a finite map from keys to strings, together with an
      oracle that says which of the coming storage calls throw.
    - The tracker object, the performance tracker object and the browser
      environment form one state [St]; methods are computations in a small
      state-and-exception monad [M], so that [try]/[catch] keeps the writes
      made before the throw, as it does in JavaScript.
    - Every callback the script registers is an [Input]; a page lifetime is
      the constructor followed by a list of inputs. *)

From Stdlib Require Import ZArith QArith Qround List String Ascii Bool.
From Stdlib Require Import Sorting Permutation Lia Lqa DecimalString DecimalPos.
From stdpp Require Import gmap strings list.

Local Open Scope string_scope.
Local Open Scope list_scope.
Local Open Scope Z_scope.

(** ** Configuration (the [CONFIG] constant) *)

Module CONFIG.
Definition SESSION_DURATION : Z := 10 * 60 * 1000.

Module STORAGE_KEYS.
Definition SESSION_ID : string := "au_si".
Definition EXPIRATION : string := "au_se".
Definition CLIENT_ID : string := "au_ci".
End STORAGE_KEYS.

Module EVENTS.
Definition PAGE_VIEW : string := "page-view".
Definition SESSION_START : string := "session-start".
Definition SESSION_END : string := "session-end".
Definition WEB_VITALS : string := "web-vitals".
Definition CUSTOM_EVENT : string := "custom-event".
Definition INITIAL_CUSTOM_EVENT : string := "initial-custom-event".
End EVENTS.
End CONFIG.

(** ** Numbers and strings of the host language *)

(** The value of [parseInt]: an integer, or [NaN]. *)
Inductive number : Type :=
| NaN
| Num (z : Z).

(** [a >= b] on numbers: every comparison with [NaN] is false. *)
Definition number_geb (a b : number) : bool :=
  match a, b with
  | Num x, Num y => y <=? x
  | _, _ => false
  end.

(** Truthiness of a value that is [null] or a string: [!v] holds for [null]
    and for the empty string. *)
Definition truthy (v : option string) : bool :=
  match v with
  | None => false
  | Some EmptyString => false
  | Some _ => true
  end.

(** [String(n)] for an integer [n], as [localStorage.setItem] applies it to
    a number value. *)
Definition toString (z : Z) : string := NilZero.string_of_int (Z.to_int z).

(** The white space and the line terminators that [parseInt] skips
    (StrWhiteSpaceChar of the language).  Those of one byte: TAB, LF, VT, FF,
    CR and the space. *)
Definition is_whitespace (c : ascii) : bool :=
  match nat_of_ascii c with
  | 9%nat | 10%nat | 11%nat | 12%nat | 13%nat | 32%nat => true
  | _ => false
  end.

(** The one of two bytes: U+00A0, the no-break space. *)
Definition is_whitespace2 (c1 c2 : ascii) : bool :=
  ((N_of_ascii c1 =? 194) && (N_of_ascii c2 =? 160))%N.

(** Those of three bytes: U+1680, U+2000 to U+200A, U+2028, U+2029, U+202F,
    U+205F, U+3000 and U+FEFF. *)
Definition is_whitespace3 (c1 c2 c3 : ascii) : bool :=
  let n1 := N_of_ascii c1 in
  let n2 := N_of_ascii c2 in
  let n3 := N_of_ascii c3 in
  ((n1 =? 225) && (n2 =? 154) && (n3 =? 128)
   || (n1 =? 226) && (n2 =? 128)
      && ((128 <=? n3) && (n3 <=? 138)
          || (n3 =? 168) || (n3 =? 169) || (n3 =? 175))
   || (n1 =? 226) && (n2 =? 129) && (n3 =? 159)
   || (n1 =? 227) && (n2 =? 128) && (n3 =? 128)
   || (n1 =? 239) && (n2 =? 187) && (n3 =? 191))%N.

(** A first byte that is not white space on its own: how many bytes the
    character it begins would need to be white space (0: it cannot be). *)
Definition whitespace_bytes (c1 : ascii) : nat :=
  let n1 := N_of_ascii c1 in
  if (n1 =? 194)%N then 2%nat
  else if ((n1 =? 225) || (n1 =? 226) || (n1 =? 227) || (n1 =? 239))%N then 3%nat
  else 0%nat.

Fixpoint skip_whitespace (s : string) : string :=
  match s with
  | String c1 r1 =>
      if is_whitespace c1 then skip_whitespace r1
      else
        match whitespace_bytes c1, r1 with
        | 2%nat, String c2 r2 =>
            if is_whitespace2 c1 c2 then skip_whitespace r2 else s
        | 3%nat, String c2 (String c3 r3) =>
            if is_whitespace3 c1 c2 c3 then skip_whitespace r3 else s
        | _, _ => s
        end
  | EmptyString => s
  end.

Definition digit_value (radix : Z) (c : ascii) : option Z :=
  let n := Z.of_nat (nat_of_ascii c) in
  let d :=
    if (48 <=? n) && (n <=? 57) then Some (n - 48)
    else if (97 <=? n) && (n <=? 122) then Some (n - 87)
    else if (65 <=? n) && (n <=? 90) then Some (n - 55)
    else None in
  match d with
  | Some v => if v <? radix then Some v else None
  | None => None
  end.

Fixpoint parse_digits (radix : Z) (acc : option Z) (s : string) : option Z :=
  match s with
  | EmptyString => acc
  | String c s' =>
      match digit_value radix c with
      | Some d => parse_digits radix (Some (radix * default 0 acc + d)) s'
      | None => acc
      end
  end.

(** The built-in [parseInt(string)] without a radix argument: leading white
    space is skipped, a sign is read, a [0x] prefix selects base 16, then the
    longest run of digits is the value; no digit at all gives [NaN]. *)
Definition parseInt (s : string) : number :=
  let s1 := skip_whitespace s in
  let '(sign, s2) :=
    match s1 with
    | String "-"%char r => (-1, r)
    | String "+"%char r => (1, r)
    | _ => (1, s1)
    end in
  let '(radix, s3) :=
    match s2 with
    | String "0"%char (String "x"%char r) => (16, r)
    | String "0"%char (String "X"%char r) => (16, r)
    | _ => (10, s2)
    end in
  match parse_digits radix None s3 with
  | None => NaN
  | Some v => Num (sign * v)
  end.

Definition Qltb (a b : Q) : bool := negb (Qle_bool b a).

(** [Math.max(a, b)]. *)
Definition Math_max (a b : Q) : Q := if Qle_bool a b then b else a.

(** [Math.floor]. *)
Definition Math_floor (q : Q) : Z := Qfloor q.

(** ** Performance entries delivered by the browser *)

Module LayoutShift.
Record t : Type := mk { startTime : Q; value : Q; hadRecentInput : bool }.
End LayoutShift.

Module PaintEntry.
Record t : Type := mk { name : string; startTime : Q }.
End PaintEntry.

Module ResourceEntry.
Record t : Type := mk {
  name : string;
  initiatorType : string;
  duration : Q;
  transferSize : Q;
  startTime : Q;
  nextHopProtocol : option string
}.
End ResourceEntry.

Module NavigationEntry.
Record t : Type := mk {
  domContentLoadedEventStart : Q;
  loadEventStart : Q;
  responseStart : Q;
  domInteractive : Q
}.
End NavigationEntry.

(** The object pushed to [metrics.resources]. *)
Module ResourceTimingRecord.
Record t : Type := mk {
  name : string;
  type : string;
  duration : Q;
  transferSize : Q;
  startTime : Q;
  protocol : string
}.
End ResourceTimingRecord.

(** ** The metrics object ([this.metrics] of [PerformanceTracker]) *)

Record Metrics : Type := mkMetrics {
  lcp : Q;
  cls : Q;
  inp : option Q;        (* [None]: the slot read from the sorted array was empty *)
  fcp : Q;
  ttfb : Q;
  tbt : Q;
  dcl : Q;
  load : Q;
  tti : Q;
  resources : list ResourceTimingRecord.t;
  interactionCount : nat;
  totalJSHeapSize : Q;
  usedJSHeapSize : Q;
  resourceCount : option nat   (* added by [collectPerformanceMetrics] *)
}.

Definition initial_metrics : Metrics :=
  mkMetrics 0 0 (Some 0%Q) 0 0 0 0 0 0 [] 0 0 0 None.

Definition set_lcp (v : Q) (m : Metrics) : Metrics :=
  mkMetrics v (cls m) (inp m) (fcp m) (ttfb m) (tbt m) (dcl m) (load m) (tti m)
    (resources m) (interactionCount m) (totalJSHeapSize m) (usedJSHeapSize m)
    (resourceCount m).

Definition set_cls (v : Q) (m : Metrics) : Metrics :=
  mkMetrics (lcp m) v (inp m) (fcp m) (ttfb m) (tbt m) (dcl m) (load m) (tti m)
    (resources m) (interactionCount m) (totalJSHeapSize m) (usedJSHeapSize m)
    (resourceCount m).

Definition set_inp (v : option Q) (m : Metrics) : Metrics :=
  mkMetrics (lcp m) (cls m) v (fcp m) (ttfb m) (tbt m) (dcl m) (load m) (tti m)
    (resources m) (interactionCount m) (totalJSHeapSize m) (usedJSHeapSize m)
    (resourceCount m).

Definition set_fcp (v : Q) (m : Metrics) : Metrics :=
  mkMetrics (lcp m) (cls m) (inp m) v (ttfb m) (tbt m) (dcl m) (load m) (tti m)
    (resources m) (interactionCount m) (totalJSHeapSize m) (usedJSHeapSize m)
    (resourceCount m).

Definition set_tbt (v : Q) (m : Metrics) : Metrics :=
  mkMetrics (lcp m) (cls m) (inp m) (fcp m) (ttfb m) v (dcl m) (load m) (tti m)
    (resources m) (interactionCount m) (totalJSHeapSize m) (usedJSHeapSize m)
    (resourceCount m).

Definition set_navigation (n : NavigationEntry.t) (m : Metrics) : Metrics :=
  mkMetrics (lcp m) (cls m) (inp m) (fcp m)
    (NavigationEntry.responseStart n) (tbt m)
    (NavigationEntry.domContentLoadedEventStart n)
    (NavigationEntry.loadEventStart n)
    (NavigationEntry.domInteractive n)
    (resources m) (interactionCount m) (totalJSHeapSize m) (usedJSHeapSize m)
    (resourceCount m).

Definition set_resources (v : list ResourceTimingRecord.t) (m : Metrics) : Metrics :=
  mkMetrics (lcp m) (cls m) (inp m) (fcp m) (ttfb m) (tbt m) (dcl m) (load m)
    (tti m) v (interactionCount m) (totalJSHeapSize m) (usedJSHeapSize m)
    (resourceCount m).

Definition set_interactionCount (v : nat) (m : Metrics) : Metrics :=
  mkMetrics (lcp m) (cls m) (inp m) (fcp m) (ttfb m) (tbt m) (dcl m) (load m)
    (tti m) (resources m) v (totalJSHeapSize m) (usedJSHeapSize m)
    (resourceCount m).

Definition set_heap (total used : Q) (m : Metrics) : Metrics :=
  mkMetrics (lcp m) (cls m) (inp m) (fcp m) (ttfb m) (tbt m) (dcl m) (load m)
    (tti m) (resources m) (interactionCount m) total used (resourceCount m).

Definition set_resourceCount (v : nat) (m : Metrics) : Metrics :=
  mkMetrics (lcp m) (cls m) (inp m) (fcp m) (ttfb m) (tbt m) (dcl m) (load m)
    (tti m) (resources m) (interactionCount m) (totalJSHeapSize m)
    (usedJSHeapSize m) (Some v).

(** ** Cumulative layout shift: [calculateMaxSessionGap] *)

(** [session.reduce((sum, e) => sum + e.value, 0)], with the exact sum of
    rationals for the sum of doubles. *)
Definition session_sum (session : list LayoutShift.t) : Q :=
  fold_left (fun sum e => (sum + LayoutShift.value e)%Q) session 0%Q.

(** The three [let] variables of [calculateMaxSessionGap]. *)
Module GapLoop.
Record t : Type := mk {
  maxSessionValue : Q;
  session : list LayoutShift.t;
  sessionStart : Q
}.
End GapLoop.

(** The body of [entries.forEach] in [calculateMaxSessionGap]. *)
Definition gap_body (st : GapLoop.t) (entry : LayoutShift.t) : GapLoop.t :=
  if (length (GapLoop.session st) =? 0)%nat
     || Qltb (LayoutShift.startTime entry - GapLoop.sessionStart st) 1000
  then GapLoop.mk (GapLoop.maxSessionValue st) (GapLoop.session st ++ [entry])
         (GapLoop.sessionStart st)
  else GapLoop.mk
         (Math_max (GapLoop.maxSessionValue st) (session_sum (GapLoop.session st)))
         [entry] (LayoutShift.startTime entry).

Definition calculateMaxSessionGap (entries : list LayoutShift.t) : Q :=
  let st := fold_left gap_body entries (GapLoop.mk 0 [] 0) in
  Math_max (GapLoop.maxSessionValue st) (session_sum (GapLoop.session st)).

(** ** Interaction to next paint: the sort and the index of [observeINP] *)

Fixpoint insert_by (compareFn : Q -> Q -> Q) (x : Q) (l : list Q) : list Q :=
  match l with
  | [] => [x]
  | y :: l' =>
      if Qle_bool (compareFn x y) 0 then x :: l else y :: insert_by compareFn x l'
  end.

(** [Array.prototype.sort(compareFn)] on a copy of the array.  The language
    fixes the result for a consistent comparator (a stable sort) and leaves
    the algorithm open; the model is the stable insertion sort. *)
Definition Array_sort (compareFn : Q -> Q -> Q) (l : list Q) : list Q :=
  fold_right (insert_by compareFn) [] l.

(** [(a, b) => a - b]. *)
Definition ascending (a b : Q) : Q := (a - b)%Q.

(** [Math.floor(sortedTimes.length * 0.75)]. *)
Definition inp_index (sortedTimes : list Q) : Z :=
  Math_floor (inject_Z (Z.of_nat (length sortedTimes)) * 0.75).

(** [sortedTimes[idx]]: [None] when the index is outside the array. *)
Definition array_get {A : Type} (l : list A) (idx : Z) : option A :=
  if idx <? 0 then None else nth_error l (Z.to_nat idx).

(** The value stored in [metrics.inp] for a non-empty history. *)
Definition inp_estimate (interactionTimes : list Q) : option Q :=
  let sortedTimes := Array_sort ascending interactionTimes in
  array_get sortedTimes (inp_index sortedTimes).

(** ** Sessions, events and payloads *)

Module Session.
Record t : Type := mk {
  sessionId : string;
  expirationTime : number;
  startTime : Z
}.

Definition set_expirationTime (v : number) (s : t) : t :=
  mk (sessionId s) v (startTime s).
End Session.

(** The [eventData] argument of [trackEvent].  Values that come from the host
    page are opaque (their serialization). *)
Inductive EventData : Type :=
| EmptyObject                                        (* the default [{}] *)
| MetricsData (m : Metrics)                          (* [{...this.metrics}] *)
| SessionEndData (sessionDuration : Z) (currentUrl : string)
| CustomEventData (name eventId properties : string) (* built by [lynq.track] *)
| CallerData (data : string).                        (* queued or passed by the page *)

(** The object given to [sendAnalyticsRequest].  The field [userAgentData]
    (the result of [BrowserDetector] on [navigator.userAgent]) is not a field
    of this record; the classifiers are in the module [BrowserDetector]. *)
Module Payload.
Record t : Type := mk {
  event : string;
  timestamp : Z;
  url : string;
  pathname : string;
  referrer : string;
  dataDomain : string;
  clientId : string;
  sessionId : string;
  pageLoadId : option string;
  eventData : EventData
}.
End Payload.

(** ** The state *)

Inductive VisibilityState : Type := visible | hidden.

(** What the browser alone decides and the script only reads. *)
Record Env : Type := mkEnv {
  now : Z;                            (* [Date.now()] *)
  visibilityState : VisibilityState;  (* [document.visibilityState] *)
  origin : string;                    (* [window.location.origin] *)
  href : string;                      (* [window.location.href] *)
  pathname : string;                  (* [window.location.pathname] *)
  referrer : string;                  (* [document.referrer] *)
  memory : option (Q * Q);            (* [performance.memory]: total, used *)
  resourceEntries : nat               (* [performance.getEntriesByType("resource").length] *)
}.

Record World : Type := mkWorld {
  env : Env;
  localStorage : gmap string string;
  storageFaults : list bool;          (* for each coming storage call: does it throw *)
  lynqQueue : option (list string);   (* [window.lynqQueue] *)
  lynq : bool;                        (* [window.lynq] is installed *)
  beacons : list Payload.t;           (* the [navigator.sendBeacon] calls, oldest first *)
  timeouts : list (string * EventData) (* [trackEvent] calls waiting on their 100 ms timer *)
}.

(** The fields of [AnalyticsTracker]. *)
Record Tracker : Type := mkTracker {
  dataDomain : option string;
  clientId : string;
  initialPathname : string;
  session : option Session.t;
  isDestroyed : bool;
  sessionInterval : bool;             (* the refresh interval is running *)
  mutationObserver : bool;            (* the mutation observer is connected *)
  pageLoadId : option string
}.

(** The fields of [PerformanceTracker] and the variables its observer
    callbacks close over. *)
Record Perf : Type := mkPerf {
  tracking : bool;                    (* [initializeTracking] ran: callbacks are registered *)
  lcpObserver : bool;                 (* the entry "lcp" of [observers], connected *)
  resourceObserver : bool;            (* [this.resourceObserver], connected *)
  metrics : Metrics;
  interactionTimes : list Q;
  finalMetricsSent : bool;
  sessionEntries : list LayoutShift.t; (* [let sessionEntries] of [observeCLS] *)
  totalBlockingTime : Q               (* [let totalBlockingTime] of [observeLongTasks] *)
}.

Record St : Type := mkSt { world : World; tracker : Tracker; perf : Perf }.

Definition on_world (f : World -> World) (s : St) : St :=
  mkSt (f (world s)) (tracker s) (perf s).
Definition on_tracker (f : Tracker -> Tracker) (s : St) : St :=
  mkSt (world s) (f (tracker s)) (perf s).
Definition on_perf (f : Perf -> Perf) (s : St) : St :=
  mkSt (world s) (tracker s) (f (perf s)).

Definition set_env (v : Env) (w : World) : World :=
  mkWorld v (localStorage w) (storageFaults w) (lynqQueue w) (lynq w)
    (beacons w) (timeouts w).
Definition set_localStorage (v : gmap string string) (w : World) : World :=
  mkWorld (env w) v (storageFaults w) (lynqQueue w) (lynq w) (beacons w)
    (timeouts w).
Definition set_storageFaults (v : list bool) (w : World) : World :=
  mkWorld (env w) (localStorage w) v (lynqQueue w) (lynq w) (beacons w)
    (timeouts w).
Definition set_lynq (queue : option (list string)) (installed : bool) (w : World)
  : World :=
  mkWorld (env w) (localStorage w) (storageFaults w) queue installed (beacons w)
    (timeouts w).
Definition set_beacons (v : list Payload.t) (w : World) : World :=
  mkWorld (env w) (localStorage w) (storageFaults w) (lynqQueue w) (lynq w) v
    (timeouts w).
Definition set_timeouts (v : list (string * EventData)) (w : World) : World :=
  mkWorld (env w) (localStorage w) (storageFaults w) (lynqQueue w) (lynq w)
    (beacons w) v.

Definition set_clientId (v : string) (t : Tracker) : Tracker :=
  mkTracker (dataDomain t) v (initialPathname t) (session t) (isDestroyed t)
    (sessionInterval t) (mutationObserver t) (pageLoadId t).
Definition set_initialPathname (v : string) (t : Tracker) : Tracker :=
  mkTracker (dataDomain t) (clientId t) v (session t) (isDestroyed t)
    (sessionInterval t) (mutationObserver t) (pageLoadId t).
Definition set_session (v : option Session.t) (t : Tracker) : Tracker :=
  mkTracker (dataDomain t) (clientId t) (initialPathname t) v (isDestroyed t)
    (sessionInterval t) (mutationObserver t) (pageLoadId t).
Definition set_isDestroyed (v : bool) (t : Tracker) : Tracker :=
  mkTracker (dataDomain t) (clientId t) (initialPathname t) (session t) v
    (sessionInterval t) (mutationObserver t) (pageLoadId t).
Definition set_sessionInterval (v : bool) (t : Tracker) : Tracker :=
  mkTracker (dataDomain t) (clientId t) (initialPathname t) (session t)
    (isDestroyed t) v (mutationObserver t) (pageLoadId t).
Definition set_mutationObserver (v : bool) (t : Tracker) : Tracker :=
  mkTracker (dataDomain t) (clientId t) (initialPathname t) (session t)
    (isDestroyed t) (sessionInterval t) v (pageLoadId t).
Definition set_pageLoadId (v : option string) (t : Tracker) : Tracker :=
  mkTracker (dataDomain t) (clientId t) (initialPathname t) (session t)
    (isDestroyed t) (sessionInterval t) (mutationObserver t) v.

Definition set_observers (lcpObs resourceObs : bool) (p : Perf) : Perf :=
  mkPerf (tracking p) lcpObs resourceObs (metrics p) (interactionTimes p)
    (finalMetricsSent p) (sessionEntries p) (totalBlockingTime p).
Definition set_metrics (v : Metrics) (p : Perf) : Perf :=
  mkPerf (tracking p) (lcpObserver p) (resourceObserver p) v (interactionTimes p)
    (finalMetricsSent p) (sessionEntries p) (totalBlockingTime p).
Definition set_interactionTimes (v : list Q) (p : Perf) : Perf :=
  mkPerf (tracking p) (lcpObserver p) (resourceObserver p) (metrics p) v
    (finalMetricsSent p) (sessionEntries p) (totalBlockingTime p).
Definition set_finalMetricsSent (v : bool) (p : Perf) : Perf :=
  mkPerf (tracking p) (lcpObserver p) (resourceObserver p) (metrics p)
    (interactionTimes p) v (sessionEntries p) (totalBlockingTime p).
Definition set_sessionEntries (v : list LayoutShift.t) (p : Perf) : Perf :=
  mkPerf (tracking p) (lcpObserver p) (resourceObserver p) (metrics p)
    (interactionTimes p) (finalMetricsSent p) v (totalBlockingTime p).
Definition set_totalBlockingTime (v : Q) (p : Perf) : Perf :=
  mkPerf (tracking p) (lcpObserver p) (resourceObserver p) (metrics p)
    (interactionTimes p) (finalMetricsSent p) (sessionEntries p) v.

(** ** Computations that may throw *)

Inductive Completion (A : Type) : Type :=
| Normal (a : A)
| Throw.
Arguments Normal {A} a.
Arguments Throw {A}.

Definition M (A : Type) : Type := St -> Completion A * St.

Definition ret {A : Type} (a : A) : M A := fun s => (Normal a, s).

Definition bind {A B : Type} (m : M A) (k : A -> M B) : M B :=
  fun s =>
    match m s with
    | (Normal a, s') => k a s'
    | (Throw, s') => (Throw, s')
    end.

Definition throw {A : Type} : M A := fun s => (Throw, s).

(** [try { m } catch { handler }]: the state reached at the throw is kept. *)
Definition try_catch {A : Type} (m : M A) (handler : M A) : M A :=
  fun s =>
    match m s with
    | (Normal a, s') => (Normal a, s')
    | (Throw, s') => handler s'
    end.

Definition gets {A : Type} (f : St -> A) : M A := fun s => (Normal (f s), s).
Definition modify (f : St -> St) : M unit := fun s => (Normal tt, f s).

(** The state a computation ends in, whether it returned or threw. *)
Definition exec {A : Type} (m : M A) (s : St) : St := snd (m s).

Notation "'let*' x ':=' m 'in' k" := (bind m (fun x => k))
  (at level 10, x name, m at level 100, k at level 200).
Notation "m1 '>>' m2" := (bind m1 (fun _ => m2))
  (at level 66, right associativity).

(** ** localStorage *)

(** One storage call consumes one answer of the oracle; a call that throws
    leaves the stored entries as they were. *)
Definition storage_call : M unit :=
  fun s =>
    match storageFaults (world s) with
    | [] => (Normal tt, s)
    | fault :: rest =>
        (if fault then Throw else Normal tt, on_world (set_storageFaults rest) s)
    end.

Definition getItem (key : string) : M (option string) :=
  storage_call >> gets (fun s => localStorage (world s) !! key).

(** The entry [key] of the stored map becomes [value]. *)
Definition write_entry (key value : string) (s : St) : St :=
  on_world (fun w => set_localStorage (<[key := value]> (localStorage w)) w) s.

Definition setItem (key value : string) : M unit :=
  storage_call >> modify (write_entry key value).

(** ** PerformanceTracker *)

Definition new_PerformanceTracker (supported : bool) : Perf :=
  mkPerf supported supported supported initial_metrics [] false [] 0.

(** The callback of [observePaint]. *)
Definition observePaint_callback (entries : list PaintEntry.t) (m : Metrics)
  : Metrics :=
  fold_left
    (fun m entry =>
       if String.eqb (PaintEntry.name entry) "first-contentful-paint"
       then set_fcp (PaintEntry.startTime entry) m
       else m)
    entries m.

(** The callback of [observeLCP]; an entry is given by its [startTime]. *)
Definition observeLCP_callback (entries : list Q) (m : Metrics) : Metrics :=
  fold_left
    (fun m startTime => if Qltb (lcp m) startTime then set_lcp startTime m else m)
    entries m.

Definition updateCLS (sessionEntries : list LayoutShift.t)
  (entry : LayoutShift.t) (p : Perf) : list LayoutShift.t * Perf :=
  let updatedEntries := sessionEntries ++ [entry] in
  (updatedEntries,
   set_metrics (set_cls (calculateMaxSessionGap updatedEntries) (metrics p)) p).

(** The callback of [observeCLS]. *)
Definition observeCLS_callback (entries : list LayoutShift.t) (p : Perf) : Perf :=
  fold_left
    (fun p entry =>
       if negb (LayoutShift.hadRecentInput entry)
       then let '(updated, p') := updateCLS (sessionEntries p) entry p in
            set_sessionEntries updated p'
       else p)
    entries p.

(** The callback of [observeINP]; an entry is given by its [duration]. *)
Definition observeINP_callback (entries : list Q) (p : Perf) : Perf :=
  let p1 :=
    set_metrics
      (set_interactionCount
         (interactionCount (metrics p) + length entries)%nat (metrics p)) p in
  let p2 := set_interactionTimes (interactionTimes p1 ++ entries) p1 in
  if (0 <? length (interactionTimes p2))%nat
  then set_metrics (set_inp (inp_estimate (interactionTimes p2)) (metrics p2)) p2
  else p2.

(** The callback of [observeLongTasks]; an entry is given by its [duration]. *)
Definition observeLongTasks_callback (entries : list Q) (p : Perf) : Perf :=
  fold_left
    (fun p duration =>
       let blockingTime := (duration - 50)%Q in
       if Qltb 0 blockingTime
       then let total := (totalBlockingTime p + blockingTime)%Q in
            set_metrics (set_tbt total (metrics p)) (set_totalBlockingTime total p)
       else p)
    entries p.

(** The callback of the observer made by [setupResourceTracking]. *)
Definition resource_callback (entries : list ResourceEntry.t) (m : Metrics)
  : Metrics :=
  fold_left
    (fun m entry =>
       if Qltb 0 (ResourceEntry.transferSize entry)
          && Qltb 100 (ResourceEntry.duration entry)
       then set_resources
              (resources m ++
               [ResourceTimingRecord.mk
                  (ResourceEntry.name entry)
                  (ResourceEntry.initiatorType entry)
                  (ResourceEntry.duration entry)
                  (ResourceEntry.transferSize entry)
                  (ResourceEntry.startTime entry)
                  (if truthy (ResourceEntry.nextHopProtocol entry)
                   then default EmptyString (ResourceEntry.nextHopProtocol entry)
                   else EmptyString)])
              m
       else m)
    entries m.

(** [navEntry] is [performance.getEntriesByType("navigation")[0]]. *)
Definition collectNavigationMetrics (navEntry : option NavigationEntry.t)
  (m : Metrics) : Metrics :=
  match navEntry with
  | Some n => set_navigation n m
  | None => m
  end.

Definition collectPerformanceMetrics (s : St) : St :=
  let m := metrics (perf s) in
  let m1 :=
    match memory (env (world s)) with
    | Some (total, used) => set_heap total used m
    | None => m
    end in
  on_perf (set_metrics (set_resourceCount (resourceEntries (env (world s))) m1)) s.

(** ** AnalyticsTracker: composing and sending events *)

(** The [referrer] field of the payload: first the conditional on
    [startsWith], then [referrer || "Direct"]. *)
Definition payload_referrer (document_referrer location_origin : string) : string :=
  let referrer :=
    if String.prefix location_origin document_referrer
    then "Direct" else document_referrer in
  if truthy (Some referrer) then referrer else "Direct".

Definition compose_payload (s : St) (ses : Session.t) (eventName : string)
  (eventData : EventData) : Payload.t :=
  let e := env (world s) in
  Payload.mk eventName (now e) (href e) (pathname e)
    (payload_referrer (referrer e) (origin e))
    (if truthy (dataDomain (tracker s))
     then default EmptyString (dataDomain (tracker s)) else "clair.byharsh.com")
    (clientId (tracker s)) (Session.sessionId ses) (pageLoadId (tracker s))
    eventData.

(** [navigator.sendBeacon(CONFIG.ENDPOINT, blob)]. *)
Definition sendAnalyticsRequest (payload : Payload.t) (s : St) : St :=
  on_world (fun w => set_beacons (beacons w ++ [payload]) w) s.

(** The session of [this.session?.sessionId] when that value is truthy. *)
Definition ready_session (s : St) : option Session.t :=
  match session (tracker s) with
  | Some ses => if truthy (Some (Session.sessionId ses)) then Some ses else None
  | None => None
  end.

(** [trackEvent] from the point after the safety check. *)
Definition trackEvent_send (eventName : string) (eventData : EventData) (s : St)
  : St :=
  match ready_session s with
  | Some ses => sendAnalyticsRequest (compose_payload s ses eventName eventData) s
  | None => s
  end.

(** [trackEvent] up to its [await]: the call is a no-op on a destroyed
    tracker, sends at once when the session is there, and otherwise suspends
    on a 100 ms timer.  Being [async], it never throws to its caller. *)
Definition trackEvent (eventName : string) (eventData : EventData) (s : St) : St :=
  if isDestroyed (tracker s) then s
  else match ready_session s with
       | Some _ => trackEvent_send eventName eventData s
       | None =>
           on_world
             (fun w => set_timeouts (timeouts w ++ [(eventName, eventData)]) w) s
       end.

(** [trackEvent] after its [await]: the session is checked once more (the
    destroyed flag is not), then the event is sent or dropped. *)
Definition trackEvent_resume (eventName : string) (eventData : EventData)
  (s : St) : St :=
  trackEvent_send eventName eventData s.

Definition trackPageView (s : St) : St :=
  if isDestroyed (tracker s) then s
  else
    let s1 := trackEvent CONFIG.EVENTS.PAGE_VIEW EmptyObject s in
    on_tracker (set_initialPathname (pathname (env (world s1)))) s1.

Definition sendFinalMetrics (s : St) : St :=
  if negb (finalMetricsSent (perf s)) then
    let s1 := on_perf (set_finalMetricsSent true) s in
    let s2 := collectPerformanceMetrics s1 in
    trackEvent "web-vitals" (MetricsData (metrics (perf s2))) s2
  else s.

(** [PerformanceTracker.destroy]: of the observers only "lcp" is in the map
    (the other [observe...] methods return the result of [observe()], which is
    [undefined], and [createObserver] stores nothing for them). *)
Definition PerformanceTracker_destroy (s : St) : St :=
  sendFinalMetrics (on_perf (set_observers false false) s).

(** ** AnalyticsTracker: the session *)

Definition isSessionExpired (s : St) (expirationTime : string) : bool :=
  number_geb (Num (now (env (world s)))) (parseInt expirationTime).

Definition initializeLynq (eventType : string) (s : St) : St :=
  let queuedEvents := default [] (lynqQueue (world s)) in
  let s1 :=
    fold_left (fun s data => trackEvent eventType (CallerData data) s)
      queuedEvents s in
  on_world (set_lynq None true) s1.

(** The branch of [initializeSession] that makes a session;
    [newSessionId] is the value [generateSessionId()] returns. *)
Definition start_new_session (newSessionId : string) : M unit :=
  let* s := gets (fun s => s) in
  let newExpirationTime := now (env (world s)) + CONFIG.SESSION_DURATION in
  setItem CONFIG.STORAGE_KEYS.SESSION_ID newSessionId >>
  setItem CONFIG.STORAGE_KEYS.EXPIRATION (toString newExpirationTime) >>
  modify
    (on_tracker
       (set_session
          (Some (Session.mk newSessionId (Num newExpirationTime)
                   (now (env (world s))))))) >>
  modify (trackEvent CONFIG.EVENTS.SESSION_START EmptyObject) >>
  modify (initializeLynq "initial-custom-event").

(** The branch of [initializeSession] that takes up the stored session. *)
Definition resume_session (sessionId expirationTime : string) : M unit :=
  let* s := gets (fun s => s) in
  modify
    (on_tracker
       (set_session
          (Some (Session.mk sessionId (parseInt expirationTime)
                   (now (env (world s))))))) >>
  modify trackPageView >>
  modify (initializeLynq "custom-event").

Definition initializeSession (newSessionId : string) : M unit :=
  try_catch
    (let* sessionId := getItem CONFIG.STORAGE_KEYS.SESSION_ID in
     let* expirationTime := getItem CONFIG.STORAGE_KEYS.EXPIRATION in
     let* s := gets (fun s => s) in
     (match sessionId, expirationTime with
      | Some sid, Some exp =>
          if negb (truthy sessionId) || negb (truthy expirationTime)
             || isSessionExpired s exp
          then start_new_session newSessionId
          else resume_session sid exp
      | _, _ => start_new_session newSessionId
      end) >>
     (* the refresh interval *)
     modify (on_tracker (set_sessionInterval true)))
    (ret tt).

Definition refreshSession : M unit :=
  let* s := gets (fun s => s) in
  match visibilityState (env (world s)), isDestroyed (tracker s) with
  | visible, false =>
      let newExpirationTime := now (env (world s)) + CONFIG.SESSION_DURATION in
      try_catch
        (setItem CONFIG.STORAGE_KEYS.EXPIRATION (toString newExpirationTime) >>
         let* s := gets (fun s => s) in
         match session (tracker s) with
         | Some ses =>
             modify
               (on_tracker
                  (set_session
                     (Some (Session.set_expirationTime (Num newExpirationTime) ses))))
         | None => throw      (* a property of [null] is assigned *)
         end)
        (ret tt)
  | _, _ => ret tt
  end.

(** [uuid] is the value of [crypto.randomUUID()], or [None] when that call
    throws; [fallback] is the string made from [Math.random()]. *)
Definition getOrCreateClientId (uuid : option string) (fallback : string)
  : M string :=
  try_catch
    (let* clientId := getItem CONFIG.STORAGE_KEYS.CLIENT_ID in
     if negb (truthy clientId)
     then match uuid with
          | Some id => setItem CONFIG.STORAGE_KEYS.CLIENT_ID id >> ret id
          | None => throw
          end
     else ret (default EmptyString clientId))
    (ret fallback).

(** ** AnalyticsTracker: listeners, destruction, construction *)

(** The callback of the mutation observer. *)
Definition mutation_callback (s : St) : St :=
  if negb (isDestroyed (tracker s))
     && negb (String.eqb (pathname (env (world s))) (initialPathname (tracker s)))
  then trackPageView s
  else s.

(** The [beforeunload] listener of [setupEventListeners]; reading
    [this.session.startTime] throws when there is no session. *)
Definition session_end_listener (s : St) : St :=
  match session (tracker s) with
  | Some ses =>
      trackEvent CONFIG.EVENTS.SESSION_END
        (SessionEndData (now (env (world s)) - Session.startTime ses)
           (href (env (world s)))) s
  | None => s
  end.

Definition destroy (s : St) : St :=
  let s1 := on_tracker (set_isDestroyed true) s in
  let s2 := on_tracker (set_sessionInterval false) s1 in
  let s3 := on_tracker (set_mutationObserver false) s2 in
  PerformanceTracker_destroy s3.

(** What the page gives the script when it loads. *)
Record Page : Type := mkPage {
  page_env : Env;
  page_localStorage : gmap string string;
  page_storageFaults : list bool;
  page_lynqQueue : option (list string);
  page_dataDomain : option string;      (* the [data-domain] attribute *)
  page_performanceSupported : bool      (* [isPerformanceSupported()] *)
}.

(** The random strings the constructor draws.  The two calls of
    [crypto.randomUUID()] that no [try] of their own guards give [None] when
    they throw; [generateSessionId] has its own fallback and always returns a
    string. *)
Record Fresh : Type := mkFresh {
  fresh_clientId : option string;     (* [crypto.randomUUID()] in [getOrCreateClientId] *)
  fresh_clientId_fallback : string;   (* the string made from [Math.random()] *)
  fresh_sessionId : string;           (* [generateSessionId()] *)
  fresh_pageLoadId : option string    (* [crypto.randomUUID()] in [setupEventListeners] *)
}.

(** The state in which [new AnalyticsTracker()] starts: nothing sent, no
    timer, no session.  The performance tracker is created after
    [initializeSession], which does not read it, so it is there from the
    start. *)
Definition initial_state (pg : Page) : St :=
  mkSt
    (mkWorld (page_env pg) (page_localStorage pg) (page_storageFaults pg)
       (page_lynqQueue pg) false [] [])
    (mkTracker (page_dataDomain pg) EmptyString (pathname (page_env pg)) None false
       false false None)
    (new_PerformanceTracker (page_performanceSupported pg)).

(** [new AnalyticsTracker()].  The first statement of [setupEventListeners]
    draws the page-load id.  When that call throws, the constructor ends
    there: the session, the refresh interval, [window.lynq] and the
    performance tracker are in place, the page-load id stays [undefined] and
    the mutation observer is not made.  The listener for the session-end
    event and [window.your_tracking] are then missing as well: in such a
    page lifetime the inputs [YourTracking] and [Destroy] do not occur, and
    an unload runs the listener of the performance tracker only, as a
    [VisibilityChange] of a hidden page does. *)
Definition construct (pg : Page) (r : Fresh) : St :=
  let s0 := initial_state pg in
  let '(id, s1) :=
    getOrCreateClientId (fresh_clientId r) (fresh_clientId_fallback r) s0 in
  let s2 :=
    on_tracker
      (set_clientId (match id with Normal c => c | Throw => EmptyString end))
      s1 in
  let s3 := exec (initializeSession (fresh_sessionId r)) s2 in
  match fresh_pageLoadId r with
  | Some pageLoadId =>
      on_tracker
        (fun t => set_mutationObserver true (set_pageLoadId (Some pageLoadId) t))
        s3
  | None => s3
  end.

(** ** Page lifetimes *)

Inductive Input : Type :=
| Environment (e : Env)               (* time passes, the page navigates, is hidden, ... *)
| StorageHealth (faults : list bool)  (* which of the coming storage calls throw *)
| ForeignWrite (key value : string)   (* another browsing context writes an entry *)
| PaintEntries (entries : list PaintEntry.t)
| LargestContentfulPaintEntries (startTimes : list Q)
| LayoutShiftEntries (entries : list LayoutShift.t)
| EventEntries (durations : list Q)
| LongTaskEntries (durations : list Q)
| ResourceEntries (entries : list ResourceEntry.t)
| ReadyStateComplete (navEntry : option NavigationEntry.t)
| VisibilityChange
| BeforeUnload
| Interval                            (* the refresh interval fires *)
| TimerFires                          (* the oldest 100 ms timer fires *)
| HashChange
| Mutation
| LynqTrack (name properties : string) (eventId : option string)
    (* [window.lynq.track]; [eventId] is its [crypto.randomUUID()] *)
| YourTracking (eventName : string) (eventData : option string)
| Destroy.

Definition step (s : St) (i : Input) : St :=
  match i with
  | Environment e => on_world (set_env e) s
  | StorageHealth faults => on_world (set_storageFaults faults) s
  | ForeignWrite key value => write_entry key value s
  | PaintEntries entries =>
      if tracking (perf s)
      then on_perf (fun p => set_metrics (observePaint_callback entries (metrics p)) p) s
      else s
  | LargestContentfulPaintEntries entries =>
      if tracking (perf s) && lcpObserver (perf s)
      then on_perf (fun p => set_metrics (observeLCP_callback entries (metrics p)) p) s
      else s
  | LayoutShiftEntries entries =>
      if tracking (perf s) then on_perf (observeCLS_callback entries) s else s
  | EventEntries durations =>
      if tracking (perf s) then on_perf (observeINP_callback durations) s else s
  | LongTaskEntries durations =>
      if tracking (perf s) then on_perf (observeLongTasks_callback durations) s else s
  | ResourceEntries entries =>
      if tracking (perf s) && resourceObserver (perf s)
      then on_perf (fun p => set_metrics (resource_callback entries (metrics p)) p) s
      else s
  | ReadyStateComplete navEntry =>
      if tracking (perf s)
      then on_perf
             (fun p => set_metrics (collectNavigationMetrics navEntry (metrics p)) p) s
      else s
  | VisibilityChange =>
      if tracking (perf s)
      then match visibilityState (env (world s)) with
           | hidden => sendFinalMetrics s
           | visible => s
           end
      else s
  | BeforeUnload =>
      session_end_listener (if tracking (perf s) then sendFinalMetrics s else s)
  | Interval =>
      if sessionInterval (tracker s) then exec refreshSession s else s
  | TimerFires =>
      match timeouts (world s) with
      | [] => s
      | (eventName, eventData) :: rest =>
          trackEvent_resume eventName eventData (on_world (set_timeouts rest) s)
      end
  | HashChange =>
      (* the listener is the method [trackPageView] taken off the object: it
         runs with [this] the window, and [this.trackEvent] is not a function *)
      s
  | Mutation => if mutationObserver (tracker s) then mutation_callback s else s
  | LynqTrack name properties eventId =>
      if lynq (world s)
      then match eventId with
           | Some id =>
               trackEvent CONFIG.EVENTS.CUSTOM_EVENT
                 (CustomEventData name id properties) s
           | None => s      (* the call of [track] throws at the draw *)
           end
      else s
  | YourTracking eventName eventData =>
      trackEvent eventName
        (match eventData with Some d => CallerData d | None => EmptyObject end) s
  | Destroy => destroy s
  end.

Definition run (s : St) (inputs : list Input) : St := fold_left step inputs s.

(** ** The specification's reading of the layout-shift grouping

    These definitions follow the words of the specification, not the loop of
    [calculateMaxSessionGap]: the entries are cut into groupings, each
    grouping is summed, and the largest sum is taken.  [joins gap] says
    whether an entry at distance [gap] from the start of the current grouping
    joins it. *)

Fixpoint groupings_from (joins : Q -> bool) (start : Q)
  (current entries : list LayoutShift.t) : list (list LayoutShift.t) :=
  match entries with
  | [] => [current]
  | e :: rest =>
      if joins (LayoutShift.startTime e - start)%Q
      then groupings_from joins start (current ++ [e]) rest
      else current :: groupings_from joins (LayoutShift.startTime e) [e] rest
  end.

(** The first entry begins the first grouping. *)
Definition groupings (joins : Q -> bool) (entries : list LayoutShift.t)
  : list (list LayoutShift.t) :=
  match entries with
  | [] => []
  | e :: rest => groupings_from joins (LayoutShift.startTime e) [e] rest
  end.

(** "the gap does not exceed 1000 ms" *)
Definition not_exceeding_1000 (gap : Q) : bool := Qle_bool gap 1000.

(** "the gap is below 1000 ms" *)
Definition below_1000 (gap : Q) : bool := Qltb gap 1000.

(** The largest element of a list of scores, none of which is negative. *)
Definition maximum (scores : list Q) : Q := fold_left Math_max scores 0%Q.

Definition grouped_CLS (joins : Q -> bool) (entries : list LayoutShift.t) : Q :=
  maximum (map session_sum (groupings joins entries)).

(** The value [calculateMaxSessionGap] returns from a state of its loop. *)
Definition gap_result (st : GapLoop.t) : Q :=
  Math_max (GapLoop.maxSessionValue st) (session_sum (GapLoop.session st)).

(** The entries that take part in the grouping. *)
Definition without_recent_input (entries : list LayoutShift.t)
  : list LayoutShift.t :=
  List.filter (fun e => negb (LayoutShift.hadRecentInput e)) entries.

(** The performance tracker after the layout-shift batches, in order. *)
Definition after_layout_shifts (batches : list (list LayoutShift.t)) (p : Perf)
  : Perf :=
  fold_left (fun p batch => observeCLS_callback batch p) batches p.

(** No entry after the first falls between 1000 ms and 1000 ms past the
    first entry: for such sequences it makes no difference whether the first
    grouping is measured from the first entry or from time 0. *)
Definition first_window_clear (entries : list LayoutShift.t) : Prop :=
  match entries with
  | [] => True
  | e0 :: rest =>
      (0 <= LayoutShift.startTime e0)%Q /\
      Forall
        (fun e =>
           (LayoutShift.startTime e < 1000)%Q \/
           (LayoutShift.startTime e0 + 1000 <= LayoutShift.startTime e)%Q)
        rest
  end.

(** ** Where the rationals of the model are the doubles of the code

    A number of magnitude below 2^[bits] that is a multiple of 2^-20: a
    double holds it exactly when [bits] is at most 33. *)
Definition fixed_point (bits : Z) (q : Q) : bool :=
  ((2 ^ 20 * Qnum q) mod Z.pos (Qden q) =? 0)
  && (Z.abs (Qnum q) <? 2 ^ bits * Z.pos (Qden q)).

(** [q] is [m] / 2^20 for an integer [m] of magnitude at most [bound]. *)
Definition scaled (bound : Z) (q : Q) : Prop :=
  exists m : Z, (q == m # 1048576)%Q /\ Z.abs m <= bound.

(** Layout shifts on which [calculateMaxSessionGap] computes without
    rounding: at most 4096 entries, with times below 2^31 and values below
    2^20, all multiples of 2^-20.  A difference of two such times is below
    2^32 and a sum of such values is below 2^32, both multiples of 2^-20:
    they have at most 52 significant bits, a double holds them, and the
    subtraction and the additions of the code return them as they are. *)
Definition free_of_rounding (entries : list LayoutShift.t) : bool :=
  (length entries <=? 4096)%nat
  && forallb
       (fun e =>
          fixed_point 31 (LayoutShift.startTime e)
          && fixed_point 20 (LayoutShift.value e))
       entries.

(** The string that begins with the given bytes. *)
Definition utf8 (bytes : list Z) (rest : string) : string :=
  fold_right (fun n r => String (ascii_of_N (Z.to_N n)) r) rest bytes.

(** ** Notions used in the statements

    Nothing below is part of the script: these are the predicates, counters
    and sample inputs the properties are stated with. *)

(** Does the next storage call throw. *)
Definition next_storage_call_throws (s : St) : bool :=
  match storageFaults (world s) with
  | true :: _ => true
  | _ => false
  end.

(** The state once the oracle has answered for one storage call. *)
Definition answered (s : St) : St :=
  match storageFaults (world s) with
  | [] => s
  | _ :: rest => on_world (set_storageFaults rest) s
  end.

(** No coming storage call throws. *)
Definition storage_reliable (s : St) : Prop :=
  Forall (fun fault => fault = false) (storageFaults (world s)).

(** Does the storage call number [n] from now (counted from 0) throw. *)
Definition nth_call_throws (n : nat) (s : St) : bool :=
  nth n (storageFaults (world s)) false.

(** The test [initializeSession] makes on the two values it read. *)
Definition stored_session_stale (s : St) (sessionId expirationTime : option string)
  : bool :=
  match sessionId, expirationTime with
  | Some _, Some exp =>
      negb (truthy sessionId) || negb (truthy expirationTime)
      || isSessionExpired s exp
  | _, _ => true
  end.

(** The payloads sent between the states [s] and [s']. *)
Definition emitted (s s' : St) : list Payload.t :=
  drop (length (beacons (world s))) (beacons (world s')).

(** Is the event data a metrics snapshot. *)
Definition carries_metrics (eventData : EventData) : bool :=
  match eventData with MetricsData _ => true | _ => false end.

(** A payload that carries a metrics snapshot: only [sendFinalMetrics]
    builds such event data. *)
Definition is_final_metrics (p : Payload.t) : bool :=
  match Payload.eventData p with
  | MetricsData _ => true
  | _ => false
  end.

(** How many of the payloads carry the final metrics. *)
Definition count_final (sent : list Payload.t) : nat :=
  length (List.filter is_final_metrics sent).

(** How many of the payloads have the event name [name]. *)
Definition count_event (name : string) (sent : list Payload.t) : nat :=
  length (List.filter (fun p => String.eqb (Payload.event p) name) sent).

(** Every [trackEvent] call that waits on its timer will find no session
    when the timer fires. *)
Definition timers_harmless (s : St) : Prop :=
  ready_session s = None \/ timeouts (world s) = [].

(** How many final-metrics payloads a state still allows. *)
Definition final_budget (s : St) : nat :=
  if finalMetricsSent (perf s) then 1%nat else 0%nat.

(** The specification's notion of origin, for a serialized URL: the scheme,
    "://", and the authority up to the first "/", "?" or "#". *)
Fixpoint url_authority (s : string) : string :=
  match s with
  | EmptyString => EmptyString
  | String c rest =>
      if Ascii.eqb c "/" || Ascii.eqb c "?" || Ascii.eqb c "#"
      then EmptyString
      else String c (url_authority rest)
  end.

(** The text up to the end of the authority. *)
Fixpoint url_origin (url : string) : string :=
  match url with
  | EmptyString => EmptyString
  | String c rest =>
      if Ascii.eqb c ":" && String.prefix "//" rest
      then String c
             ("//" ++
              url_authority (String.substring 2 (String.length rest) rest))
      else String c (url_origin rest)
  end.

(** The layout shifts of the specification's example, in two batches, with
    values that doubles hold exactly (0.25, 0.5 and 0.125 for the 0.1, 0.2
    and 0.05 of the specification, which no double holds). *)
Definition example_shifts : list (list LayoutShift.t) :=
  [ [LayoutShift.mk 0 0.25 false; LayoutShift.mk 500 0.5 false];
    [LayoutShift.mk 2000 0.125 false] ].

(** A visible page at time 1000000, reached from another site. *)
Definition sample_env : Env :=
  mkEnv 1000000 visible "https://example.com" "https://example.com/pricing"
    "/pricing" "https://news.example.org/story" None 0.

(** The same page a little later, hidden. *)
Definition hidden_env : Env :=
  mkEnv 1000050 hidden "https://example.com" "https://example.com/pricing"
    "/pricing" "https://news.example.org/story" None 0.

(** A tracker at the start of [initializeSession], on a page whose storage
    holds [stored] and answers its calls as [faults] says. *)
Definition sample_state (stored : gmap string string) (faults : list bool) : St :=
  mkSt (mkWorld sample_env stored faults (Some ["queued"]) false [] [])
    (mkTracker None "client-1" "/pricing" None false false false None)
    (new_PerformanceTracker true).

(** A store that holds the two session entries. *)
Definition stored_session (sessionId expirationTime : string)
  : gmap string string :=
  <[CONFIG.STORAGE_KEYS.EXPIRATION := expirationTime]>
    (<[CONFIG.STORAGE_KEYS.SESSION_ID := sessionId]> ∅).

(** A page that loads with a stored session still valid. *)
Definition sample_page : Page :=
  mkPage sample_env (stored_session "old-id" "1000001") [] None None true.

(** The random strings drawn on that page. *)
Definition sample_fresh : Fresh :=
  mkFresh (Some "client-uuid") "client-random" "fresh-id" (Some "page-load-1").

(** ** Notions used in the statements about the metrics *)

(** The part of a long task beyond 50 ms, and 0 for a shorter one. *)
Definition blocking_excess (duration : Q) : Q :=
  if Qltb 0 (duration - 50) then (duration - 50)%Q else 0%Q.

(** The sum of a list of numbers. *)
Definition Qsum (l : list Q) : Q := fold_right Qplus 0%Q l.

(** The resource entries worth recording. *)
Definition slow_transfer (entry : ResourceEntry.t) : bool :=
  Qltb 0 (ResourceEntry.transferSize entry)
  && Qltb 100 (ResourceEntry.duration entry).

(** The record made of a resource entry. *)
Definition resource_record (entry : ResourceEntry.t) : ResourceTimingRecord.t :=
  ResourceTimingRecord.mk
    (ResourceEntry.name entry)
    (ResourceEntry.initiatorType entry)
    (ResourceEntry.duration entry)
    (ResourceEntry.transferSize entry)
    (ResourceEntry.startTime entry)
    (if truthy (ResourceEntry.nextHopProtocol entry)
     then default EmptyString (ResourceEntry.nextHopProtocol entry)
     else EmptyString).

(** Is the paint entry the first contentful paint. *)
Definition is_fcp (entry : PaintEntry.t) : bool :=
  String.eqb (PaintEntry.name entry) "first-contentful-paint".

(** A tracker at the start of [initializeSession] on a later load of the
    site, at time [t], with the store holding [stored]. *)
Definition later_load (t : Z) (stored : gmap string string) : St :=
  mkSt
    (mkWorld
       (mkEnv t visible "https://example.com" "https://example.com/" "/"
          EmptyString None 0)
       stored [] None false [] [])
    (mkTracker None "client-1" "/" None false false false None)
    (new_PerformanceTracker true).

(** A tracker in the middle of a page lifetime: its session is about to
    expire. *)
Definition running_state : St :=
  mkSt (mkWorld sample_env (stored_session "old-id" "1000001") [] None true [] [])
    (mkTracker None "client-1" "/pricing"
       (Some (Session.mk "old-id" (Num 1000001) 999000))
       false true true (Some "page-load-1"))
    (new_PerformanceTracker true).

(** ** Notions used in the statements about page lifetimes *)

(** What identifies the tracker in its payloads: the client id, the id of
    the page load, and the id of the session, if there is one. *)
Definition identity (s : St) : string * option string * option string :=
  (clientId (tracker s), pageLoadId (tracker s),
   option_map Session.sessionId (session (tracker s))).

(** The payload carries the identity of the tracker in state [s]. *)
Definition carries_identity (s : St) (p : Payload.t) : Prop :=
  Payload.clientId p = clientId (tracker s) /\
  Payload.pageLoadId p = pageLoadId (tracker s) /\
  Some (Payload.sessionId p)
  = option_map Session.sessionId (session (tracker s)).

(** From [s] to [s'] the tracker kept its identity and only added payloads
    that carry it. *)
Definition sends (s s' : St) : Prop :=
  identity s' = identity s /\
  exists new : list Payload.t,
    beacons (world s') = beacons (world s) ++ new /\
    Forall (carries_identity s) new.

(** A page whose storage throws at every call of the constructor. *)
Definition broken_storage_page : Page :=
  mkPage sample_env ∅ [true; true; true] (Some ["queued"]) None true.

(** What initialization has sent carries the identity of the tracker, which
    has no page-load id yet. *)
Definition sent_before_listeners (s : St) : Prop :=
  pageLoadId (tracker s) = None /\
  Forall (carries_identity s) (beacons (world s)).

(** * The user-agent classifier

    [BrowserDetector.detectBrowser] and [BrowserDetector.detectOS], which
    [trackEvent] calls on [navigator.userAgent].  Their regular expressions
    are sequences of two kinds of atoms, a literal character and a character
    class under [+]; all carry the flag [i].  Only the existence of a match
    is used by the code ([if (match)]), so the matcher returns a boolean.
    The tables [versions] and the functions [clean] of [osPatterns] are never
    read and are not modelled. *)
Module BrowserDetector.

Inductive atom : Type :=
| Char (c : ascii)
| OneOrMore (set : list ascii).

Definition regex : Type := list atom.

(** [String.prototype.toUpperCase] on one ASCII character. *)
Definition toUpperCase (a : ascii) : ascii :=
  let n := nat_of_ascii a in
  if ((97 <=? n)%nat && (n <=? 122)%nat)%bool then ascii_of_nat (n - 32) else a.

(** Comparison of characters under the flag [i]: both are canonicalized. *)
Definition canonical_eqb (a b : ascii) : bool :=
  Ascii.eqb (toUpperCase a) (toUpperCase b).

Definition in_set (set : list ascii) (a : ascii) : bool :=
  existsb (canonical_eqb a) set.

(** Does the pattern match at the start of the string?  The class under [+]
    is tried greedily first, then with fewer characters. *)
Fixpoint match_here (p : regex) : string -> bool :=
  match p with
  | [] => fun _ => true
  | Char c :: p' =>
      fun s =>
        match s with
        | String a s' => canonical_eqb c a && match_here p' s'
        | EmptyString => false
        end
  | OneOrMore set :: p' =>
      fix many (s : string) : bool :=
        match s with
        | String a s' => in_set set a && (many s' || match_here p' s')
        | EmptyString => false
        end
  end.

(** [userAgent.match(pattern)] is not [null]: the pattern matches at some
    position. *)
Fixpoint search (p : regex) (s : string) : bool :=
  match_here p s
  || match s with
     | String _ s' => search p s'
     | EmptyString => false
     end.

Definition literal (w : string) : regex := map Char (list_ascii_of_string w).

(** [[0-9.]] and [[0-9._]]. *)
Definition version_set : list ascii := list_ascii_of_string "0123456789.".
Definition version_underscore_set : list ascii :=
  list_ascii_of_string "0123456789._".

Definition Edg_pattern : regex := literal "Edg/" ++ [OneOrMore version_set].
Definition OPR_pattern : regex := literal "OPR/" ++ [OneOrMore version_set].
Definition Chrome_pattern : regex := literal "Chrome/" ++ [OneOrMore version_set].
Definition Firefox_pattern : regex := literal "Firefox/" ++ [OneOrMore version_set].
Definition Safari_pattern : regex := literal "Safari/" ++ [OneOrMore version_set].

Definition browserPatterns : list (regex * string) :=
  [ (Edg_pattern, "Edge");
    (OPR_pattern, "Opera");
    (Chrome_pattern, "Chrome");
    (Firefox_pattern, "Firefox");
    (Safari_pattern, "Safari") ].

Definition detectBrowser (userAgent : string) : string :=
  match List.find (fun browser => search (fst browser) userAgent) browserPatterns with
  | Some browser => snd browser
  | None => "Unknown"
  end.

Definition windows_pattern : regex :=
  literal "Windows NT " ++ [OneOrMore version_set].
Definition mac_pattern : regex :=
  literal "Mac OS X " ++ [OneOrMore version_underscore_set].
Definition ios_pattern : regex :=
  literal "OS " ++ [OneOrMore version_underscore_set] ++ literal " like Mac OS X".
Definition android_pattern : regex :=
  literal "Android " ++ [OneOrMore version_set].
Definition linux_pattern : regex := literal "Linux".

(** [Object.entries(osPatterns)]: the keys in the order they are written. *)
Definition osPatterns : list (string * regex) :=
  [ ("windows", windows_pattern);
    ("mac", mac_pattern);
    ("ios", ios_pattern);
    ("android", android_pattern);
    ("linux", linux_pattern) ].

(** [osName.charAt(0).toUpperCase() + osName.slice(1)]. *)
Definition capitalize (osName : string) : string :=
  match osName with
  | String c rest => String (toUpperCase c) rest
  | EmptyString => EmptyString
  end.

Definition detectOS (userAgent : string) : string :=
  match List.find (fun entry => search (snd entry) userAgent) osPatterns with
  | Some entry => capitalize (fst entry)
  | None => "Unknown"
  end.

(** What a pattern matches, as a relation: the strings of its language. *)
Inductive matches : regex -> string -> Prop :=
| matches_nil : matches [] EmptyString
| matches_Char c a p m :
    canonical_eqb c a = true -> matches p m ->
    matches (Char c :: p) (String a m)
| matches_one set p a m :
    in_set set a = true -> matches p m ->
    matches (OneOrMore set :: p) (String a m)
| matches_more set p a m :
    in_set set a = true -> matches (OneOrMore set :: p) m ->
    matches (OneOrMore set :: p) (String a m).

(** The user agent has a part that the pattern matches. *)
Definition occurs (p : regex) (userAgent : string) : Prop :=
  exists pre m post,
    userAgent = String.append pre (String.append m post) /\ matches p m.

(** The string with every character canonicalized. *)
Fixpoint canonical (s : string) : string :=
  match s with
  | String a s' => String (toUpperCase a) (canonical s')
  | EmptyString => EmptyString
  end.

Definition edge_userAgent : string :=
  "Mozilla/5.0 (Windows NT 10.0; Win64; x64) AppleWebKit/537.36 (KHTML, like Gecko) Chrome/120.0.0.0 Safari/537.36 Edg/120.0.0.0".

Definition android_userAgent : string :=
  "Mozilla/5.0 (Linux; Android 13; Pixel 7) AppleWebKit/537.36 (KHTML, like Gecko) Chrome/116.0.0.0 Mobile Safari/537.36".

End BrowserDetector.

(** ** What the tracker owns in [localStorage] *)

(** The three keys of [CONFIG.STORAGE_KEYS]. *)
Definition own_keys : list string :=
  [CONFIG.STORAGE_KEYS.SESSION_ID; CONFIG.STORAGE_KEYS.EXPIRATION;
   CONFIG.STORAGE_KEYS.CLIENT_ID].

(** An input that writes the storage from outside the tracker. *)
Definition foreign_write (i : Input) : bool :=
  match i with
  | ForeignWrite _ _ => true
  | _ => false
  end.

(** The store [m] has every entry of [m0], and differs from [m0] under the
    tracker's keys only. *)
Definition kept (m0 m : gmap string string) : Prop :=
  forall k,
    (~ In k own_keys -> m !! k = m0 !! k) /\
    (is_Some (m0 !! k) -> is_Some (m !! k)).

Definition busy_page : Page :=
  mkPage sample_env (<[ "theme" := "dark" ]> (stored_session "old-id" "1000001"))
    [false; true; false] (Some ["early"]) None true.

(** * Properties *)

(** ** Numbers written as text *)

Section NumberStrings.

Lemma parse_digits_step (c : ascii) (k acc : Z) (s : string) :
  digit_value 10 c = Some k ->
  parse_digits 10 (Some acc) (String c s)
  = parse_digits 10 (Some (10 * acc + k)) s.
Proof. intros H. cbn [parse_digits]. now rewrite H. Qed.

Ltac digit_step IH :=
  match goal with
  | |- parse_digits 10 (Some ?acc) (String ?c _) = Some (Z.pos (_ ?d ?q)) =>
      let k := eval vm_compute in (digit_value 10 c) in
      match k with
      | Some ?v =>
          rewrite (parse_digits_step c v acc) by reflexivity;
          replace (10 * acc + v) with (Z.pos q) by lia;
          apply IH
      end
  end.

Lemma parse_digits_acc (d : Decimal.uint) : forall p : positive,
  parse_digits 10 (Some (Z.pos p)) (NilEmpty.string_of_uint d)
  = Some (Z.pos (Pos.of_uint_acc d p)).
Proof.
  induction d; intros p; cbn [NilEmpty.string_of_uint Pos.of_uint_acc];
    [reflexivity | digit_step IHd ..].
Qed.

Lemma parse_digits_zero (d : Decimal.uint) :
  parse_digits 10 (Some 0) (NilEmpty.string_of_uint d)
  = Some (Z.of_N (Pos.of_uint d)).
Proof.
  induction d; cbn [NilEmpty.string_of_uint Pos.of_uint];
    [reflexivity | exact IHd | ..];
    apply (parse_digits_acc d).
Qed.

Lemma parse_digits_uint (d : Decimal.uint) :
  d <> Decimal.Nil ->
  parse_digits 10 None (NilEmpty.string_of_uint d)
  = Some (Z.of_N (Pos.of_uint d)).
Proof.
  destruct d; intros Hd; [congruence | apply (parse_digits_zero d) | ..];
    apply (parse_digits_acc d).
Qed.

Lemma parseInt_uint (d : Decimal.uint) :
  d <> Decimal.Nil ->
  parseInt (NilEmpty.string_of_uint d)
  = match parse_digits 10 None (NilEmpty.string_of_uint d) with
    | None => NaN
    | Some v => Num (1 * v)
    end.
Proof.
  destruct d as [|d|d|d|d|d|d|d|d|d|d]; intros Hd; [congruence | | ..];
    try reflexivity.
  destruct d; reflexivity.
Qed.

Lemma parseInt_neg_uint (d : Decimal.uint) :
  d <> Decimal.Nil ->
  parseInt (String "-" (NilEmpty.string_of_uint d))
  = match parse_digits 10 None (NilEmpty.string_of_uint d) with
    | None => NaN
    | Some v => Num (-1 * v)
    end.
Proof.
  destruct d as [|d|d|d|d|d|d|d|d|d|d]; intros Hd; [congruence | | ..];
    try reflexivity.
  destruct d; reflexivity.
Qed.

Lemma string_of_uint_nonnil (d : Decimal.uint) :
  d <> Decimal.Nil -> NilZero.string_of_uint d = NilEmpty.string_of_uint d.
Proof. destruct d; [congruence | reflexivity ..]. Qed.

End NumberStrings.

(** The decimal text of an integer parses back to that integer. *)
Lemma parseInt_toString (z : Z) : parseInt (toString z) = Num z.
Proof.
  destruct z as [|p|p]; [reflexivity | |];
    unfold toString, Z.to_int, NilZero.string_of_int;
    pose proof (DecimalPos.Unsigned.to_uint_nonnil p) as Hp;
    rewrite (string_of_uint_nonnil _ Hp).
  - rewrite (parseInt_uint _ Hp), (parse_digits_uint _ Hp),
      DecimalPos.Unsigned.of_to.
    reflexivity.
  - rewrite (parseInt_neg_uint _ Hp), (parse_digits_uint _ Hp),
      DecimalPos.Unsigned.of_to.
    reflexivity.
Qed.

(** What [parseInt] skips and what it does not: the white space of one,
    two and three bytes is skipped; U+200B (zero width space), U+0085 (next
    line) and U+180E are not white space; the prefix 0x selects base 16; the
    digits end at the first character that is none. *)
Lemma parseInt_examples :
  parseInt (utf8 [9; 10; 11; 12; 13; 32] "-12px") = Num (-12) /\
  parseInt (utf8 [194; 160] "999999") = Num 999999 /\
  parseInt (utf8 [225; 154; 128] "7") = Num 7 /\
  parseInt (utf8 [226; 128; 128] "7") = Num 7 /\
  parseInt (utf8 [226; 128; 138] "7") = Num 7 /\
  parseInt (utf8 [226; 128; 168] "7") = Num 7 /\
  parseInt (utf8 [226; 128; 169] "7") = Num 7 /\
  parseInt (utf8 [226; 128; 175] "7") = Num 7 /\
  parseInt (utf8 [226; 129; 159] "7") = Num 7 /\
  parseInt (utf8 [227; 128; 128] "7") = Num 7 /\
  parseInt (utf8 [239; 187; 191] "7") = Num 7 /\
  parseInt (utf8 [226; 128; 139] "7") = NaN /\
  parseInt (utf8 [194; 133] "7") = NaN /\
  parseInt (utf8 [225; 160; 142] "7") = NaN /\
  parseInt "0x1f" = Num 31 /\
  parseInt "0x" = NaN /\
  parseInt "+1e3" = Num 1 /\
  parseInt "soon" = NaN /\
  parseInt EmptyString = NaN.
Proof. vm_compute. repeat split. Qed.

Lemma toString_nonempty (z : Z) : toString z <> EmptyString.
Proof.
  intros E. pose proof (parseInt_toString z) as H. rewrite E in H. discriminate H.
Qed.

Lemma truthy_nonempty (v : string) : v <> EmptyString -> truthy (Some v) = true.
Proof. destruct v; [congruence | reflexivity]. Qed.


(** ** Cumulative layout shift *)

Section CumulativeLayoutShift.

Implicit Types (e : LayoutShift.t) (entries rest cur : list LayoutShift.t).

Lemma gap_body_nonempty (mx start : Q) c cur e :
  gap_body (GapLoop.mk mx (c :: cur) start) e
  = if below_1000 (LayoutShift.startTime e - start)
    then GapLoop.mk mx ((c :: cur) ++ [e]) start
    else GapLoop.mk (Math_max mx (session_sum (c :: cur))) [e]
           (LayoutShift.startTime e).
Proof. reflexivity. Qed.

(** Once the current grouping is non-empty, the loop of
    [calculateMaxSessionGap] cuts the remaining entries as
    [groupings_from] does with the strict test. *)
Lemma gap_loop_groupings rest : forall (mx : Q) cur (start : Q),
  cur <> [] ->
  gap_result (fold_left gap_body rest (GapLoop.mk mx cur start))
  = fold_left Math_max
      (map session_sum (groupings_from below_1000 start cur rest)) mx.
Proof.
  induction rest as [|e rest IH]; intros mx cur start Hcur;
    cbn [fold_left groupings_from].
  - reflexivity.
  - destruct cur as [|c cur]; [congruence|].
    rewrite gap_body_nonempty.
    destruct (below_1000 (LayoutShift.startTime e - start)).
    + apply IH. discriminate.
    + cbn [map fold_left]. apply IH. discriminate.
Qed.

Lemma calculateMaxSessionGap_cons e rest :
  calculateMaxSessionGap (e :: rest)
  = maximum (map session_sum (groupings_from below_1000 0 [e] rest)).
Proof.
  apply (gap_loop_groupings rest 0 [e] 0). discriminate.
Qed.

Lemma groupings_from_start (joins : Q -> bool) (s1 s2 : Q) rest :
  Forall (fun e => joins (LayoutShift.startTime e - s1)%Q
                   = joins (LayoutShift.startTime e - s2)%Q) rest ->
  forall cur, groupings_from joins s1 cur rest = groupings_from joins s2 cur rest.
Proof.
  induction 1 as [|e rest He _ IH]; intros cur; cbn [groupings_from].
  - reflexivity.
  - rewrite He.
    destruct (joins (LayoutShift.startTime e - s2)%Q); [apply IH | reflexivity].
Qed.

Lemma Qltb_true (a b : Q) : Qltb a b = true <-> (a < b)%Q.
Proof.
  unfold Qltb. rewrite negb_true_iff, <- not_true_iff_false, Qle_bool_iff.
  split; [apply Qnot_le_lt | apply Qlt_not_le].
Qed.

Lemma Qltb_false (a b : Q) : Qltb a b = false <-> (b <= a)%Q.
Proof.
  unfold Qltb. rewrite negb_false_iff. apply Qle_bool_iff.
Qed.

Lemma below_1000_origin (t t0 : Q) :
  (0 <= t0)%Q -> (t < 1000)%Q \/ (t0 + 1000 <= t)%Q ->
  below_1000 (t - 0) = below_1000 (t - t0).
Proof.
  intros H0 H. unfold below_1000.
  destruct (Qltb (t - t0) 1000) eqn:E.
  - apply Qltb_true in E. apply Qltb_true. lra.
  - apply Qltb_false in E. apply Qltb_false. lra.
Qed.

(** With a clear first window the code's loop computes the groupings of
    the specification (strict test). *)
Lemma calculateMaxSessionGap_grouped entries :
  first_window_clear entries ->
  calculateMaxSessionGap entries = grouped_CLS below_1000 entries.
Proof.
  destruct entries as [|e rest]; [reflexivity|].
  intros [H0 Hrest]. rewrite calculateMaxSessionGap_cons.
  unfold grouped_CLS, groupings. f_equal. f_equal.
  apply groupings_from_start.
  eapply Forall_impl; [exact Hrest|]. cbv beta.
  intros e' He'. now apply below_1000_origin.
Qed.

Lemma observeCLS_callback_cons e entries (p : Perf) :
  observeCLS_callback (e :: entries) p
  = observeCLS_callback entries
      (if negb (LayoutShift.hadRecentInput e)
       then set_sessionEntries (sessionEntries p ++ [e])
              (set_metrics
                 (set_cls (calculateMaxSessionGap (sessionEntries p ++ [e]))
                    (metrics p)) p)
       else p).
Proof. reflexivity. Qed.

Lemma observeCLS_callback_history entries : forall (p : Perf),
  sessionEntries (observeCLS_callback entries p)
  = sessionEntries p ++ without_recent_input entries /\
  cls (metrics (observeCLS_callback entries p)) =
    match without_recent_input entries with
    | [] => cls (metrics p)
    | _ :: _ =>
        calculateMaxSessionGap (sessionEntries p ++ without_recent_input entries)
    end.
Proof.
  induction entries as [|e entries IH]; intros p.
  - cbn. now rewrite app_nil_r.
  - rewrite observeCLS_callback_cons. unfold without_recent_input in *.
    cbn [List.filter].
    destruct (negb (LayoutShift.hadRecentInput e)); [|apply IH].
    destruct (IH (set_sessionEntries (sessionEntries p ++ [e])
                    (set_metrics
                       (set_cls (calculateMaxSessionGap (sessionEntries p ++ [e]))
                          (metrics p)) p))) as [IH1 IH2].
    rewrite IH1, IH2. cbn [sessionEntries set_sessionEntries].
    rewrite <- app_assoc. split; [reflexivity|].
    destruct (List.filter _ entries); reflexivity.
Qed.

Lemma after_layout_shifts_history batches : forall (p : Perf),
  sessionEntries (after_layout_shifts batches p)
  = sessionEntries p ++ without_recent_input (concat batches) /\
  cls (metrics (after_layout_shifts batches p)) =
    match without_recent_input (concat batches) with
    | [] => cls (metrics p)
    | _ :: _ =>
        calculateMaxSessionGap
          (sessionEntries p ++ without_recent_input (concat batches))
    end.
Proof.
  induction batches as [|b batches IH]; intros p.
  - cbn. now rewrite app_nil_r.
  - change (after_layout_shifts (b :: batches) p)
      with (after_layout_shifts batches (observeCLS_callback b p)).
    destruct (IH (observeCLS_callback b p)) as [IH1 IH2].
    destruct (observeCLS_callback_history b p) as [Hb1 Hb2].
    rewrite IH1, IH2, Hb1, Hb2. cbn [concat].
    unfold without_recent_input. rewrite List.filter_app, <- app_assoc.
    split; [reflexivity|].
    destruct (List.filter _ (concat batches)) as [|x xs].
    + rewrite !app_nil_r. destruct (List.filter _ b); reflexivity.
    + destruct (List.filter _ b); reflexivity.
Qed.

End CumulativeLayoutShift.

Section LargestScore.

Lemma Math_max_le_l (a b : Q) : (a <= Math_max a b)%Q.
Proof.
  unfold Math_max. destruct (Qle_bool a b) eqn:E.
  - now apply Qle_bool_iff.
  - apply Qle_refl.
Qed.

Lemma Math_max_le_r (a b : Q) : (b <= Math_max a b)%Q.
Proof.
  unfold Math_max. destruct (Qle_bool a b) eqn:E.
  - apply Qle_refl.
  - apply Qlt_le_weak, Qnot_le_lt. intros H.
    apply Qle_bool_iff in H. congruence.
Qed.

Lemma fold_Math_max_bound (scores : list Q) : forall (a : Q),
  (a <= fold_left Math_max scores a)%Q /\
  (forall x, In x scores -> (x <= fold_left Math_max scores a)%Q) /\
  (fold_left Math_max scores a = a \/ In (fold_left Math_max scores a) scores).
Proof.
  induction scores as [|y scores IH]; intros a; cbn [fold_left In].
  - split; [apply Qle_refl|]. split; [tauto | now left].
  - destruct (IH (Math_max a y)) as (Hge & Hall & Hin).
    split; [|split].
    + eapply Qle_trans; [apply Math_max_le_l | exact Hge].
    + intros x [<- | Hx]; [|now apply Hall].
      eapply Qle_trans; [apply Math_max_le_r | exact Hge].
    + destruct Hin as [Heq | Hin]; [|now right; right].
      rewrite Heq. unfold Math_max. destruct (Qle_bool a y); auto.
Qed.

(** [maximum] is an upper bound of the scores, and is one of them unless
    it is the floor 0. *)
Lemma maximum_spec (scores : list Q) :
  (forall x, In x scores -> (x <= maximum scores)%Q) /\
  (maximum scores = 0%Q \/ In (maximum scores) scores).
Proof.
  destruct (fold_Math_max_bound scores 0) as (_ & H1 & H2). now split.
Qed.

End LargestScore.

(** ** Numbers that doubles hold *)

Section Exactness.

Implicit Types (q a b : Q) (e : LayoutShift.t) (entries : list LayoutShift.t).

Lemma fixed_point_scaled (bits : Z) q :
  0 <= bits -> fixed_point bits q = true -> scaled (2 ^ (bits + 20) - 1) q.
Proof.
  intros Hbits H. destruct q as [n d]. unfold fixed_point in H. cbn [Qnum Qden] in H.
  apply andb_true_iff in H as [Hmod Habs].
  apply Z.eqb_eq in Hmod. apply Z.ltb_lt in Habs.
  apply Z.mod_divide in Hmod; [|discriminate].
  destruct Hmod as [m Hm]. exists m. split.
  - unfold Qeq. cbn [Qnum Qden]. change (2 ^ 20) with 1048576 in Hm. lia.
  - rewrite Z.pow_add_r by lia. change (2 ^ 20) with 1048576 in *.
    assert (Hd : 0 < Z.pos d) by lia.
    assert (Hp : 0 < 2 ^ bits) by (apply Z.pow_pos_nonneg; lia).
    assert (Hprod : Z.abs m * Z.pos d = 1048576 * Z.abs n).
    { rewrite <- (Z.abs_eq (Z.pos d)) at 1 by lia.
      rewrite <- Z.abs_mul, <- Hm, Z.abs_mul. reflexivity. }
    nia.
Qed.

Lemma scaled_fixed_point (bits : Z) q :
  0 <= bits -> scaled (2 ^ (bits + 20) - 1) q -> fixed_point bits q = true.
Proof.
  intros Hbits (m & Heq & Hm). destruct q as [n d].
  unfold Qeq in Heq. cbn [Qnum Qden] in Heq.
  rewrite Z.pow_add_r in Hm by lia. change (2 ^ 20) with 1048576 in Hm.
  unfold fixed_point. cbn [Qnum Qden]. apply andb_true_iff. split.
  - apply Z.eqb_eq. change (2 ^ 20) with 1048576.
    replace (1048576 * n) with (m * Z.pos d) by lia. apply Z_mod_mult.
  - apply Z.ltb_lt.
    assert (Hd : 0 < Z.pos d) by lia.
    assert (Hp : 0 < 2 ^ bits) by (apply Z.pow_pos_nonneg; lia).
    assert (Hprod : Z.abs n * 1048576 = Z.abs m * Z.pos d).
    { rewrite <- (Z.abs_eq (Z.pos d)) by lia.
      rewrite <- (Z.abs_eq 1048576) at 1 by lia.
      rewrite <- !Z.abs_mul. now rewrite Heq. }
    nia.
Qed.

Lemma scaled_weaken (B B' : Z) q : B <= B' -> scaled B q -> scaled B' q.
Proof. intros H (m & Heq & Hm). exists m. split; [exact Heq | lia]. Qed.

Lemma scaled_plus (B1 B2 : Z) a b :
  scaled B1 a -> scaled B2 b -> scaled (B1 + B2) (a + b).
Proof.
  intros (ma & Ha & Hma) (mb & Hb & Hmb). exists (ma + mb). split; [|lia].
  rewrite Ha, Hb. unfold Qeq, Qplus. cbn [Qnum Qden]. lia.
Qed.

Lemma scaled_minus (B1 B2 : Z) a b :
  scaled B1 a -> scaled B2 b -> scaled (B1 + B2) (a - b).
Proof.
  intros (ma & Ha & Hma) (mb & Hb & Hmb). exists (ma - mb). split; [|lia].
  rewrite Ha, Hb. unfold Qeq, Qminus, Qplus, Qopp. cbn [Qnum Qden]. lia.
Qed.

Lemma scaled_Math_max (B : Z) a b :
  scaled B a -> scaled B b -> scaled B (Math_max a b).
Proof. intros Ha Hb. unfold Math_max. now destruct (Qle_bool a b). Qed.

Lemma scaled_zero (B : Z) : 0 <= B -> scaled B 0.
Proof. intros H. exists 0. split; [reflexivity | exact H]. Qed.

Lemma session_sum_scaled (V : Z) (session : list LayoutShift.t) :
  0 <= V ->
  Forall (fun e => scaled V (LayoutShift.value e)) session ->
  forall (acc : Q) (B : Z),
    scaled B acc ->
    scaled (B + Z.of_nat (length session) * V)
      (fold_left (fun sum e => (sum + LayoutShift.value e)%Q) session acc).
Proof.
  intros HV Hall. induction Hall as [|e session He _ IH]; intros acc B Hacc.
  - cbn. eapply scaled_weaken; [|exact Hacc]. lia.
  - cbn [fold_left length].
    eapply scaled_weaken; [|apply IH, scaled_plus; [exact Hacc | exact He]].
    lia.
Qed.

(** The loop of [calculateMaxSessionGap] on values that are multiples of
    2^-20 of magnitude at most [V]: after [k] entries the largest sum so far
    and the sum of the current grouping are such multiples, of magnitude at
    most [k * V]. *)
Lemma gap_loop_scaled (V : Z) entries :
  0 <= V ->
  Forall (fun e => scaled V (LayoutShift.value e)) entries ->
  forall (st : GapLoop.t) (k : nat),
    scaled (Z.of_nat k * V) (GapLoop.maxSessionValue st) ->
    Forall (fun e => scaled V (LayoutShift.value e)) (GapLoop.session st) ->
    (length (GapLoop.session st) <= k)%nat ->
    scaled (Z.of_nat (k + length entries) * V)
      (gap_result (fold_left gap_body entries st)).
Proof.
  intros HV Hall. induction Hall as [|e entries He _ IH]; intros st k Hmax Hses Hlen.
  - cbn [fold_left length]. unfold gap_result. apply scaled_Math_max.
    + eapply scaled_weaken; [|exact Hmax]. nia.
    + eapply scaled_weaken;
        [|apply (session_sum_scaled V _ HV Hses 0%Q 0), scaled_zero; lia].
      nia.
  - cbn [fold_left length].
    replace (k + S (length entries))%nat with (S k + length entries)%nat by lia.
    apply IH; unfold gap_body;
      destruct ((length (GapLoop.session st) =? 0)%nat
                || Qltb (LayoutShift.startTime e - GapLoop.sessionStart st) 1000);
      cbn [GapLoop.maxSessionValue GapLoop.session].
    + eapply scaled_weaken; [|exact Hmax]. nia.
    + apply scaled_Math_max.
      * eapply scaled_weaken; [|exact Hmax]. nia.
      * eapply scaled_weaken;
          [|apply (session_sum_scaled V _ HV Hses 0%Q 0), scaled_zero; lia].
        nia.
    + apply Forall_app. split; [exact Hses | now constructor].
    + now constructor.
    + rewrite length_app. cbn [length]. lia.
    + cbn [length]. lia.
Qed.

Lemma free_of_rounding_spec entries :
  free_of_rounding entries = true ->
  (length entries <= 4096)%nat /\
  Forall (fun e => scaled (2 ^ 51 - 1) (LayoutShift.startTime e)) entries /\
  Forall (fun e => scaled (2 ^ 40 - 1) (LayoutShift.value e)) entries.
Proof.
  unfold free_of_rounding. intros H.
  apply andb_true_iff in H as [Hlen Hall].
  apply Nat.leb_le in Hlen. split; [exact Hlen|].
  rewrite forallb_forall in Hall.
  split; apply List.Forall_forall; intros e He;
    specialize (Hall e He); apply andb_true_iff in Hall as [Ht Hv].
  - now apply (fixed_point_scaled 31).
  - now apply (fixed_point_scaled 20).
Qed.

(** On entries free of rounding, the value [calculateMaxSessionGap] returns
    is a multiple of 2^-20 below 2^32. *)
Lemma calculateMaxSessionGap_exact entries :
  free_of_rounding entries = true ->
  fixed_point 32 (calculateMaxSessionGap entries) = true.
Proof.
  intros H. destruct (free_of_rounding_spec entries H) as (Hlen & _ & Hval).
  apply scaled_fixed_point; [lia|].
  assert (HV : 0 <= 2 ^ 40 - 1) by (vm_compute; discriminate).
  pose proof (gap_loop_scaled (2 ^ 40 - 1) entries HV Hval
                (GapLoop.mk 0 [] 0) 0%nat) as Hloop.
  cbn [GapLoop.maxSessionValue GapLoop.session length Nat.add] in Hloop.
  eapply scaled_weaken; [|apply Hloop].
  - change (2 ^ (32 + 20) - 1) with 4503599627370495.
    change (2 ^ 40 - 1) with 1099511627775. lia.
  - apply scaled_zero. lia.
  - constructor.
  - lia.
Qed.

(** And so is every difference the loop compares with 1000: that of the
    time of an entry and a start of a grouping, which is 0 or the time of an
    entry. *)
Lemma time_differences_exact entries e (start : Q) :
  free_of_rounding entries = true ->
  In e entries ->
  start = 0%Q \/ (exists e', In e' entries /\ start = LayoutShift.startTime e') ->
  fixed_point 32 (LayoutShift.startTime e - start) = true.
Proof.
  intros H He Hstart.
  destruct (free_of_rounding_spec entries H) as (_ & Ht & _).
  rewrite List.Forall_forall in Ht.
  apply scaled_fixed_point; [lia|].
  assert (Hs : scaled (2 ^ 51 - 1) start).
  { destruct Hstart as [-> | (e' & He' & ->)];
      [apply scaled_zero; vm_compute; discriminate | apply (Ht e' He')]. }
  eapply scaled_weaken; [|apply scaled_minus; [apply (Ht e He) | exact Hs]].
  vm_compute. discriminate.
Qed.

End Exactness.




(** ** Interaction to next paint *)

Section InteractionToNextPaint.

Lemma ascending_le (x y : Q) :
  Qle_bool (ascending x y) 0 = true <-> (x <= y)%Q.
Proof.
  unfold ascending. rewrite Qle_bool_iff. split; intros H; lra.
Qed.

Lemma insert_by_Permutation (x : Q) (l : list Q) :
  Permutation (insert_by ascending x l) (x :: l).
Proof.
  induction l as [|y l IH]; cbn [insert_by].
  - apply Permutation_refl.
  - destruct (Qle_bool (ascending x y) 0).
    + apply Permutation_refl.
    + eapply perm_trans; [apply perm_skip, IH | apply perm_swap].
Qed.

Lemma insert_by_HdRel (a x : Q) (l : list Q) :
  (a <= x)%Q -> HdRel Qle a l -> HdRel Qle a (insert_by ascending x l).
Proof.
  intros Hax Hl. destruct l as [|y l]; cbn [insert_by].
  - now constructor.
  - destruct (Qle_bool (ascending x y) 0); constructor; [assumption|].
    now inversion Hl.
Qed.

Lemma insert_by_Sorted (x : Q) (l : list Q) :
  Sorted Qle l -> Sorted Qle (insert_by ascending x l).
Proof.
  induction 1 as [|y l Hl IH Hy]; cbn [insert_by].
  - repeat constructor.
  - destruct (Qle_bool (ascending x y) 0) eqn:E.
    + apply ascending_le in E. repeat constructor; assumption.
    + constructor; [exact IH|]. apply insert_by_HdRel; [|exact Hy].
      apply Qlt_le_weak, Qnot_le_lt. intros H.
      apply ascending_le in H. congruence.
Qed.

Lemma Array_sort_Permutation (l : list Q) :
  Permutation (Array_sort ascending l) l.
Proof.
  induction l as [|x l IH]; cbn [Array_sort fold_right].
  - apply perm_nil.
  - eapply perm_trans; [apply insert_by_Permutation | now apply perm_skip].
Qed.

Lemma Array_sort_Sorted (l : list Q) : Sorted Qle (Array_sort ascending l).
Proof.
  induction l as [|x l IH]; cbn [Array_sort fold_right].
  - constructor.
  - now apply insert_by_Sorted.
Qed.

Lemma Array_sort_length (l : list Q) :
  length (Array_sort ascending l) = length l.
Proof. apply Permutation_length, Array_sort_Permutation. Qed.

(** [Math.floor(n * 0.75)] is the integer quotient of 3n by 4. *)
Lemma floor_three_quarters (n : nat) :
  Math_floor (inject_Z (Z.of_nat n) * 0.75) = (3 * Z.of_nat n) / 4.
Proof.
  unfold Math_floor, Qfloor, Qmult, inject_Z. cbn [Qnum Qden].
  change (Z.pos (1 * 100)) with (4 * 25).
  replace (Z.of_nat n * 75) with (3 * Z.of_nat n * 25) by lia.
  apply Z.div_mul_cancel_r; lia.
Qed.

Lemma inp_index_in_range (l : list Q) :
  l <> [] -> 0 <= inp_index l < Z.of_nat (length l).
Proof.
  intros Hl. unfold inp_index. rewrite floor_three_quarters.
  assert (0 < Z.of_nat (length l)) by (destruct l; [congruence | cbn; lia]).
  split.
  - apply Z.div_pos; lia.
  - apply Z.div_lt_upper_bound; lia.
Qed.

End InteractionToNextPaint.

(** C7.  After each batch of interaction durations that leaves the history
    non-empty, the history is the old one followed by the batch, and the
    reported INP is the element at index floor(n * 0.75) of the history
    sorted ascending, n being the length of the history. *)
Theorem INP_is_sorted_history_at_three_quarters (p : Perf) (batch : list Q) :
  interactionTimes p ++ batch <> [] ->
  interactionTimes (observeINP_callback batch p) = interactionTimes p ++ batch /\
  Permutation (Array_sort ascending (interactionTimes p ++ batch))
    (interactionTimes p ++ batch) /\
  Sorted Qle (Array_sort ascending (interactionTimes p ++ batch)) /\
  exists x : Q,
    nth_error (Array_sort ascending (interactionTimes p ++ batch))
      (Z.to_nat
         (Math_floor
            (inject_Z (Z.of_nat (length (interactionTimes p ++ batch))) * 0.75)))
    = Some x /\
    inp (metrics (observeINP_callback batch p)) = Some x.
Proof.
  intros Hne.
  set (history := interactionTimes p ++ batch) in *.
  assert (Hlen : (0 <? length history)%nat = true).
  { apply Nat.ltb_lt. destruct history; [congruence | cbn; lia]. }
  assert (Hrun : observeINP_callback batch p
                 = set_metrics
                     (set_inp (inp_estimate history)
                        (set_interactionCount
                           (interactionCount (metrics p) + length batch)%nat
                           (metrics p)))
                     (set_interactionTimes history
                        (set_metrics
                           (set_interactionCount
                              (interactionCount (metrics p) + length batch)%nat
                              (metrics p)) p))).
  { unfold observeINP_callback.
    cbn [interactionTimes set_metrics set_interactionTimes metrics].
    fold history. now rewrite Hlen. }
  rewrite Hrun. cbn [interactionTimes set_metrics set_interactionTimes metrics
                     inp set_inp].
  split; [reflexivity|].
  split; [apply Array_sort_Permutation|].
  split; [apply Array_sort_Sorted|].
  assert (Hsorted : Array_sort ascending history <> []).
  { intros E. apply (f_equal (@length Q)) in E.
    rewrite Array_sort_length in E. destruct history; [congruence | discriminate]. }
  pose proof (inp_index_in_range _ Hsorted) as Hidx.
  unfold inp_estimate, array_get.
  unfold inp_index in *. rewrite Array_sort_length in *.
  destruct (Z.ltb_spec
              (Math_floor (inject_Z (Z.of_nat (length history)) * 0.75)) 0);
    [lia|].
  destruct (nth_error (Array_sort ascending history)
              (Z.to_nat (Math_floor (inject_Z (Z.of_nat (length history)) * 0.75))))
    as [x|] eqn:E.
  - now exists x.
  - apply nth_error_None in E. rewrite Array_sort_length in E. lia.
Qed.

(** The example of the specification: durations 10, 50, 100, 40 give an INP
    of 100. *)
Lemma INP_example :
  inp (metrics (observeINP_callback [10; 50; 100; 40]%Q (new_PerformanceTracker true)))
  = Some 100%Q.
Proof.
  destruct (INP_is_sorted_history_at_three_quarters
              (new_PerformanceTracker true) [10; 50; 100; 40]%Q)
    as (_ & _ & _ & x & Hx & Hinp).
  - discriminate.
  - rewrite Hinp, <- Hx. reflexivity.
Defined.

(** ** Storage calls *)

Section StorageCalls.

Lemma storage_call_eq (s : St) :
  storage_call s
  = (if next_storage_call_throws s then Throw else Normal tt, answered s).
Proof.
  unfold storage_call, next_storage_call_throws, answered.
  destruct (storageFaults (world s)) as [|[] rest]; reflexivity.
Qed.

Lemma world_answered (s : St) :
  world (answered s)
  = set_storageFaults (tail (storageFaults (world s))) (world s).
Proof.
  unfold answered. destruct s as [[e ls sf q l b t] tr p]; cbn.
  destruct sf; reflexivity.
Qed.

Lemma tracker_answered (s : St) : tracker (answered s) = tracker s.
Proof. unfold answered. destruct (storageFaults (world s)); reflexivity. Qed.

Lemma perf_answered (s : St) : perf (answered s) = perf s.
Proof. unfold answered. destruct (storageFaults (world s)); reflexivity. Qed.

Lemma getItem_eq (key : string) (s : St) :
  getItem key s
  = (if next_storage_call_throws s then Throw
     else Normal (localStorage (world s) !! key), answered s).
Proof.
  unfold getItem, bind, gets. rewrite storage_call_eq.
  destruct (next_storage_call_throws s); [reflexivity|].
  now rewrite world_answered.
Qed.

Lemma setItem_eq (key value : string) (s : St) :
  setItem key value s
  = if next_storage_call_throws s then (Throw, answered s)
    else (Normal tt, write_entry key value (answered s)).
Proof.
  unfold setItem, bind, modify. rewrite storage_call_eq.
  now destruct (next_storage_call_throws s).
Qed.

Lemma storage_reliable_answered (s : St) :
  storage_reliable s ->
  next_storage_call_throws s = false /\ storage_reliable (answered s).
Proof.
  unfold storage_reliable, next_storage_call_throws. rewrite world_answered.
  destruct (storageFaults (world s)) as [|b rest]; cbn; intros H.
  - split; [reflexivity | constructor].
  - inversion H; subst. split; [reflexivity | assumption].
Qed.

End StorageCalls.

(** The outcomes of [refreshSession], read off its definition. *)
Lemma refreshSession_cases (s : St) :
  let s' := exec refreshSession s in
  let newExpirationTime := now (env (world s)) + CONFIG.SESSION_DURATION in
  fst (refreshSession s) = Normal tt /\
  beacons (world s') = beacons (world s) /\
  timeouts (world s') = timeouts (world s) /\
  match visibilityState (env (world s)), isDestroyed (tracker s) with
  | visible, false =>
      if next_storage_call_throws s
      then localStorage (world s') = localStorage (world s) /\
           session (tracker s') = session (tracker s)
      else localStorage (world s')
           = <[CONFIG.STORAGE_KEYS.EXPIRATION := toString newExpirationTime]>
               (localStorage (world s)) /\
           session (tracker s')
           = option_map (Session.set_expirationTime (Num newExpirationTime))
               (session (tracker s))
  | _, _ => s' = s
  end.
Proof.
  cbn zeta. unfold exec, refreshSession, bind, gets, try_catch.
  destruct (visibilityState (env (world s))), (isDestroyed (tracker s));
    try (cbn; repeat split; reflexivity).
  rewrite setItem_eq.
  destruct (next_storage_call_throws s).
  - cbn. rewrite world_answered, tracker_answered. repeat split; reflexivity.
  - cbn. rewrite tracker_answered.
    destruct (session (tracker s)) eqn:E; unfold write_entry; cbn;
      rewrite ?world_answered, ?tracker_answered, ?E; repeat split; reflexivity.
Qed.

(** C4.  A refresh never throws and never emits an event or starts a timer.
    When the page is not visible or the tracker is destroyed it changes
    nothing at all.  Otherwise, when the storage write throws, the persisted
    entries and the session in memory are as before; when the write succeeds,
    the persisted expiration is the text of now + session duration, which
    reads back as that number, and the session in memory (when there is one)
    keeps its id and its start time and has that number as its expiration. *)
Theorem refreshSession_contract (s : St) :
  let s' := exec refreshSession s in
  let newExpirationTime := now (env (world s)) + CONFIG.SESSION_DURATION in
  fst (refreshSession s) = Normal tt /\
  beacons (world s') = beacons (world s) /\
  timeouts (world s') = timeouts (world s) /\
  match visibilityState (env (world s)), isDestroyed (tracker s) with
  | visible, false =>
      if next_storage_call_throws s
      then localStorage (world s') = localStorage (world s) /\
           session (tracker s') = session (tracker s)
      else localStorage (world s')
           = <[CONFIG.STORAGE_KEYS.EXPIRATION := toString newExpirationTime]>
               (localStorage (world s)) /\
           option_map parseInt
             (localStorage (world s') !! CONFIG.STORAGE_KEYS.EXPIRATION)
           = Some (Num newExpirationTime) /\
           session (tracker s')
           = match session (tracker s) with
             | Some ses =>
                 Some (Session.mk (Session.sessionId ses) (Num newExpirationTime)
                         (Session.startTime ses))
             | None => None
             end
  | _, _ => s' = s
  end.
Proof.
  cbn zeta.
  destruct (refreshSession_cases s) as (Hret & Hbeacons & Htimeouts & H).
  cbn zeta in H.
  split; [exact Hret|]. split; [exact Hbeacons|]. split; [exact Htimeouts|].
  destruct (visibilityState (env (world s))), (isDestroyed (tracker s));
    try exact H.
  destruct (next_storage_call_throws s); [exact H|].
  destruct H as [Hstore Hsession].
  split; [exact Hstore|]. split.
  - rewrite Hstore, lookup_insert_eq. cbn [option_map].
    now rewrite parseInt_toString.
  - rewrite Hsession. now destruct (session (tracker s)).
Qed.

(** A refresh at time 1000000 on a visible page: the store holds the text
    1600000, and the session in memory expires at 1600000. *)
Lemma refreshSession_contract_example :
  localStorage (world (exec refreshSession running_state))
    !! CONFIG.STORAGE_KEYS.EXPIRATION
  = Some "1600000" /\
  session (tracker (exec refreshSession running_state))
  = Some (Session.mk "old-id" (Num 1600000) 999000).
Proof.
  destruct (refreshSession_contract running_state) as (_ & _ & _ & H).
  change
    (localStorage (world (exec refreshSession running_state))
     = <[CONFIG.STORAGE_KEYS.EXPIRATION := toString 1600000]>
         (localStorage (world running_state)) /\
     option_map parseInt
       (localStorage (world (exec refreshSession running_state))
          !! CONFIG.STORAGE_KEYS.EXPIRATION)
     = Some (Num 1600000) /\
     session (tracker (exec refreshSession running_state))
     = Some (Session.mk "old-id" (Num 1600000) 999000)) in H.
  destruct H as (Hstore & _ & Hsession).
  split; [|exact Hsession].
  rewrite Hstore. vm_compute. reflexivity.
Defined.

(** ** Dispatch *)

Section Dispatch.

Implicit Types (s : St) (eventName : string) (eventData : EventData).

Lemma trackEvent_destroyed eventName eventData s :
  isDestroyed (tracker s) = true -> trackEvent eventName eventData s = s.
Proof. unfold trackEvent. now intros ->. Qed.

Lemma trackEvent_ready eventName eventData s ses :
  isDestroyed (tracker s) = false -> ready_session s = Some ses ->
  trackEvent eventName eventData s
  = sendAnalyticsRequest (compose_payload s ses eventName eventData) s.
Proof.
  unfold trackEvent, trackEvent_send. now intros -> ->.
Qed.

Lemma trackEvent_cases eventName eventData s :
  trackEvent eventName eventData s = s \/
  (exists ses, ready_session s = Some ses /\
     trackEvent eventName eventData s
     = sendAnalyticsRequest (compose_payload s ses eventName eventData) s) \/
  (ready_session s = None /\
   trackEvent eventName eventData s
   = on_world
       (fun w => set_timeouts (timeouts w ++ [(eventName, eventData)]) w) s).
Proof.
  unfold trackEvent, trackEvent_send.
  destruct (isDestroyed (tracker s)); [now left|].
  destruct (ready_session s) as [ses|] eqn:E.
  - right; left. now exists ses.
  - right; right. now split.
Qed.

Lemma trackEvent_tracker eventName eventData s :
  tracker (trackEvent eventName eventData s) = tracker s.
Proof.
  destruct (trackEvent_cases eventName eventData s)
    as [-> | [(ses & _ & ->) | [_ ->]]]; reflexivity.
Qed.

Lemma trackEvent_perf eventName eventData s :
  perf (trackEvent eventName eventData s) = perf s.
Proof.
  destruct (trackEvent_cases eventName eventData s)
    as [-> | [(ses & _ & ->) | [_ ->]]]; reflexivity.
Qed.

Lemma trackEvent_env eventName eventData s :
  env (world (trackEvent eventName eventData s)) = env (world s).
Proof.
  destruct (trackEvent_cases eventName eventData s)
    as [-> | [(ses & _ & ->) | [_ ->]]]; reflexivity.
Qed.

Lemma trackEvent_localStorage eventName eventData s :
  localStorage (world (trackEvent eventName eventData s))
  = localStorage (world s).
Proof.
  destruct (trackEvent_cases eventName eventData s)
    as [-> | [(ses & _ & ->) | [_ ->]]]; reflexivity.
Qed.

Lemma ready_session_tracker s s' :
  tracker s' = tracker s -> ready_session s' = ready_session s.
Proof. unfold ready_session. now intros ->. Qed.

Lemma trackEvent_harmless eventName eventData s :
  timers_harmless s -> timers_harmless (trackEvent eventName eventData s).
Proof.
  unfold timers_harmless.
  destruct (trackEvent_cases eventName eventData s)
    as [-> | [(ses & _ & ->) | [E ->]]]; [tauto | tauto |].
  intros _. now left.
Qed.

Lemma trackEvent_beacons eventName eventData s :
  beacons (world (trackEvent eventName eventData s)) = beacons (world s) \/
  exists ses,
    beacons (world (trackEvent eventName eventData s))
    = beacons (world s) ++ [compose_payload s ses eventName eventData].
Proof.
  destruct (trackEvent_cases eventName eventData s)
    as [-> | [(ses & _ & ->) | [_ ->]]]; [now left | | now left].
  right. now exists ses.
Qed.

Lemma count_final_app (l1 l2 : list Payload.t) :
  count_final (l1 ++ l2) = (count_final l1 + count_final l2)%nat.
Proof. unfold count_final. now rewrite List.filter_app, length_app. Qed.

Lemma trackEvent_count_final eventName eventData s :
  (count_final (beacons (world (trackEvent eventName eventData s)))
   <= count_final (beacons (world s)) + 1)%nat.
Proof.
  destruct (trackEvent_beacons eventName eventData s) as [-> | [ses ->]];
    [lia|].
  rewrite count_final_app. unfold count_final at 2. cbn.
  destruct (is_final_metrics _); cbn; lia.
Qed.

Lemma trackEvent_count_final_other eventName eventData s :
  carries_metrics eventData = false ->
  count_final (beacons (world (trackEvent eventName eventData s)))
  = count_final (beacons (world s)).
Proof.
  intros Hd.
  destruct (trackEvent_beacons eventName eventData s) as [-> | [ses ->]];
    [reflexivity|].
  rewrite count_final_app. unfold count_final at 2. cbn.
  unfold is_final_metrics. cbn. destruct eventData; try discriminate; cbn; lia.
Qed.

(** A timer that fires in a harmless state sends nothing. *)
Lemma trackEvent_resume_harmless eventName eventData rest s :
  timers_harmless s ->
  timeouts (world s) = (eventName, eventData) :: rest ->
  trackEvent_resume eventName eventData (on_world (set_timeouts rest) s)
  = on_world (set_timeouts rest) s.
Proof.
  intros [H | H] E; [|congruence].
  unfold trackEvent_resume, trackEvent_send.
  now rewrite (ready_session_tracker s (on_world (set_timeouts rest) s) eq_refl), H.
Qed.

Lemma trackPageView_tracker_session s :
  session (tracker (trackPageView s)) = session (tracker s) /\
  isDestroyed (tracker (trackPageView s)) = isDestroyed (tracker s) /\
  perf (trackPageView s) = perf s.
Proof.
  unfold trackPageView. destruct (isDestroyed (tracker s)) eqn:E; [tauto|].
  cbn. now rewrite trackEvent_tracker, trackEvent_perf, E.
Qed.

Lemma ready_session_session s s' :
  session (tracker s') = session (tracker s) ->
  ready_session s' = ready_session s.
Proof. unfold ready_session. now intros ->. Qed.

Lemma timers_harmless_frame s s' :
  session (tracker s') = session (tracker s) ->
  timeouts (world s') = timeouts (world s) ->
  timers_harmless s -> timers_harmless s'.
Proof.
  unfold timers_harmless. intros Hs ->.
  now rewrite (ready_session_session s s' Hs).
Qed.

Lemma trackPageView_harmless s :
  timers_harmless s -> timers_harmless (trackPageView s).
Proof.
  unfold trackPageView. destruct (isDestroyed (tracker s)); [tauto|].
  intros H. cbn zeta.
  apply (timers_harmless_frame
           (trackEvent CONFIG.EVENTS.PAGE_VIEW EmptyObject s));
    [reflexivity | reflexivity | now apply trackEvent_harmless].
Qed.

Lemma trackPageView_count_final s :
  count_final (beacons (world (trackPageView s)))
  = count_final (beacons (world s)).
Proof.
  unfold trackPageView. destruct (isDestroyed (tracker s)); [reflexivity|].
  cbn. now apply trackEvent_count_final_other.
Qed.

Lemma flush_queue_invariant (P : St -> Prop) eventType (queue : list string) :
  (forall d s, P s -> P (trackEvent eventType (CallerData d) s)) ->
  forall s, P s ->
  P (fold_left (fun s data => trackEvent eventType (CallerData data) s) queue s).
Proof.
  intros Hstep. induction queue as [|d queue IH]; intros s Hs; cbn [fold_left].
  - exact Hs.
  - apply IH, Hstep, Hs.
Qed.

Lemma initializeLynq_harmless eventType s :
  timers_harmless s -> timers_harmless (initializeLynq eventType s).
Proof.
  intros H. unfold initializeLynq.
  apply (flush_queue_invariant timers_harmless eventType
           (default [] (lynqQueue (world s)))) in H;
    [|intros; now apply trackEvent_harmless].
  exact H.
Qed.

Lemma initializeLynq_count_final eventType s :
  count_final (beacons (world (initializeLynq eventType s)))
  = count_final (beacons (world s)).
Proof.
  unfold initializeLynq. cbn.
  apply (flush_queue_invariant
           (fun s' => count_final (beacons (world s'))
                      = count_final (beacons (world s)))).
  - intros d s' <-. now apply trackEvent_count_final_other.
  - reflexivity.
Qed.

Lemma initializeLynq_perf eventType s :
  perf (initializeLynq eventType s) = perf s.
Proof.
  unfold initializeLynq. cbn.
  apply (flush_queue_invariant (fun s' => perf s' = perf s)).
  - intros d s' <-. apply trackEvent_perf.
  - reflexivity.
Qed.

End Dispatch.

(** ** Session initialization *)

Section SessionInitialization.

Implicit Types (s : St) (ses : Session.t).

Lemma env_answered s : env (world (answered s)) = env (world s).
Proof. now rewrite world_answered. Qed.

Lemma localStorage_answered s :
  localStorage (world (answered s)) = localStorage (world s).
Proof. now rewrite world_answered. Qed.

Lemma localStorage_write_entry (key value : string) s :
  localStorage (world (write_entry key value s))
  = <[key := value]> (localStorage (world s)).
Proof. reflexivity. Qed.

Lemma beacons_answered s : beacons (world (answered s)) = beacons (world s).
Proof. now rewrite world_answered. Qed.

Lemma timeouts_answered s : timeouts (world (answered s)) = timeouts (world s).
Proof. now rewrite world_answered. Qed.

Lemma lynqQueue_answered s : lynqQueue (world (answered s)) = lynqQueue (world s).
Proof. now rewrite world_answered. Qed.

Lemma storage_reliable_write key value s :
  storage_reliable s -> storage_reliable (write_entry key value s).
Proof. exact (fun H => H). Qed.

Lemma isSessionExpired_env s s' exp :
  env (world s') = env (world s) ->
  isSessionExpired s' exp = isSessionExpired s exp.
Proof. unfold isSessionExpired. now intros ->. Qed.

Lemma compose_payload_frame s s' ses eventName eventData :
  env (world s') = env (world s) ->
  dataDomain (tracker s') = dataDomain (tracker s) ->
  clientId (tracker s') = clientId (tracker s) ->
  pageLoadId (tracker s') = pageLoadId (tracker s) ->
  compose_payload s' ses eventName eventData
  = compose_payload s ses eventName eventData.
Proof. unfold compose_payload. now intros -> -> -> ->. Qed.

(** Flushing the queue when the session is there: one payload per queued
    entry, in the order of the queue. *)
Lemma flush_queue_ready eventType (queue : list string) : forall s ses,
  isDestroyed (tracker s) = false -> ready_session s = Some ses ->
  let s' :=
    fold_left (fun s data => trackEvent eventType (CallerData data) s) queue s in
  tracker s' = tracker s /\ perf s' = perf s /\
  world s'
  = set_beacons
      (beacons (world s) ++
       map (fun d => compose_payload s ses eventType (CallerData d)) queue)
      (world s).
Proof.
  induction queue as [|d queue IH]; intros s ses Hd Hr; cbn [fold_left map].
  - rewrite app_nil_r. destruct s as [[] ? ?]. now cbn.
  - rewrite (trackEvent_ready _ _ s ses Hd Hr).
    set (p := compose_payload s ses eventType (CallerData d)).
    destruct (IH (sendAnalyticsRequest p s) ses Hd Hr) as (Ht & Hp & Hw).
    cbn zeta. rewrite Ht, Hp, Hw. repeat split.
    unfold sendAnalyticsRequest, on_world, set_beacons. cbn.
    rewrite <- app_assoc. reflexivity.
Qed.

Lemma count_event_queue name ses s eventType (queue : list string) :
  count_event name
    (map (fun d => compose_payload s ses eventType (CallerData d)) queue)
  = if String.eqb eventType name then length queue else 0%nat.
Proof.
  unfold count_event. induction queue as [|d queue IH]; cbn [map List.filter].
  - now destruct (String.eqb eventType name).
  - cbn [compose_payload Payload.event].
    destruct (String.eqb eventType name); cbn [length]; now rewrite IH.
Qed.

Lemma emitted_app s s' (new : list Payload.t) :
  beacons (world s') = beacons (world s) ++ new -> emitted s s' = new.
Proof. unfold emitted. intros ->. apply drop_app_length. Qed.

(** The tail of both branches: the session is in place and the tracker is
    not destroyed, so the first event and the queued ones are sent. *)
Lemma initializeLynq_ready eventType s ses :
  isDestroyed (tracker s) = false -> ready_session s = Some ses ->
  tracker (initializeLynq eventType s) = tracker s /\
  perf (initializeLynq eventType s) = perf s /\
  localStorage (world (initializeLynq eventType s)) = localStorage (world s) /\
  timeouts (world (initializeLynq eventType s)) = timeouts (world s) /\
  beacons (world (initializeLynq eventType s))
  = beacons (world s) ++
    map (fun d => compose_payload s ses eventType (CallerData d))
      (default [] (lynqQueue (world s))).
Proof.
  intros Hd Hr. unfold initializeLynq.
  destruct (flush_queue_ready eventType (default [] (lynqQueue (world s)))
              s ses Hd Hr) as (Ht & Hp & Hw).
  cbn zeta in *. cbn. rewrite Ht, Hp, Hw. now cbn.
Qed.

Lemma initializeSession_fresh s (newSessionId : string) :
  isDestroyed (tracker s) = false ->
  storage_reliable s ->
  newSessionId <> EmptyString ->
  stored_session_stale s
    (localStorage (world s) !! CONFIG.STORAGE_KEYS.SESSION_ID)
    (localStorage (world s) !! CONFIG.STORAGE_KEYS.EXPIRATION) = true ->
  let t := now (env (world s)) in
  let ses := Session.mk newSessionId (Num (t + CONFIG.SESSION_DURATION)) t in
  let s' := exec (initializeSession newSessionId) s in
  session (tracker s') = Some ses /\
  localStorage (world s')
  = <[CONFIG.STORAGE_KEYS.EXPIRATION := toString (t + CONFIG.SESSION_DURATION)]>
      (<[CONFIG.STORAGE_KEYS.SESSION_ID := newSessionId]> (localStorage (world s))) /\
  beacons (world s')
  = beacons (world s) ++
    compose_payload s ses CONFIG.EVENTS.SESSION_START EmptyObject ::
    map (fun d => compose_payload s ses CONFIG.EVENTS.INITIAL_CUSTOM_EVENT
                    (CallerData d))
      (default [] (lynqQueue (world s))) /\
  timeouts (world s') = timeouts (world s).
Proof.
  intros Hd Hrel Hnew Hstale. cbn zeta.
  unfold exec, initializeSession, try_catch, bind, gets.
  rewrite getItem_eq.
  destruct (storage_reliable_answered s Hrel) as [-> Hrel1].
  rewrite getItem_eq.
  destruct (storage_reliable_answered _ Hrel1) as [-> Hrel2].
  rewrite localStorage_answered.
  set (s2 := answered (answered s)) in *.
  assert (Henv2 : env (world s2) = env (world s))
    by (unfold s2; now rewrite !env_answered).
  assert (Hbranch :
    match localStorage (world s) !! CONFIG.STORAGE_KEYS.SESSION_ID,
          localStorage (world s) !! CONFIG.STORAGE_KEYS.EXPIRATION with
    | Some sid, Some exp =>
        if negb (truthy (localStorage (world s) !! CONFIG.STORAGE_KEYS.SESSION_ID))
           || negb (truthy (localStorage (world s) !! CONFIG.STORAGE_KEYS.EXPIRATION))
           || isSessionExpired s2 exp
        then start_new_session newSessionId
        else resume_session sid exp
    | _, _ => start_new_session newSessionId
    end = start_new_session newSessionId).
  { unfold stored_session_stale in Hstale.
    destruct (localStorage (world s) !! CONFIG.STORAGE_KEYS.SESSION_ID);
      [|reflexivity].
    destruct (localStorage (world s) !! CONFIG.STORAGE_KEYS.EXPIRATION);
      [|reflexivity].
    now rewrite (isSessionExpired_env s s2 _ Henv2), Hstale. }
  rewrite Hbranch. clear Hbranch.
  unfold start_new_session, bind, gets, modify.
  rewrite setItem_eq.
  destruct (storage_reliable_answered _ Hrel2) as [-> Hrel3].
  rewrite setItem_eq.
  destruct (storage_reliable_answered _
              (storage_reliable_write CONFIG.STORAGE_KEYS.SESSION_ID
                 newSessionId _ Hrel3)) as [-> Hrel4].
  cbn [snd]. rewrite Henv2.
  set (ses := Session.mk newSessionId
                (Num (now (env (world s)) + CONFIG.SESSION_DURATION))
                (now (env (world s)))).
  set (s4 := write_entry CONFIG.STORAGE_KEYS.EXPIRATION _ (answered _)).
  assert (Htr4 : tracker s4 = tracker s).
  { unfold s4, write_entry. cbn. rewrite tracker_answered. cbn.
    unfold s2. now rewrite !tracker_answered. }
  assert (Hw4 : env (world s4) = env (world s) /\
                beacons (world s4) = beacons (world s) /\
                timeouts (world s4) = timeouts (world s) /\
                lynqQueue (world s4) = lynqQueue (world s) /\
                localStorage (world s4)
                = <[CONFIG.STORAGE_KEYS.EXPIRATION :=
                      toString (now (env (world s)) + CONFIG.SESSION_DURATION)]>
                    (<[CONFIG.STORAGE_KEYS.SESSION_ID := newSessionId]>
                       (localStorage (world s)))).
  { unfold s4, write_entry. cbn.
    rewrite !env_answered, !beacons_answered, !timeouts_answered,
      !lynqQueue_answered, !localStorage_answered. cbn.
    unfold s2.
    rewrite !env_answered, !beacons_answered, !timeouts_answered,
      !lynqQueue_answered, !localStorage_answered. repeat split. }
  destruct Hw4 as (He4 & Hb4 & Ht4 & Hq4 & Hl4).
  clearbody s4. clear Hrel4 Hrel3 Hrel2 Hrel1 Henv2. clearbody s2.
  set (s5 := on_tracker (set_session (Some ses)) s4).
  assert (Hd5 : isDestroyed (tracker s5) = false).
  { change (isDestroyed (tracker s4) = false). now rewrite Htr4. }
  assert (Hr5 : ready_session s5 = Some ses).
  { unfold ready_session. change (session (tracker s5)) with (Some ses).
    subst ses. cbn. destruct newSessionId; [congruence | reflexivity]. }
  rewrite (trackEvent_ready _ _ s5 ses Hd5 Hr5).
  set (s6 := sendAnalyticsRequest _ s5).
  destruct (initializeLynq_ready "initial-custom-event" s6 ses Hd5 Hr5)
    as (Ht & _ & Hls & Hto & Hb).
  cbn [tracker on_tracker session set_sessionInterval world].
  rewrite Ht, Hls, Hto, Hb.
  change (lynqQueue (world s6)) with (lynqQueue (world s4)).
  change (timeouts (world s6)) with (timeouts (world s4)).
  change (localStorage (world s6)) with (localStorage (world s4)).
  change (beacons (world s6))
    with (beacons (world s4) ++
          [compose_payload s5 ses CONFIG.EVENTS.SESSION_START EmptyObject]).
  rewrite Hb4, Ht4, Hq4, Hl4, <- app_assoc. cbn [app].
  repeat split.
  f_equal. f_equal.
  - apply compose_payload_frame; [exact He4 | | |];
      change (tracker s5) with (set_session (Some ses) (tracker s4));
      cbn; now rewrite Htr4.
  - apply map_ext. intros d.
    apply compose_payload_frame; [exact He4 | | |];
      change (tracker s6) with (set_session (Some ses) (tracker s4));
      cbn; now rewrite Htr4.
Qed.

Lemma initializeSession_resume s (newSessionId sid exp : string) :
  isDestroyed (tracker s) = false ->
  storage_reliable s ->
  localStorage (world s) !! CONFIG.STORAGE_KEYS.SESSION_ID = Some sid ->
  localStorage (world s) !! CONFIG.STORAGE_KEYS.EXPIRATION = Some exp ->
  stored_session_stale s (Some sid) (Some exp) = false ->
  let t := now (env (world s)) in
  let ses := Session.mk sid (parseInt exp) t in
  let s' := exec (initializeSession newSessionId) s in
  session (tracker s') = Some ses /\
  localStorage (world s') = localStorage (world s) /\
  beacons (world s')
  = beacons (world s) ++
    compose_payload s ses CONFIG.EVENTS.PAGE_VIEW EmptyObject ::
    map (fun d => compose_payload s ses CONFIG.EVENTS.CUSTOM_EVENT (CallerData d))
      (default [] (lynqQueue (world s))) /\
  timeouts (world s') = timeouts (world s).
Proof.
  intros Hd Hrel Hsid Hexp Hstale. cbn zeta.
  unfold exec, initializeSession, try_catch, bind, gets.
  rewrite getItem_eq.
  destruct (storage_reliable_answered s Hrel) as [-> Hrel1].
  rewrite getItem_eq.
  destruct (storage_reliable_answered _ Hrel1) as [-> Hrel2].
  rewrite localStorage_answered, Hsid, Hexp.
  set (s2 := answered (answered s)) in *.
  assert (Htr2 : tracker s2 = tracker s)
    by (unfold s2; now rewrite !tracker_answered).
  assert (Hw2 : env (world s2) = env (world s) /\
                beacons (world s2) = beacons (world s) /\
                timeouts (world s2) = timeouts (world s) /\
                lynqQueue (world s2) = lynqQueue (world s) /\
                localStorage (world s2) = localStorage (world s)).
  { unfold s2.
    rewrite !env_answered, !beacons_answered, !timeouts_answered,
      !lynqQueue_answered, !localStorage_answered. repeat split. }
  destruct Hw2 as (He2 & Hb2 & Ht2 & Hq2 & Hl2).
  clearbody s2. clear Hrel1 Hrel2.
  unfold stored_session_stale in Hstale.
  rewrite (isSessionExpired_env s s2 _ He2), Hstale.
  apply orb_false_elim in Hstale as [Hstale _].
  apply orb_false_elim in Hstale as [Htruthy _].
  apply negb_false_iff in Htruthy.
  unfold resume_session, bind, gets, modify. cbn [snd]. rewrite He2.
  set (ses := Session.mk sid (parseInt exp) (now (env (world s)))).
  set (s5 := on_tracker (set_session (Some ses)) s2).
  assert (Hd5 : isDestroyed (tracker s5) = false).
  { change (isDestroyed (tracker s2) = false). now rewrite Htr2. }
  assert (Hr5 : ready_session s5 = Some ses).
  { unfold ready_session. change (session (tracker s5)) with (Some ses).
    subst ses. cbn [Session.sessionId]. now rewrite Htruthy. }
  unfold trackPageView. rewrite Hd5.
  rewrite (trackEvent_ready _ _ s5 ses Hd5 Hr5). cbn zeta.
  set (s6 := on_tracker _ (sendAnalyticsRequest _ s5)).
  destruct (initializeLynq_ready "custom-event" s6 ses Hd5 Hr5)
    as (Ht & _ & Hls & Hto & Hb).
  cbn [tracker on_tracker session set_sessionInterval world].
  rewrite Ht, Hls, Hto, Hb.
  change (lynqQueue (world s6)) with (lynqQueue (world s2)).
  change (timeouts (world s6)) with (timeouts (world s2)).
  change (localStorage (world s6)) with (localStorage (world s2)).
  change (beacons (world s6))
    with (beacons (world s2) ++
          [compose_payload s5 ses CONFIG.EVENTS.PAGE_VIEW EmptyObject]).
  rewrite Hb2, Ht2, Hq2, Hl2, <- app_assoc. cbn [app].
  repeat split.
  f_equal. f_equal.
  - apply compose_payload_frame; [exact He2 | | |];
      change (tracker s5) with (set_session (Some ses) (tracker s2));
      cbn; now rewrite Htr2.
  - apply map_ext. intros d.
    apply compose_payload_frame; [exact He2 | | |]; cbn; now rewrite Htr2.
Qed.

End SessionInitialization.

(** ** The session lifecycle *)

Section SessionLifecycle.

Lemma count_event_announce name first eventType (s : St) ses d
  (queue : list string) :
  count_event name
    (compose_payload s ses first d ::
     map (fun d => compose_payload s ses eventType (CallerData d)) queue)
  = ((if String.eqb first name then 1 else 0)
     + (if String.eqb eventType name then length queue else 0))%nat.
Proof.
  rewrite <- count_event_queue with (ses := ses) (s := s).
  unfold count_event. cbn [List.filter compose_payload Payload.event].
  now destruct (String.eqb first name).
Qed.

Lemma storage_reliable_nil (s : St) :
  storageFaults (world s) = [] -> storage_reliable s.
Proof. unfold storage_reliable. intros ->. constructor. Qed.

Lemma sample_state_reliable (stored : gmap string string) :
  storage_reliable (sample_state stored []).
Proof. now apply storage_reliable_nil. Qed.

Lemma parseInt_empty : parseInt EmptyString = NaN.
Proof. reflexivity. Qed.

End SessionLifecycle.




(** C10, as amended.  A stored expiration that [parseInt] does not read as a
    number, next to a non-empty stored session id (on a tracker that is not
    destroyed and a storage none of whose calls throws).  When the
    expiration is not the empty string, initialization takes up the stored
    session: the session in memory has the stored id and the expiration NaN,
    the storage is unchanged, a page-view is sent and no new session is
    made.  When it is the empty string, which is falsy, a new session is
    made with the generated id, and session-start is sent. *)
Theorem initializeSession_unparsable_expiration
  (s : St) (newSessionId sid exp : string) :
  isDestroyed (tracker s) = false ->
  storage_reliable s ->
  localStorage (world s) !! CONFIG.STORAGE_KEYS.SESSION_ID = Some sid ->
  sid <> EmptyString ->
  localStorage (world s) !! CONFIG.STORAGE_KEYS.EXPIRATION = Some exp ->
  parseInt exp = NaN ->
  let t := now (env (world s)) in
  let queue := default [] (lynqQueue (world s)) in
  let s' := exec (initializeSession newSessionId) s in
  (exp <> EmptyString ->
   let ses := Session.mk sid NaN t in
   session (tracker s') = Some ses /\
   localStorage (world s') = localStorage (world s) /\
   emitted s s'
   = compose_payload s ses CONFIG.EVENTS.PAGE_VIEW EmptyObject ::
     map (fun d => compose_payload s ses CONFIG.EVENTS.CUSTOM_EVENT (CallerData d))
       queue)
  /\
  (exp = EmptyString -> newSessionId <> EmptyString ->
   let ses := Session.mk newSessionId (Num (t + CONFIG.SESSION_DURATION)) t in
   session (tracker s') = Some ses /\
   localStorage (world s') !! CONFIG.STORAGE_KEYS.SESSION_ID = Some newSessionId /\
   emitted s s'
   = compose_payload s ses CONFIG.EVENTS.SESSION_START EmptyObject ::
     map (fun d => compose_payload s ses CONFIG.EVENTS.INITIAL_CUSTOM_EVENT
                     (CallerData d)) queue).
Proof.
  intros Hd Hrel Hsid Hsidne Hexp Hparse. cbn zeta. split.
  - intros Hexpne.
    assert (Hstale : stored_session_stale s (Some sid) (Some exp) = false).
    { unfold stored_session_stale, isSessionExpired. rewrite Hparse.
      destruct sid; [congruence|]. destruct exp; [congruence | reflexivity]. }
    destruct (initializeSession_resume s newSessionId sid exp Hd Hrel Hsid Hexp
                Hstale) as (Hses & Hls & Hb & _).
    cbn zeta in Hses, Hls, Hb. rewrite Hparse in Hses, Hb.
    rewrite (emitted_app _ _ _ Hb). repeat split; assumption.
  - intros -> Hnew.
    assert (Hstale :
      stored_session_stale s
        (localStorage (world s) !! CONFIG.STORAGE_KEYS.SESSION_ID)
        (localStorage (world s) !! CONFIG.STORAGE_KEYS.EXPIRATION) = true).
    { rewrite Hsid, Hexp. unfold stored_session_stale.
      now destruct sid. }
    destruct (initializeSession_fresh s newSessionId Hd Hrel Hnew Hstale)
      as (Hses & Hls & Hb & _).
    cbn zeta in Hses, Hls, Hb.
    rewrite (emitted_app _ _ _ Hb).
    split; [exact Hses|]. split; [|reflexivity].
    rewrite Hls, lookup_insert_ne by discriminate. apply lookup_insert_eq.
Qed.

(** A stored expiration that is not a number at all keeps the old session.
    One that begins with a no-break space is a number for [parseInt], which
    skips that space: it is outside the statement, and being in the past it
    leads to a new session. *)
Lemma initializeSession_unparsable_sample :
  let no_break_space := utf8 [194; 160] "999999" in
  (parseInt "soon" = NaN /\
   session (tracker (exec (initializeSession "fresh-id")
                       (sample_state (stored_session "old-id" "soon") [])))
   = Some (Session.mk "old-id" NaN 1000000)) /\
  (parseInt no_break_space = Num 999999 /\
   session (tracker (exec (initializeSession "fresh-id")
                       (sample_state (stored_session "old-id" no_break_space) [])))
   = Some (Session.mk "fresh-id" (Num 1600000) 1000000)).
Proof.
  cbn zeta. split; [|vm_compute; split; reflexivity].
  split; [reflexivity|].
  assert (H1 : "old-id" <> EmptyString) by discriminate.
  assert (H2 : "soon" <> EmptyString) by discriminate.
  destruct (initializeSession_unparsable_expiration
              (sample_state (stored_session "old-id" "soon") [])
              "fresh-id" "old-id" "soon" eq_refl (sample_state_reliable _)
              ltac:(vm_compute; reflexivity) H1
              ltac:(vm_compute; reflexivity) eq_refl) as [Hresumed _].
  destruct (Hresumed H2) as (Hses & _).
  exact Hses.
Defined.

(** C10 as stated fails for the empty string: it does not parse to a number
    either, yet the code makes a new session. *)
Lemma initializeSession_empty_expiration_counterexample :
  let s := sample_state (stored_session "old-id" EmptyString) [] in
  localStorage (world s) !! CONFIG.STORAGE_KEYS.SESSION_ID = Some "old-id" /\
  localStorage (world s) !! CONFIG.STORAGE_KEYS.EXPIRATION = Some EmptyString /\
  parseInt EmptyString = NaN /\
  session (tracker (exec (initializeSession "fresh-id") s))
  = Some (Session.mk "fresh-id" (Num 1600000) 1000000).
Proof. vm_compute. repeat split. Qed.

(** ** The two writes of initialization *)

Section StoredPair.

Implicit Types (s : St).

Lemma next_throws_nth s : next_storage_call_throws s = nth_call_throws 0 s.
Proof.
  unfold next_storage_call_throws, nth_call_throws.
  now destruct (storageFaults (world s)) as [|[] ?].
Qed.

Lemma nth_call_answered (k : nat) s :
  nth_call_throws k (answered s) = nth_call_throws (S k) s.
Proof.
  unfold nth_call_throws. rewrite world_answered. cbn.
  destruct (storageFaults (world s)); [now destruct k | reflexivity].
Qed.

Lemma initializeLynq_localStorage eventType s :
  localStorage (world (initializeLynq eventType s)) = localStorage (world s).
Proof.
  unfold initializeLynq. cbn.
  apply (flush_queue_invariant
           (fun s' => localStorage (world s') = localStorage (world s))).
  - intros d s' <-. apply trackEvent_localStorage.
  - reflexivity.
Qed.

Lemma trackPageView_localStorage s :
  localStorage (world (trackPageView s)) = localStorage (world s).
Proof.
  unfold trackPageView. destruct (isDestroyed (tracker s)); [reflexivity|].
  cbn. apply trackEvent_localStorage.
Qed.

Lemma resume_session_localStorage (sid exp : string) s :
  localStorage (world (exec (resume_session sid exp) s)) = localStorage (world s).
Proof.
  unfold exec, resume_session, bind, gets, modify. cbn [snd].
  now rewrite initializeLynq_localStorage, trackPageView_localStorage.
Qed.

Lemma resume_session_normal (sid exp : string) s :
  fst (resume_session sid exp s) = Normal tt.
Proof. reflexivity. Qed.

(** [initializeSession] without the monad: the two reads, the choice of
    the branch, and the interval when the branch returns. *)
Lemma initializeSession_unfold (newSessionId : string) s :
  exec (initializeSession newSessionId) s
  = if nth_call_throws 0 s then answered s
    else if nth_call_throws 1 s then answered (answered s)
    else
      let stored := localStorage (world s) in
      let branch :=
        match stored !! CONFIG.STORAGE_KEYS.SESSION_ID,
              stored !! CONFIG.STORAGE_KEYS.EXPIRATION with
        | Some sid, Some exp =>
            if stored_session_stale s (Some sid) (Some exp)
            then start_new_session newSessionId
            else resume_session sid exp
        | _, _ => start_new_session newSessionId
        end in
      match branch (answered (answered s)) with
      | (Normal _, s3) => on_tracker (set_sessionInterval true) s3
      | (Throw, s3) => s3
      end.
Proof.
  unfold exec, initializeSession, try_catch, bind, gets, ret.
  rewrite getItem_eq, next_throws_nth.
  destruct (nth_call_throws 0 s); [reflexivity|].
  rewrite getItem_eq, next_throws_nth, nth_call_answered.
  destruct (nth_call_throws 1 s); [reflexivity|].
  rewrite localStorage_answered. cbn zeta. unfold modify, stored_session_stale.
  destruct (localStorage (world s) !! CONFIG.STORAGE_KEYS.SESSION_ID) as [sid|];
    destruct (localStorage (world s) !! CONFIG.STORAGE_KEYS.EXPIRATION) as [exp|].
  2-4: now destruct (start_new_session newSessionId _) as [[[]|] s3].
  rewrite (isSessionExpired_env s (answered (answered s)))
    by now rewrite !env_answered.
  destruct (negb (truthy (Some sid)) || negb (truthy (Some exp))
            || isSessionExpired s exp).
  - now destruct (start_new_session newSessionId _) as [[[]|] s3].
  - now destruct (resume_session sid exp _) as [[[]|] s3].
Qed.

(** The branch that makes a session, by the outcome of its two writes. *)
Lemma start_new_session_writes (newSessionId : string) s :
  let r := start_new_session newSessionId s in
  let newExpirationTime := now (env (world s)) + CONFIG.SESSION_DURATION in
  if nth_call_throws 0 s then
    fst r = Throw /\ localStorage (world (snd r)) = localStorage (world s)
  else if nth_call_throws 1 s then
    fst r = Throw /\
    localStorage (world (snd r))
    = <[CONFIG.STORAGE_KEYS.SESSION_ID := newSessionId]> (localStorage (world s)) /\
    tracker (snd r) = tracker s /\ beacons (world (snd r)) = beacons (world s)
  else
    fst r = Normal tt /\
    localStorage (world (snd r))
    = <[CONFIG.STORAGE_KEYS.EXPIRATION := toString newExpirationTime]>
        (<[CONFIG.STORAGE_KEYS.SESSION_ID := newSessionId]>
           (localStorage (world s))).
Proof.
  cbn zeta. unfold start_new_session, bind, gets, modify.
  rewrite setItem_eq, next_throws_nth.
  destruct (nth_call_throws 0 s); cbn [snd fst].
  { now rewrite localStorage_answered. }
  rewrite setItem_eq, next_throws_nth.
  change (nth_call_throws 0 (write_entry CONFIG.STORAGE_KEYS.SESSION_ID
                               newSessionId (answered s)))
    with (nth_call_throws 0 (answered s)).
  rewrite nth_call_answered.
  destruct (nth_call_throws 1 s); cbn [snd fst].
  - rewrite localStorage_answered, tracker_answered, beacons_answered.
    unfold write_entry. cbn.
    now rewrite localStorage_answered, tracker_answered, beacons_answered.
  - rewrite initializeLynq_localStorage, trackEvent_localStorage.
    unfold write_entry. cbn.
    rewrite localStorage_answered. cbn.
    now rewrite localStorage_answered.
Qed.

End StoredPair.

(** C9, as amended.  Initialization writes the sessionId entry and then the
    expirationTime entry, and undoes nothing.  Whatever the storage calls do,
    the store afterwards is: unchanged, when a read throws, when the stored
    session is taken up, or when the first write throws; the new sessionId
    next to the expiration entry as it was, when only the second write throws
    (then no session is set in memory and nothing is sent); both new entries
    otherwise. *)
Theorem initializeSession_stored_pair (s : St) (newSessionId : string) :
  let s' := exec (initializeSession newSessionId) s in
  let stored := localStorage (world s) in
  let newExpirationTime := now (env (world s)) + CONFIG.SESSION_DURATION in
  if nth_call_throws 0 s || nth_call_throws 1 s then
    localStorage (world s') = stored
  else if negb (stored_session_stale s
                  (stored !! CONFIG.STORAGE_KEYS.SESSION_ID)
                  (stored !! CONFIG.STORAGE_KEYS.EXPIRATION)) then
    localStorage (world s') = stored
  else if nth_call_throws 2 s then
    localStorage (world s') = stored
  else if nth_call_throws 3 s then
    localStorage (world s')
    = <[CONFIG.STORAGE_KEYS.SESSION_ID := newSessionId]> stored /\
    session (tracker s') = session (tracker s) /\
    beacons (world s') = beacons (world s)
  else
    localStorage (world s')
    = <[CONFIG.STORAGE_KEYS.EXPIRATION := toString newExpirationTime]>
        (<[CONFIG.STORAGE_KEYS.SESSION_ID := newSessionId]> stored).
Proof.
  cbn zeta. rewrite initializeSession_unfold.
  destruct (nth_call_throws 0 s) eqn:F0; cbn [orb].
  { apply localStorage_answered. }
  destruct (nth_call_throws 1 s) eqn:F1.
  { now rewrite !localStorage_answered. }
  cbn zeta.
  set (s2 := answered (answered s)).
  assert (He2 : env (world s2) = env (world s))
    by (unfold s2; now rewrite !env_answered).
  assert (Hl2 : localStorage (world s2) = localStorage (world s))
    by (unfold s2; now rewrite !localStorage_answered).
  assert (Hb2 : beacons (world s2) = beacons (world s))
    by (unfold s2; now rewrite !beacons_answered).
  assert (Ht2 : tracker s2 = tracker s)
    by (unfold s2; now rewrite !tracker_answered).
  assert (F2 : nth_call_throws 0 s2 = nth_call_throws 2 s)
    by (unfold s2; now rewrite !nth_call_answered).
  assert (F3 : nth_call_throws 1 s2 = nth_call_throws 3 s)
    by (unfold s2; now rewrite !nth_call_answered).
  clearbody s2.
  pose proof (start_new_session_writes newSessionId s2) as Hfresh.
  cbn zeta in Hfresh. rewrite F2, F3, He2, Hl2, Ht2, Hb2 in Hfresh.
  assert (Hstart :
    let s' := match start_new_session newSessionId s2 with
              | (Normal _, s3) => on_tracker (set_sessionInterval true) s3
              | (Throw, s3) => s3
              end in
    if nth_call_throws 2 s then
      localStorage (world s') = localStorage (world s)
    else if nth_call_throws 3 s then
      localStorage (world s')
      = <[CONFIG.STORAGE_KEYS.SESSION_ID := newSessionId]> (localStorage (world s)) /\
      session (tracker s') = session (tracker s) /\
      beacons (world s') = beacons (world s)
    else
      localStorage (world s')
      = <[CONFIG.STORAGE_KEYS.EXPIRATION :=
            toString (now (env (world s)) + CONFIG.SESSION_DURATION)]>
          (<[CONFIG.STORAGE_KEYS.SESSION_ID := newSessionId]>
             (localStorage (world s)))).
  { cbn zeta.
    destruct (start_new_session newSessionId s2) as [[[]|] s3]; cbn [snd fst] in *;
      destruct (nth_call_throws 2 s); try (destruct Hfresh as [Hfst Hl]);
      try discriminate; try exact Hl;
      destruct (nth_call_throws 3 s); try (destruct Hfresh as [Hfst Hl]);
      try discriminate; try exact Hl.
    destruct Hl as (Hl & Ht & Hb). rewrite Hl, Ht, Hb. now repeat split. }
  cbn zeta in Hstart.
  destruct (localStorage (world s) !! CONFIG.STORAGE_KEYS.SESSION_ID) as [sid|] eqn:Esid;
    destruct (localStorage (world s) !! CONFIG.STORAGE_KEYS.EXPIRATION) as [exp|] eqn:Eexp;
    try exact Hstart.
  destruct (stored_session_stale s (Some sid) (Some exp)); cbn [negb];
    [exact Hstart|].
  pose proof (resume_session_localStorage sid exp s2) as Hres.
  pose proof (resume_session_normal sid exp s2) as Hnorm.
  unfold exec in Hres.
  destruct (resume_session sid exp s2) as [[[]|] s3]; cbn [snd fst] in *;
    [|discriminate Hnorm].
  change (localStorage (world s3) = localStorage (world s)).
  now rewrite Hres.
Qed.

(** C9 as stated fails when the second write throws: the store then holds
    the new session id next to the expiration that was stored with the old
    one. *)
Lemma initializeSession_torn_pair_counterexample :
  let s := sample_state (stored_session "old-id" "999999")
             [false; false; false; true] in
  let s' := exec (initializeSession "fresh-id") s in
  localStorage (world s') !! CONFIG.STORAGE_KEYS.SESSION_ID = Some "fresh-id" /\
  localStorage (world s') !! CONFIG.STORAGE_KEYS.EXPIRATION = Some "999999" /\
  toString (now (env (world s)) + CONFIG.SESSION_DURATION) = "1600000" /\
  session (tracker s') = None.
Proof. vm_compute. repeat split. Qed.

(** ** Invariants of initialization and construction *)

Section InitializationInvariants.

Variables P Q : St -> Prop.

Hypothesis P_answered : forall s, P s -> P (answered s).
Hypothesis P_write : forall key value s, P s -> P (write_entry key value s).
Hypothesis P_Q : forall s, P s -> Q s.
Hypothesis Q_session : forall v s, P s -> Q (on_tracker (set_session v) s).
Hypothesis Q_trackEvent :
  forall name d s, carries_metrics d = false -> Q s -> Q (trackEvent name d s).
Hypothesis Q_trackPageView : forall s, Q s -> Q (trackPageView s).
Hypothesis Q_lynq : forall s, Q s -> Q (on_world (set_lynq None true) s).
Hypothesis Q_interval :
  forall s, Q s -> Q (on_tracker (set_sessionInterval true) s).

Lemma initializeLynq_invariant (eventType : string) (s : St) :
  Q s -> Q (initializeLynq eventType s).
Proof.
  intros H. unfold initializeLynq. apply Q_lynq.
  apply (flush_queue_invariant Q); [|exact H].
  intros d s' Hs'. now apply Q_trackEvent.
Qed.

Lemma start_new_session_invariant (newSessionId : string) (s : St) :
  P s -> Q (snd (start_new_session newSessionId s)).
Proof.
  intros H. unfold start_new_session, bind, gets, modify.
  rewrite setItem_eq.
  destruct (next_storage_call_throws s); cbn [snd].
  { now apply P_Q, P_answered. }
  rewrite setItem_eq.
  destruct (next_storage_call_throws _); cbn [snd].
  { now apply P_Q, P_answered, P_write, P_answered. }
  apply initializeLynq_invariant, Q_trackEvent; [reflexivity|].
  now apply Q_session, P_write, P_answered, P_write, P_answered.
Qed.

Lemma resume_session_invariant (sid exp : string) (s : St) :
  P s -> Q (snd (resume_session sid exp s)).
Proof.
  intros H. unfold resume_session, bind, gets, modify. cbn [snd].
  now apply initializeLynq_invariant, Q_trackPageView, Q_session.
Qed.

Lemma initializeSession_invariant (newSessionId : string) (s : St) :
  P s -> Q (exec (initializeSession newSessionId) s).
Proof.
  intros H. rewrite initializeSession_unfold.
  destruct (nth_call_throws 0 s); [now apply P_Q, P_answered|].
  destruct (nth_call_throws 1 s); [now apply P_Q, P_answered, P_answered|].
  cbn zeta.
  assert (H2 : P (answered (answered s))) by now apply P_answered, P_answered.
  assert (Hnew : Q (match start_new_session newSessionId (answered (answered s)) with
                    | (Normal _, s3) => on_tracker (set_sessionInterval true) s3
                    | (Throw, s3) => s3
                    end)).
  { pose proof (start_new_session_invariant newSessionId _ H2) as Hs.
    destruct (start_new_session newSessionId _) as [[[]|] s3]; cbn [snd] in Hs;
      [now apply Q_interval | exact Hs]. }
  destruct (localStorage (world s) !! CONFIG.STORAGE_KEYS.SESSION_ID) as [sid|];
    destruct (localStorage (world s) !! CONFIG.STORAGE_KEYS.EXPIRATION) as [exp|];
    try exact Hnew.
  destruct (stored_session_stale s (Some sid) (Some exp)); [exact Hnew|].
  pose proof (resume_session_invariant sid exp _ H2) as Hs.
  destruct (resume_session sid exp _) as [[[]|] s3]; cbn [snd] in Hs;
    [now apply Q_interval | exact Hs].
Qed.

Lemma getOrCreateClientId_invariant (uuid : option string) (fallback : string)
  (s : St) :
  P s -> P (snd (getOrCreateClientId uuid fallback s)).
Proof.
  intros H. unfold getOrCreateClientId, try_catch, bind, ret.
  rewrite getItem_eq.
  destruct (next_storage_call_throws s); cbn [snd]; [now apply P_answered|].
  destruct (negb (truthy (localStorage (world s) !! CONFIG.STORAGE_KEYS.CLIENT_ID)));
    [|now apply P_answered].
  destruct uuid as [uuid|]; [|now apply P_answered].
  rewrite setItem_eq.
  destruct (next_storage_call_throws _); cbn [snd].
  - now apply P_answered, P_answered.
  - now apply P_write, P_answered, P_answered.
Qed.

Hypothesis P_clientId : forall v s, P s -> P (on_tracker (set_clientId v) s).
Hypothesis Q_listeners :
  forall v s,
    Q s ->
    Q (on_tracker (fun t => set_mutationObserver true (set_pageLoadId v t)) s).

Lemma construct_invariant (pg : Page) (r : Fresh) :
  P (initial_state pg) -> Q (construct pg r).
Proof.
  intros H0. unfold construct.
  pose proof (getOrCreateClientId_invariant (fresh_clientId r)
                (fresh_clientId_fallback r) _ H0) as H1.
  destruct (getOrCreateClientId _ _ _) as [id s1]. cbn [snd] in H1.
  destruct (fresh_pageLoadId r);
    [apply Q_listeners|]; now apply initializeSession_invariant, P_clientId.
Qed.

End InitializationInvariants.

(** ** Page lifetimes: what every step keeps *)

Section Steps.

Implicit Types (s : St) (i : Input).

Lemma run_app s (l1 l2 : list Input) : run s (l1 ++ l2) = run (run s l1) l2.
Proof. apply fold_left_app. Qed.

Lemma fold_left_invariant {A B : Type} (I : A -> Prop) (f : A -> B -> A)
  (l : list B) :
  (forall a b, I a -> I (f a b)) -> forall a, I a -> I (fold_left f l a).
Proof.
  intros Hf. induction l as [|b l IH]; intros a Ha; cbn [fold_left];
    [exact Ha | now apply IH, Hf].
Qed.

Lemma observeCLS_callback_flag entries (p : Perf) :
  finalMetricsSent (observeCLS_callback entries p) = finalMetricsSent p.
Proof.
  unfold observeCLS_callback.
  apply (fold_left_invariant
           (fun p' => finalMetricsSent p' = finalMetricsSent p)); [|reflexivity].
  intros p' e <-. now destruct (negb (LayoutShift.hadRecentInput e)).
Qed.

Lemma observeINP_callback_flag durations (p : Perf) :
  finalMetricsSent (observeINP_callback durations p) = finalMetricsSent p.
Proof.
  unfold observeINP_callback. cbn.
  now destruct (length (interactionTimes p ++ durations)).
Qed.

Lemma observeLongTasks_callback_flag durations (p : Perf) :
  finalMetricsSent (observeLongTasks_callback durations p) = finalMetricsSent p.
Proof.
  unfold observeLongTasks_callback.
  apply (fold_left_invariant
           (fun p' => finalMetricsSent p' = finalMetricsSent p)); [|reflexivity].
  intros p' d <-. now destruct (Qltb 0 (d - 50)).
Qed.

(** What a refresh leaves alone. *)
Lemma refreshSession_effect s :
  let s' := exec refreshSession s in
  beacons (world s') = beacons (world s) /\
  timeouts (world s') = timeouts (world s) /\
  perf s' = perf s /\
  isDestroyed (tracker s') = isDestroyed (tracker s) /\
  (session (tracker s') = session (tracker s) \/
   exists ses v, session (tracker s) = Some ses /\
     session (tracker s') = Some (Session.set_expirationTime v ses)).
Proof.
  cbn zeta. unfold exec, refreshSession, bind, gets, try_catch.
  destruct (visibilityState (env (world s))), (isDestroyed (tracker s)) eqn:Hd;
    try (cbn; rewrite ?Hd; repeat split; now left).
  rewrite setItem_eq.
  destruct (next_storage_call_throws s).
  - cbn. rewrite world_answered, tracker_answered, perf_answered, Hd.
    repeat split; now left.
  - cbn. rewrite tracker_answered.
    destruct (session (tracker s)) as [ses|] eqn:E; unfold write_entry; cbn;
      rewrite ?world_answered, ?tracker_answered, ?perf_answered, ?Hd, ?E;
      repeat split; try now left.
    right. now exists ses, (Num (now (env (world s)) + CONFIG.SESSION_DURATION)).
Qed.

Lemma refreshSession_harmless s :
  timers_harmless s -> timers_harmless (exec refreshSession s).
Proof.
  destruct (refreshSession_effect s) as (_ & Ht & _ & _ & Hs).
  cbn zeta in *. unfold timers_harmless. rewrite Ht.
  intros [H | H]; [left | now right].
  unfold ready_session in *.
  destruct Hs as [-> | (ses & v & E & ->)]; [exact H|].
  rewrite E in H. cbn [Session.set_expirationTime Session.sessionId].
  now destruct (truthy (Some (Session.sessionId ses))).
Qed.

Lemma sendFinalMetrics_sent s :
  finalMetricsSent (perf s) = true -> sendFinalMetrics s = s.
Proof. unfold sendFinalMetrics. now intros ->. Qed.

Lemma sendFinalMetrics_flag s :
  finalMetricsSent (perf (sendFinalMetrics s)) = true.
Proof.
  unfold sendFinalMetrics.
  destruct (finalMetricsSent (perf s)) eqn:E; cbn [negb]; [exact E|].
  cbn zeta. now rewrite trackEvent_perf.
Qed.

Lemma sendFinalMetrics_tracker s : tracker (sendFinalMetrics s) = tracker s.
Proof.
  unfold sendFinalMetrics.
  destruct (finalMetricsSent (perf s)); cbn [negb]; [reflexivity|].
  cbn zeta. now rewrite trackEvent_tracker.
Qed.

Lemma sendFinalMetrics_harmless s :
  timers_harmless s -> timers_harmless (sendFinalMetrics s).
Proof.
  intros H. unfold sendFinalMetrics.
  destruct (finalMetricsSent (perf s)); cbn [negb]; [exact H|].
  cbn zeta. apply trackEvent_harmless.
  now apply (timers_harmless_frame s).
Qed.

Lemma sendFinalMetrics_count s :
  (count_final (beacons (world (sendFinalMetrics s)))
   <= count_final (beacons (world s))
      + (if finalMetricsSent (perf s) then 0 else 1))%nat.
Proof.
  unfold sendFinalMetrics.
  destruct (finalMetricsSent (perf s)); cbn [negb]; [lia|].
  cbn zeta.
  exact (trackEvent_count_final _ _
           (collectPerformanceMetrics (on_perf (set_finalMetricsSent true) s))).
Qed.

Lemma sendFinalMetrics_destroyed s :
  isDestroyed (tracker s) = true ->
  beacons (world (sendFinalMetrics s)) = beacons (world s).
Proof.
  intros Hd. unfold sendFinalMetrics.
  destruct (finalMetricsSent (perf s)); cbn [negb]; [reflexivity|].
  cbn zeta. now rewrite trackEvent_destroyed.
Qed.

Lemma destroy_sends_nothing s :
  beacons (world (destroy s)) = beacons (world s) /\
  isDestroyed (tracker (destroy s)) = true /\
  finalMetricsSent (perf (destroy s)) = true.
Proof.
  unfold destroy, PerformanceTracker_destroy. cbn zeta.
  rewrite sendFinalMetrics_destroyed, sendFinalMetrics_tracker,
    sendFinalMetrics_flag by reflexivity.
  now repeat split.
Qed.

Lemma destroy_harmless s : timers_harmless s -> timers_harmless (destroy s).
Proof.
  intros H. unfold destroy, PerformanceTracker_destroy. cbn zeta.
  apply sendFinalMetrics_harmless. now apply (timers_harmless_frame s).
Qed.

Lemma session_end_listener_harmless s :
  timers_harmless s -> timers_harmless (session_end_listener s).
Proof.
  intros H. unfold session_end_listener.
  destruct (session (tracker s)); [now apply trackEvent_harmless | exact H].
Qed.

Lemma mutation_callback_harmless s :
  timers_harmless s -> timers_harmless (mutation_callback s).
Proof.
  intros H. unfold mutation_callback.
  destruct (_ && _); [now apply trackPageView_harmless | exact H].
Qed.

Lemma step_harmless s i : timers_harmless s -> timers_harmless (step s i).
Proof.
  intros H. destruct i; cbn [step].
  - now apply (timers_harmless_frame s).
  - now apply (timers_harmless_frame s).
  - now apply (timers_harmless_frame s).
  - destruct (tracking (perf s)); [now apply (timers_harmless_frame s) | exact H].
  - destruct (_ && _); [now apply (timers_harmless_frame s) | exact H].
  - destruct (tracking (perf s)); [now apply (timers_harmless_frame s) | exact H].
  - destruct (tracking (perf s)); [now apply (timers_harmless_frame s) | exact H].
  - destruct (tracking (perf s)); [now apply (timers_harmless_frame s) | exact H].
  - destruct (_ && _); [now apply (timers_harmless_frame s) | exact H].
  - destruct (tracking (perf s)); [now apply (timers_harmless_frame s) | exact H].
  - destruct (tracking (perf s)); [|exact H].
    destruct (visibilityState (env (world s)));
      [exact H | now apply sendFinalMetrics_harmless].
  - apply session_end_listener_harmless.
    destruct (tracking (perf s)); [now apply sendFinalMetrics_harmless | exact H].
  - destruct (sessionInterval (tracker s));
      [now apply refreshSession_harmless | exact H].
  - destruct (timeouts (world s)) as [|[name d] rest] eqn:E; [exact H|].
    rewrite (trackEvent_resume_harmless name d rest s H E).
    destruct H as [H | H]; [|congruence]. now left.
  - exact H.
  - destruct (mutationObserver (tracker s));
      [now apply mutation_callback_harmless | exact H].
  - destruct (lynq (world s)); [destruct eventId|];
      [now apply trackEvent_harmless | exact H ..].
  - now apply trackEvent_harmless.
  - now apply destroy_harmless.
Qed.

Lemma run_harmless (inputs : list Input) s :
  timers_harmless s -> timers_harmless (run s inputs).
Proof.
  intros H. unfold run.
  apply (fold_left_invariant timers_harmless); [|exact H].
  intros s' i. apply step_harmless.
Qed.

Lemma construct_harmless (pg : Page) (r : Fresh) :
  timers_harmless (construct pg r).
Proof.
  apply (construct_invariant
           (fun s => timeouts (world s) = []) timers_harmless).
  - intros s H. now rewrite timeouts_answered.
  - intros key value s H. exact H.
  - intros s H. now right.
  - intros v s H. now right.
  - intros name d s _. apply trackEvent_harmless.
  - apply trackPageView_harmless.
  - intros s H. now apply (timers_harmless_frame s).
  - intros s H. now apply (timers_harmless_frame s).
  - intros v s H. exact H.
  - intros v s H. now apply (timers_harmless_frame s).
  - reflexivity.
Qed.

End Steps.

(** ** After destruction *)

Section Destroyed.

Implicit Types (s : St) (i : Input).

Lemma session_end_listener_destroyed s :
  isDestroyed (tracker s) = true -> session_end_listener s = s.
Proof.
  intros Hd. unfold session_end_listener.
  destruct (session (tracker s)); [now apply trackEvent_destroyed | reflexivity].
Qed.

Lemma step_after_destroy s i :
  isDestroyed (tracker s) = true -> timers_harmless s ->
  beacons (world (step s i)) = beacons (world s) /\
  isDestroyed (tracker (step s i)) = true.
Proof.
  intros Hd Hh. destruct i; cbn [step].
  - now split.
  - now split.
  - now split.
  - now destruct (tracking (perf s)).
  - now destruct (_ && _).
  - now destruct (tracking (perf s)).
  - now destruct (tracking (perf s)).
  - now destruct (tracking (perf s)).
  - now destruct (_ && _).
  - now destruct (tracking (perf s)).
  - destruct (tracking (perf s)); [|now split].
    destruct (visibilityState (env (world s))); [now split|].
    now rewrite sendFinalMetrics_destroyed, sendFinalMetrics_tracker.
  - rewrite session_end_listener_destroyed.
    + destruct (tracking (perf s)); [|now split].
      now rewrite sendFinalMetrics_destroyed, sendFinalMetrics_tracker.
    + destruct (tracking (perf s)); [|exact Hd].
      now rewrite sendFinalMetrics_tracker.
  - destruct (sessionInterval (tracker s)); [|now split].
    destruct (refreshSession_effect s) as (Hb & _ & _ & Hdes & _).
    cbn zeta in *. now rewrite Hb, Hdes.
  - destruct (timeouts (world s)) as [|[name d] rest] eqn:E; [now split|].
    now rewrite (trackEvent_resume_harmless name d rest s Hh E).
  - now split.
  - destruct (mutationObserver (tracker s)); [|now split].
    unfold mutation_callback. rewrite Hd. now split.
  - destruct (lynq (world s)); [destruct eventId|]; try (now split).
    now rewrite trackEvent_destroyed.
  - now rewrite trackEvent_destroyed.
  - destruct (destroy_sends_nothing s) as (Hb & Hdes & _). now split.
Qed.

Lemma run_after_destroy (inputs : list Input) : forall s,
  isDestroyed (tracker s) = true -> timers_harmless s ->
  beacons (world (run s inputs)) = beacons (world s).
Proof.
  induction inputs as [|i inputs IH]; intros s Hd Hh; [reflexivity|].
  change (run s (i :: inputs)) with (run (step s i) inputs).
  destruct (step_after_destroy s i Hd Hh) as [Hb Hd'].
  rewrite IH; [exact Hb | exact Hd' | now apply step_harmless].
Qed.

End Destroyed.

(** C5.  In every page lifetime, whatever is delivered after [destroy()]
    (performance entries, timers, visibility and unload events, navigation,
    calls of [lynq.track] and [your_tracking], further [destroy()] calls),
    nothing more is sent: the beacons are those sent up to and including the
    destruction. *)
Theorem no_dispatch_after_destroy
  (pg : Page) (r : Fresh) (before after : list Input) :
  beacons (world (run (construct pg r) (before ++ Destroy :: after)))
  = beacons (world (run (construct pg r) (before ++ [Destroy]))).
Proof.
  rewrite !run_app.
  set (s := run (construct pg r) before).
  assert (Hh : timers_harmless s) by apply run_harmless, construct_harmless.
  change (run s (Destroy :: after)) with (run (destroy s) after).
  change (run s [Destroy]) with (destroy s).
  destruct (destroy_sends_nothing s) as (_ & Hd & _).
  apply run_after_destroy; [exact Hd | now apply destroy_harmless].
Qed.

(** ** The final metrics *)

Section FinalMetrics.

Implicit Types (s : St) (i : Input).

Lemma step_final_budget s i :
  timers_harmless s ->
  (count_final (beacons (world s)) <= final_budget s)%nat ->
  (count_final (beacons (world (step s i))) <= final_budget (step s i))%nat.
Proof.
  unfold final_budget. intros Hh Hc. destruct i; cbn [step].
  - exact Hc.
  - exact Hc.
  - exact Hc.
  - now destruct (tracking (perf s)).
  - now destruct (_ && _).
  - destruct (tracking (perf s)); [|exact Hc].
    cbn [perf on_perf world]. now rewrite observeCLS_callback_flag.
  - destruct (tracking (perf s)); [|exact Hc].
    cbn [perf on_perf world]. now rewrite observeINP_callback_flag.
  - destruct (tracking (perf s)); [|exact Hc].
    cbn [perf on_perf world]. now rewrite observeLongTasks_callback_flag.
  - now destruct (_ && _).
  - now destruct (tracking (perf s)).
  - destruct (tracking (perf s)); [|exact Hc].
    destruct (visibilityState (env (world s))); [exact Hc|].
    rewrite sendFinalMetrics_flag.
    pose proof (sendFinalMetrics_count s).
    destruct (finalMetricsSent (perf s)); lia.
  - unfold session_end_listener.
    set (x := if tracking (perf s) then sendFinalMetrics s else s).
    assert (Hx : (count_final (beacons (world x))
                  <= if finalMetricsSent (perf x) then 1 else 0)%nat).
    { unfold x. destruct (tracking (perf s)); [|exact Hc].
      rewrite sendFinalMetrics_flag.
      pose proof (sendFinalMetrics_count s).
      destruct (finalMetricsSent (perf s)); lia. }
    destruct (session (tracker x)); [|exact Hx].
    now rewrite trackEvent_count_final_other, trackEvent_perf.
  - destruct (sessionInterval (tracker s)); [|exact Hc].
    destruct (refreshSession_effect s) as (Hb & _ & Hp & _).
    cbn zeta in *. now rewrite Hb, Hp.
  - destruct (timeouts (world s)) as [|[name d] rest] eqn:E; [exact Hc|].
    now rewrite (trackEvent_resume_harmless name d rest s Hh E).
  - exact Hc.
  - destruct (mutationObserver (tracker s)); [|exact Hc].
    unfold mutation_callback. destruct (_ && _); [|exact Hc].
    rewrite trackPageView_count_final.
    now destruct (trackPageView_tracker_session s) as (_ & _ & ->).
  - destruct (lynq (world s)); [destruct eventId|]; try exact Hc.
    now rewrite trackEvent_count_final_other, trackEvent_perf.
  - rewrite trackEvent_count_final_other, trackEvent_perf;
      [exact Hc | now destruct eventData].
  - destruct (destroy_sends_nothing s) as (Hb & _ & Hf).
    rewrite Hb, Hf. destruct (finalMetricsSent (perf s)); lia.
Qed.

Lemma construct_no_final (pg : Page) (r : Fresh) :
  count_final (beacons (world (construct pg r))) = 0%nat /\
  finalMetricsSent (perf (construct pg r)) = false.
Proof.
  set (I := fun s => count_final (beacons (world s)) = 0%nat /\
                     finalMetricsSent (perf s) = false).
  apply (construct_invariant I I); unfold I.
  - intros s H. now rewrite beacons_answered, perf_answered.
  - intros key value s H. exact H.
  - intros s H. exact H.
  - intros v s H. exact H.
  - intros name d s Hd H. now rewrite trackEvent_count_final_other, trackEvent_perf.
  - intros s H. rewrite trackPageView_count_final.
    now destruct (trackPageView_tracker_session s) as (_ & _ & ->).
  - intros s H. exact H.
  - intros s H. exact H.
  - intros v s H. exact H.
  - intros v s H. exact H.
  - now split.
Qed.

Lemma run_final_budget (inputs : list Input) : forall s,
  timers_harmless s ->
  (count_final (beacons (world s)) <= final_budget s)%nat ->
  (count_final (beacons (world (run s inputs))) <= final_budget (run s inputs))%nat.
Proof.
  induction inputs as [|i inputs IH]; intros s Hh Hc; [exact Hc|].
  change (run s (i :: inputs)) with (run (step s i) inputs).
  apply IH; [now apply step_harmless | now apply step_final_budget].
Qed.

End FinalMetrics.

(** C3.  In every page lifetime at most one payload carrying the final
    metrics is sent, whatever is delivered and in whatever order; and a
    trigger that comes after another one changes nothing: it finds the
    already-sent flag set. *)
Theorem final_metrics_sent_at_most_once
  (pg : Page) (r : Fresh) (inputs : list Input) (s : St) :
  (count_final (beacons (world (run (construct pg r) inputs))) <= 1)%nat /\
  finalMetricsSent (perf (sendFinalMetrics s)) = true /\
  sendFinalMetrics (sendFinalMetrics s) = sendFinalMetrics s.
Proof.
  split; [|split].
  - destruct (construct_no_final pg r) as [Hc Hf].
    pose proof (run_final_budget inputs (construct pg r)
                  (construct_harmless pg r)) as H.
    unfold final_budget in H. rewrite Hc in H.
    specialize (H ltac:(lia)).
    destruct (finalMetricsSent _) in H; lia.
  - apply sendFinalMetrics_flag.
  - apply sendFinalMetrics_sent, sendFinalMetrics_flag.
Qed.

(** ** Destruction and the final metrics *)

(** C6 (not met by the code).  On a tracker with a
    session, whose final metrics have not been sent, [destroy()] sets the
    already-sent flag and sends nothing: [isDestroyed] is set first, so the
    [trackEvent] call made by [sendFinalMetrics] returns at once.  The
    web-vitals event is then never sent, also not by a later unload.  The
    same tracker, hidden instead of destroyed, does send it. *)
Theorem destroy_drops_final_metrics :
  let s := construct sample_page sample_fresh in
  finalMetricsSent (perf s) = false /\
  ready_session s = Some (Session.mk "old-id" (Num 1000001) 1000000) /\
  finalMetricsSent (perf (step s Destroy)) = true /\
  beacons (world (step s Destroy)) = beacons (world s) /\
  count_final (beacons (world (run s [Destroy; BeforeUnload]))) = 0%nat /\
  count_final (beacons (world (run s [Environment hidden_env; VisibilityChange])))
  = 1%nat.
Proof. vm_compute. repeat split. Qed.

(** ** The referrer of a payload *)

Section Referrer.

(** What the code computes: a prefix test on the two strings. *)
Lemma payload_referrer_eq (document_referrer location_origin : string) :
  payload_referrer document_referrer location_origin
  = if String.prefix location_origin document_referrer
       || negb (truthy (Some document_referrer))
    then "Direct" else document_referrer.
Proof.
  unfold payload_referrer.
  destruct (String.prefix location_origin document_referrer); [reflexivity|].
  now destruct document_referrer.
Qed.

End Referrer.

(** C8 (not met by the code).  A referrer on another
    origin whose text begins with the page's origin is reported as "Direct":
    the code tests [startsWith], not equality of origins. *)
Theorem referrer_prefix_is_not_same_origin :
  let page_origin := "https://example.com" in
  let document_referrer := "https://example.com.evil.org/landing" in
  url_origin document_referrer = "https://example.com.evil.org" /\
  url_origin document_referrer <> page_origin /\
  document_referrer <> EmptyString /\
  payload_referrer document_referrer page_origin = "Direct" /\
  url_origin "https://example.com/pricing" = page_origin /\
  payload_referrer "https://example.com/pricing" page_origin = "Direct" /\
  payload_referrer "https://news.example.org/story" page_origin
  = "https://news.example.org/story" /\
  payload_referrer EmptyString page_origin = "Direct".
Proof. vm_compute. repeat split; discriminate. Qed.

(** * Further properties of the metric callbacks *)

Section LargestContentfulPaint.

Lemma observeLCP_callback_lcp (entries : list Q) : forall (m : Metrics),
  (lcp m <= lcp (observeLCP_callback entries m))%Q /\
  (forall x, In x entries -> (x <= lcp (observeLCP_callback entries m))%Q) /\
  (lcp (observeLCP_callback entries m) = lcp m \/
   In (lcp (observeLCP_callback entries m)) entries).
Proof.
  induction entries as [|x entries IH]; intros m.
  - cbn. split; [apply Qle_refl|]. split; [tauto | now left].
  - change (observeLCP_callback (x :: entries) m)
      with (observeLCP_callback entries
              (if Qltb (lcp m) x then set_lcp x m else m)).
    destruct (Qltb (lcp m) x) eqn:E.
    + apply Qltb_true in E.
      destruct (IH (set_lcp x m)) as (Hge & Hall & Hin). cbn [lcp set_lcp] in *.
      split; [|split].
      * eapply Qle_trans; [apply Qlt_le_weak, E | exact Hge].
      * intros y [<- | Hy]; [exact Hge | now apply Hall].
      * destruct Hin as [-> | Hin]; right; [now left | now right].
    + apply Qltb_false in E.
      destruct (IH m) as (Hge & Hall & Hin).
      split; [exact Hge|]. split.
      * intros y [<- | Hy]; [|now apply Hall].
        eapply Qle_trans; [exact E | exact Hge].
      * destruct Hin as [-> | Hin]; [now left | right; now right].
Qed.

Lemma observeLCP_callback_others (entries : list Q) : forall (m : Metrics),
  set_lcp (lcp m) (observeLCP_callback entries m) = set_lcp (lcp m) m.
Proof.
  induction entries as [|x entries IH]; intros m; [reflexivity|].
  change (observeLCP_callback (x :: entries) m)
    with (observeLCP_callback entries
            (if Qltb (lcp m) x then set_lcp x m else m)).
  destruct (Qltb (lcp m) x); [|apply IH].
  specialize (IH (set_lcp x m)). cbn [lcp set_lcp] in IH.
  apply (f_equal (set_lcp (lcp m))) in IH. exact IH.
Qed.

End LargestContentfulPaint.

(** X1.  After a batch of largest-contentful-paint entries the LCP is not
    below its value before, not below the startTime of any entry of the
    batch, and is either the value before or the startTime of one of the
    entries; no other metric changes. *)
Theorem LCP_is_largest_startTime (entries : list Q) (m : Metrics) :
  (lcp m <= lcp (observeLCP_callback entries m))%Q /\
  (forall x, In x entries -> (x <= lcp (observeLCP_callback entries m))%Q) /\
  (lcp (observeLCP_callback entries m) = lcp m \/
   In (lcp (observeLCP_callback entries m)) entries) /\
  set_lcp (lcp m) (observeLCP_callback entries m) = set_lcp (lcp m) m.
Proof.
  destruct (observeLCP_callback_lcp entries m) as (H1 & H2 & H3).
  repeat split; try assumption. apply observeLCP_callback_others.
Qed.

Section TotalBlockingTime.

Lemma blocking_excess_nonneg (d : Q) : (0 <= blocking_excess d)%Q.
Proof.
  unfold blocking_excess. destruct (Qltb 0 (d - 50)) eqn:E.
  - apply Qltb_true in E. now apply Qlt_le_weak.
  - apply Qle_refl.
Qed.

Lemma Qsum_excess_nonneg (durations : list Q) :
  (0 <= Qsum (map blocking_excess durations))%Q.
Proof.
  induction durations as [|d durations IH]; [apply Qle_refl|].
  change (0 <= blocking_excess d + Qsum (map blocking_excess durations))%Q.
  pose proof (blocking_excess_nonneg d). lra.
Qed.

Lemma observeLongTasks_callback_total (durations : list Q) : forall (p : Perf),
  tbt (metrics p) = totalBlockingTime p ->
  tbt (metrics (observeLongTasks_callback durations p))
  = totalBlockingTime (observeLongTasks_callback durations p) /\
  (totalBlockingTime (observeLongTasks_callback durations p)
   == totalBlockingTime p + Qsum (map blocking_excess durations))%Q.
Proof.
  induction durations as [|d durations IH]; intros p Hp.
  - split; [exact Hp|]. change (totalBlockingTime p == totalBlockingTime p + 0)%Q.
    lra.
  - change (observeLongTasks_callback (d :: durations) p)
      with (observeLongTasks_callback durations
              (if Qltb 0 (d - 50)
               then set_metrics
                      (set_tbt (totalBlockingTime p + (d - 50)) (metrics p))
                      (set_totalBlockingTime (totalBlockingTime p + (d - 50)) p)
               else p)).
    change (Qsum (map blocking_excess (d :: durations)))
      with (blocking_excess d + Qsum (map blocking_excess durations))%Q.
    assert (Hd : blocking_excess d
                 = if Qltb 0 (d - 50) then (d - 50)%Q else 0%Q) by reflexivity.
    destruct (Qltb 0 (d - 50)).
    + match goal with |- context [observeLongTasks_callback durations ?q] =>
        destruct (IH q) as [H1 H2]; [reflexivity|] end.
      split; [exact H1|]. rewrite H2, Hd.
      cbn [totalBlockingTime set_metrics set_totalBlockingTime]. lra.
    + destruct (IH p Hp) as [H1 H2]. split; [exact H1|]. rewrite H2, Hd. lra.
Qed.

End TotalBlockingTime.

(** X2.  Starting from a tracker whose TBT metric equals the running total
    (as it does when the tracker is new), after a batch of long tasks the
    TBT metric still equals the running total, the total has grown by the
    sum over the batch of the part of each duration beyond 50 ms (nothing for
    a task of 50 ms or less), and it has not decreased. *)
Theorem TBT_accumulates_excess (durations : list Q) (p : Perf) :
  tbt (metrics p) = totalBlockingTime p ->
  tbt (metrics (observeLongTasks_callback durations p))
  = totalBlockingTime (observeLongTasks_callback durations p) /\
  (tbt (metrics (observeLongTasks_callback durations p))
   == tbt (metrics p) + Qsum (map blocking_excess durations))%Q /\
  (tbt (metrics p) <= tbt (metrics (observeLongTasks_callback durations p)))%Q.
Proof.
  intros Hp. destruct (observeLongTasks_callback_total durations p Hp) as [H1 H2].
  split; [exact H1|]. rewrite H1, Hp. split; [exact H2|].
  rewrite H2. pose proof (Qsum_excess_nonneg durations). lra.
Qed.

(** Long tasks of 80 ms and 30 ms give a TBT of 30 ms. *)
Lemma TBT_example :
  (tbt (metrics (observeLongTasks_callback [80; 30]%Q (new_PerformanceTracker true)))
   == 30)%Q.
Proof.
  destruct (TBT_accumulates_excess [80; 30]%Q (new_PerformanceTracker true)
              eq_refl) as (_ & H & _).
  rewrite H. vm_compute. reflexivity.
Defined.

Section LayoutShiftFlags.

Lemma Math_max_mono_r (a b c : Q) :
  (b <= c)%Q -> (Math_max a b <= Math_max a c)%Q.
Proof.
  intros Hbc. unfold Math_max.
  destruct (Qle_bool a b) eqn:E1, (Qle_bool a c) eqn:E2;
    try apply Qle_bool_iff in E1; try apply Qle_bool_iff in E2;
    try exact Hbc; try apply Qle_refl.
  - exfalso. assert (H : Qle_bool a c = true) by (apply Qle_bool_iff; lra).
    congruence.
  - exact E2.
Qed.

Lemma session_sum_snoc (session : list LayoutShift.t) (e : LayoutShift.t) :
  session_sum (session ++ [e]) = (session_sum session + LayoutShift.value e)%Q.
Proof. unfold session_sum. now rewrite fold_left_app. Qed.

Lemma gap_body_result (st : GapLoop.t) (e : LayoutShift.t) :
  (0 <= LayoutShift.value e)%Q ->
  (gap_result st <= gap_result (gap_body st e))%Q.
Proof.
  intros Hv. unfold gap_body, gap_result.
  destruct ((length (GapLoop.session st) =? 0)%nat
            || Qltb (LayoutShift.startTime e - GapLoop.sessionStart st) 1000);
    cbn [GapLoop.maxSessionValue GapLoop.session].
  - rewrite session_sum_snoc. apply Math_max_mono_r. lra.
  - apply Math_max_le_l.
Qed.

Lemma calculateMaxSessionGap_snoc (entries : list LayoutShift.t)
  (e : LayoutShift.t) :
  (0 <= LayoutShift.value e)%Q ->
  (calculateMaxSessionGap entries <= calculateMaxSessionGap (entries ++ [e]))%Q.
Proof.
  intros Hv. unfold calculateMaxSessionGap. rewrite fold_left_app.
  cbn [fold_left]. now apply gap_body_result.
Qed.

Lemma calculateMaxSessionGap_app (more : list LayoutShift.t) :
  forall entries : list LayoutShift.t,
    Forall (fun e => (0 <= LayoutShift.value e)%Q) more ->
    (calculateMaxSessionGap entries <= calculateMaxSessionGap (entries ++ more))%Q.
Proof.
  induction more as [|e more IH]; intros entries Hmore.
  - rewrite app_nil_r. apply Qle_refl.
  - inversion Hmore as [|? ? He Hrest]; subst.
    eapply Qle_trans; [apply (calculateMaxSessionGap_snoc entries e He)|].
    replace (entries ++ e :: more) with ((entries ++ [e]) ++ more)
      by now rewrite <- app_assoc.
    now apply IH.
Qed.

End LayoutShiftFlags.

(** X3.  A batch of layout shifts is processed as the batch without its
    entries that had recent input: those entries change neither the history
    nor the CLS, and a batch made of such entries only leaves the tracker as
    it was. *)
Theorem flagged_layout_shifts_are_ignored
  (entries : list LayoutShift.t) (p : Perf) :
  observeCLS_callback entries p
  = observeCLS_callback (without_recent_input entries) p /\
  (without_recent_input entries = [] -> observeCLS_callback entries p = p).
Proof.
  assert (H : observeCLS_callback entries p
              = observeCLS_callback (without_recent_input entries) p).
  { revert p. induction entries as [|e entries IH]; intros p; [reflexivity|].
    rewrite observeCLS_callback_cons. unfold without_recent_input.
    cbn [List.filter].
    destruct (negb (LayoutShift.hadRecentInput e)) eqn:E; [|apply IH].
    fold (without_recent_input entries).
    rewrite observeCLS_callback_cons, E. apply IH. }
  split; [exact H|]. intros Hnone. now rewrite H, Hnone.
Qed.

(** X4.  On a new tracker the reported CLS never decreases when a further
    batch arrives whose counted entries have values that are not negative. *)
Theorem reported_CLS_never_decreases
  (batches : list (list LayoutShift.t)) (batch : list LayoutShift.t)
  (supported : bool) :
  Forall (fun e => (0 <= LayoutShift.value e)%Q) (without_recent_input batch) ->
  (cls (metrics (after_layout_shifts batches (new_PerformanceTracker supported)))
   <= cls (metrics (after_layout_shifts (batches ++ [batch])
                      (new_PerformanceTracker supported))))%Q.
Proof.
  intros Hvalues.
  destruct (after_layout_shifts_history batches (new_PerformanceTracker supported))
    as [_ H1].
  destruct (after_layout_shifts_history (batches ++ [batch])
              (new_PerformanceTracker supported)) as [_ H2].
  rewrite H1, H2. cbn [new_PerformanceTracker sessionEntries app].
  rewrite concat_app. cbn [concat]. rewrite app_nil_r.
  unfold without_recent_input in *. rewrite List.filter_app.
  remember (List.filter (fun e => negb (LayoutShift.hadRecentInput e))
              (concat batches)) as old eqn:Eold.
  remember (List.filter (fun e => negb (LayoutShift.hadRecentInput e)) batch)
    as new eqn:Enew.
  clear Eold Enew H1 H2.
  pose proof (calculateMaxSessionGap_app new old Hvalues) as Hmono.
  destruct old as [|o old']; destruct new as [|n new'].
  - apply Qle_refl.
  - exact Hmono.
  - rewrite app_nil_r. apply Qle_refl.
  - exact Hmono.
Qed.

(** Two shifts of 0.1 and 0.2 in one window: the CLS goes from 0.1 up. *)
Lemma reported_CLS_never_decreases_example :
  (cls (metrics (after_layout_shifts [[LayoutShift.mk 0 0.1 false]]
                   (new_PerformanceTracker true)))
   <= cls (metrics (after_layout_shifts
                      ([[LayoutShift.mk 0 0.1 false]]
                       ++ [[LayoutShift.mk 500 0.2 false]])
                      (new_PerformanceTracker true))))%Q.
Proof.
  apply (reported_CLS_never_decreases [[LayoutShift.mk 0 0.1 false]]
           [LayoutShift.mk 500 0.2 false] true).
  cbn. constructor; [unfold Qle; cbn; lia | constructor].
Defined.

Section Paint.

Lemma observePaint_callback_snoc (entries : list PaintEntry.t)
  (e : PaintEntry.t) (m : Metrics) :
  observePaint_callback (entries ++ [e]) m
  = if is_fcp e
    then set_fcp (PaintEntry.startTime e) (observePaint_callback entries m)
    else observePaint_callback entries m.
Proof. unfold observePaint_callback. now rewrite fold_left_app. Qed.

Lemma observePaint_callback_none (entries : list PaintEntry.t) :
  forall m : Metrics,
    Forall (fun e => is_fcp e = false) entries ->
    observePaint_callback entries m = m.
Proof.
  induction entries as [|e entries IH]; intros m Hnone; [reflexivity|].
  inversion Hnone as [|? ? He Hrest]; subst.
  change (observePaint_callback (e :: entries) m)
    with (observePaint_callback entries
            (if is_fcp e then set_fcp (PaintEntry.startTime e) m else m)).
  rewrite He. now apply IH.
Qed.

Lemma observePaint_callback_app (l1 l2 : list PaintEntry.t) (m : Metrics) :
  observePaint_callback (l1 ++ l2) m
  = observePaint_callback l2 (observePaint_callback l1 m).
Proof. unfold observePaint_callback. apply fold_left_app. Qed.

End Paint.

(** X5.  A batch of paint entries without a first-contentful-paint entry
    leaves the metrics as they were; otherwise FCP becomes the startTime of
    the last first-contentful-paint entry of the batch. *)
Theorem FCP_is_last_first_contentful_paint
  (before after : list PaintEntry.t) (e : PaintEntry.t) (m : Metrics) :
  is_fcp e = true ->
  Forall (fun x => is_fcp x = false) after ->
  fcp (observePaint_callback (before ++ e :: after) m) = PaintEntry.startTime e /\
  (Forall (fun x => is_fcp x = false) before ->
   observePaint_callback before m = m).
Proof.
  intros He Hafter. split.
  - replace (before ++ e :: after) with ((before ++ [e]) ++ after)
      by now rewrite <- app_assoc.
    rewrite observePaint_callback_app,
      (observePaint_callback_none after _ Hafter),
      observePaint_callback_snoc, He.
    reflexivity.
  - apply observePaint_callback_none.
Qed.

(** Of two first-contentful-paint entries the later one in the batch wins. *)
Lemma FCP_example :
  fcp (observePaint_callback
         ([PaintEntry.mk "first-paint" 100;
           PaintEntry.mk "first-contentful-paint" 120]
          ++ PaintEntry.mk "first-contentful-paint" 150 :: [])
         initial_metrics)
  = 150%Q.
Proof.
  apply (FCP_is_last_first_contentful_paint
           [PaintEntry.mk "first-paint" 100;
            PaintEntry.mk "first-contentful-paint" 120] []
           (PaintEntry.mk "first-contentful-paint" 150) initial_metrics).
  - reflexivity.
  - constructor.
Defined.

(** X6.  A batch of resource entries appends to the recorded resources, in
    the order of the batch, the records of exactly those entries whose
    transferSize is above 0 and whose duration is above 100 ms; what was
    recorded before stays, and no other metric changes. *)
Theorem resources_record_slow_transfers
  (entries : list ResourceEntry.t) (m : Metrics) :
  resources (resource_callback entries m)
  = resources m ++ map resource_record (List.filter slow_transfer entries) /\
  set_resources (resources m) (resource_callback entries m) = m.
Proof.
  revert m. induction entries as [|e entries IH]; intros m.
  - cbn. rewrite app_nil_r. now destruct m.
  - change (resource_callback (e :: entries) m)
      with (resource_callback entries
              (if slow_transfer e
               then set_resources (resources m ++ [resource_record e]) m
               else m)).
    cbn [List.filter]. destruct (slow_transfer e).
    + destruct (IH (set_resources (resources m ++ [resource_record e]) m))
        as [H1 H2].
      cbn [resources set_resources] in H1. rewrite H1, <- app_assoc.
      split; [reflexivity|].
      apply (f_equal (set_resources (resources m))) in H2.
      change (set_resources (resources m)
                (resource_callback entries
                   (set_resources (resources m ++ [resource_record e]) m))
              = set_resources (resources m) m) in H2.
      rewrite H2. now destruct m.
    + apply IH.
Qed.

Section InteractionHistory.

Lemma inp_estimate_In (history : list Q) (x : Q) :
  inp_estimate history = Some x -> In x history.
Proof.
  unfold inp_estimate, array_get.
  destruct (inp_index (Array_sort ascending history) <? 0); [discriminate|].
  intros H. apply nth_error_In in H.
  eapply Permutation_in; [apply Array_sort_Permutation | exact H].
Qed.

Lemma inp_estimate_Some (history : list Q) :
  history <> [] -> exists x, inp_estimate history = Some x.
Proof.
  intros Hne.
  assert (Hsorted : Array_sort ascending history <> []).
  { intros E. apply (f_equal (@length Q)) in E.
    rewrite Array_sort_length in E. destruct history; [congruence | discriminate]. }
  pose proof (inp_index_in_range _ Hsorted) as Hidx.
  unfold inp_estimate, array_get.
  destruct (Z.ltb_spec (inp_index (Array_sort ascending history)) 0); [lia|].
  destruct (nth_error _ _) as [x|] eqn:E; [now exists x|].
  apply nth_error_None in E. lia.
Qed.

End InteractionHistory.

(** X7.  The interaction count keeps pace with the history: if it equals
    the number of recorded durations before a batch, it does so after; and
    when the history is not empty after the batch, the reported INP is one of
    the recorded durations. *)
Theorem interaction_history_invariant (batch : list Q) (p : Perf) :
  interactionCount (metrics p) = length (interactionTimes p) ->
  interactionCount (metrics (observeINP_callback batch p))
  = length (interactionTimes (observeINP_callback batch p)) /\
  (interactionTimes p ++ batch <> [] ->
   exists x, inp (metrics (observeINP_callback batch p)) = Some x /\
             In x (interactionTimes p ++ batch)).
Proof.
  intros Hcount. unfold observeINP_callback.
  cbn [interactionTimes set_metrics set_interactionTimes metrics].
  destruct (0 <? length (interactionTimes p ++ batch))%nat eqn:E.
  - cbn [metrics set_metrics interactionCount set_inp set_interactionCount
         interactionTimes set_interactionTimes inp].
    rewrite length_app, Hcount. split; [reflexivity|].
    intros Hne. destruct (inp_estimate_Some _ Hne) as [x Hx].
    exists x. split; [exact Hx | now apply inp_estimate_In].
  - cbn [metrics set_metrics interactionCount set_interactionCount
         interactionTimes set_interactionTimes].
    rewrite length_app, Hcount. split; [reflexivity|].
    intros Hne. apply Nat.ltb_ge in E.
    destruct (interactionTimes p ++ batch); [congruence | cbn in E; lia].
Qed.

(** From a new tracker, three interactions are counted as three. *)
Lemma interaction_history_example :
  interactionCount
    (metrics (observeINP_callback [24; 16; 40]%Q (new_PerformanceTracker true)))
  = 3%nat.
Proof.
  destruct (interaction_history_invariant [24; 16; 40]%Q
              (new_PerformanceTracker true) eq_refl) as [H _].
  rewrite H. reflexivity.
Defined.

(** * Further properties of the session *)

Section Reload.

Implicit Types (s : St).

Lemma storage_keys_differ :
  CONFIG.STORAGE_KEYS.EXPIRATION <> CONFIG.STORAGE_KEYS.SESSION_ID.
Proof. discriminate. Qed.

(** Initialization on a store that holds a session id and an expiration
    written by the script: the session is taken up before the expiration and
    replaced from the expiration on. *)
Lemma initializeSession_stored s (newSessionId sid : string) (e : Z) :
  isDestroyed (tracker s) = false ->
  storage_reliable s ->
  newSessionId <> EmptyString ->
  sid <> EmptyString ->
  localStorage (world s) !! CONFIG.STORAGE_KEYS.SESSION_ID = Some sid ->
  localStorage (world s) !! CONFIG.STORAGE_KEYS.EXPIRATION = Some (toString e) ->
  session (tracker (exec (initializeSession newSessionId) s))
  = Some (if now (env (world s)) <? e
          then Session.mk sid (Num e) (now (env (world s)))
          else Session.mk newSessionId
                 (Num (now (env (world s)) + CONFIG.SESSION_DURATION))
                 (now (env (world s)))).
Proof.
  intros Hd Hrel Hnew Hsid Hls Hle.
  assert (Hstale : stored_session_stale s (Some sid) (Some (toString e))
                   = negb (now (env (world s)) <? e)).
  { unfold stored_session_stale, isSessionExpired.
    rewrite parseInt_toString, (truthy_nonempty sid Hsid),
      (truthy_nonempty _ (toString_nonempty e)).
    cbn [negb orb number_geb]. now rewrite Z.leb_antisym. }
  destruct (now (env (world s)) <? e) eqn:E; cbn [negb] in Hstale.
  - destruct (initializeSession_resume s newSessionId sid (toString e)
                Hd Hrel Hls Hle Hstale) as (Hses & _).
    cbn zeta in Hses. now rewrite parseInt_toString in Hses.
  - rewrite <- Hls, <- Hle in Hstale.
    destruct (initializeSession_fresh s newSessionId Hd Hrel Hnew Hstale)
      as (Hses & _).
    exact Hses.
Qed.

Lemma refreshSession_store s :
  visibilityState (env (world s)) = visible ->
  isDestroyed (tracker s) = false ->
  next_storage_call_throws s = false ->
  localStorage (world (exec refreshSession s))
  = <[CONFIG.STORAGE_KEYS.EXPIRATION :=
        toString (now (env (world s)) + CONFIG.SESSION_DURATION)]>
      (localStorage (world s)).
Proof.
  intros Hv Hd Hok. unfold exec, refreshSession, bind, gets, try_catch.
  rewrite Hv, Hd, setItem_eq, Hok. cbn. rewrite tracker_answered.
  destruct (session (tracker s)) eqn:E; unfold write_entry; cbn;
    rewrite ?world_answered; reflexivity.
Qed.

End Reload.

(** X9.  A session made by one page load is found by the next one.  When
    initialization makes a new session at time t on a working storage, and a
    later load starts from the store it left, at time t', then that load
    takes up the same session id with the expiration t + session duration if
    t' is before that expiration, and makes a new session (its own generated
    id, expiration t' + session duration) if t' has reached it. *)
Theorem session_survives_reload (s s' : St) (id1 id2 : string) :
  isDestroyed (tracker s) = false ->
  storage_reliable s ->
  id1 <> EmptyString ->
  stored_session_stale s
    (localStorage (world s) !! CONFIG.STORAGE_KEYS.SESSION_ID)
    (localStorage (world s) !! CONFIG.STORAGE_KEYS.EXPIRATION) = true ->
  isDestroyed (tracker s') = false ->
  storage_reliable s' ->
  id2 <> EmptyString ->
  localStorage (world s') = localStorage (world (exec (initializeSession id1) s)) ->
  let expiration := now (env (world s)) + CONFIG.SESSION_DURATION in
  let t' := now (env (world s')) in
  session (tracker (exec (initializeSession id2) s'))
  = Some (if t' <? expiration
          then Session.mk id1 (Num expiration) t'
          else Session.mk id2 (Num (t' + CONFIG.SESSION_DURATION)) t').
Proof.
  intros Hd Hrel Hid1 Hstale Hd' Hrel' Hid2 Hstore. cbn zeta.
  destruct (initializeSession_fresh s id1 Hd Hrel Hid1 Hstale) as (_ & Hls & _).
  cbn zeta in Hls. rewrite Hls in Hstore.
  apply initializeSession_stored; try assumption.
  - rewrite Hstore, lookup_insert_ne by apply storage_keys_differ.
    apply lookup_insert_eq.
  - rewrite Hstore. apply lookup_insert_eq.
Qed.

(** A load half a session duration after the first one finds the session. *)
Lemma session_survives_reload_example :
  session
    (tracker
       (exec (initializeSession "second-id")
          (later_load 1300000
             (localStorage
                (world (exec (initializeSession "first-id")
                          (sample_state ∅ [])))))))
  = Some (Session.mk "first-id" (Num 1600000) 1300000).
Proof.
  assert (H1 : "first-id" <> EmptyString) by discriminate.
  assert (H2 : "second-id" <> EmptyString) by discriminate.
  refine (session_survives_reload (sample_state ∅ [])
            (later_load 1300000 _) "first-id" "second-id"
            eq_refl (sample_state_reliable ∅) H1 _ eq_refl _ H2 eq_refl).
  - vm_compute. reflexivity.
  - now apply storage_reliable_nil.
Defined.

(** X10.  A refresh extends the stored session.  After a refresh at time t
    on a visible page, with a tracker that is not destroyed and a write that
    does not throw, a load that starts from the store the refresh left, at a
    time before t + session duration, takes up the stored session id with
    the expiration t + session duration. *)
Theorem refresh_extends_stored_session (s s' : St) (sid newSessionId : string) :
  visibilityState (env (world s)) = visible ->
  isDestroyed (tracker s) = false ->
  next_storage_call_throws s = false ->
  localStorage (world s) !! CONFIG.STORAGE_KEYS.SESSION_ID = Some sid ->
  sid <> EmptyString ->
  isDestroyed (tracker s') = false ->
  storage_reliable s' ->
  newSessionId <> EmptyString ->
  localStorage (world s') = localStorage (world (exec refreshSession s)) ->
  now (env (world s')) < now (env (world s)) + CONFIG.SESSION_DURATION ->
  session (tracker (exec (initializeSession newSessionId) s'))
  = Some (Session.mk sid
            (Num (now (env (world s)) + CONFIG.SESSION_DURATION))
            (now (env (world s')))).
Proof.
  intros Hv Hd Hok Hsid Hne Hd' Hrel' Hnew Hstore Hlt.
  rewrite (refreshSession_store s Hv Hd Hok) in Hstore.
  rewrite (initializeSession_stored s' newSessionId sid
             (now (env (world s)) + CONFIG.SESSION_DURATION)); try assumption.
  - apply Z.ltb_lt in Hlt. now rewrite Hlt.
  - rewrite Hstore, lookup_insert_ne by apply storage_keys_differ. exact Hsid.
  - rewrite Hstore. apply lookup_insert_eq.
Qed.

(** A session about to expire is refreshed at 1000000 and found at 1500000. *)
Lemma refresh_extends_stored_session_example :
  session
    (tracker
       (exec (initializeSession "second-id")
          (later_load 1500000
             (localStorage (world (exec refreshSession running_state))))))
  = Some (Session.mk "old-id" (Num 1600000) 1500000).
Proof.
  assert (H1 : "old-id" <> EmptyString) by discriminate.
  assert (H2 : "second-id" <> EmptyString) by discriminate.
  refine (refresh_extends_stored_session running_state
            (later_load 1500000 _) "old-id" "second-id"
            eq_refl eq_refl eq_refl _ H1 eq_refl _ H2 eq_refl _).
  - vm_compute. reflexivity.
  - now apply storage_reliable_nil.
  - vm_compute. reflexivity.
Defined.

(** * Further properties of the client id *)

Section ClientId.

Implicit Types (s : St).

Lemma getOrCreateClientId_eq (uuid : option string) (fallback : string) s :
  getOrCreateClientId uuid fallback s
  = if nth_call_throws 0 s then (Normal fallback, answered s)
    else if truthy (localStorage (world s) !! CONFIG.STORAGE_KEYS.CLIENT_ID)
    then (Normal (default EmptyString
                    (localStorage (world s) !! CONFIG.STORAGE_KEYS.CLIENT_ID)),
          answered s)
    else match uuid with
         | None => (Normal fallback, answered s)
         | Some id =>
             if nth_call_throws 1 s
             then (Normal fallback, answered (answered s))
             else (Normal id,
                   write_entry CONFIG.STORAGE_KEYS.CLIENT_ID id
                     (answered (answered s)))
         end.
Proof.
  unfold getOrCreateClientId, try_catch, bind, ret, throw.
  rewrite getItem_eq, next_throws_nth.
  destruct (nth_call_throws 0 s); [reflexivity|].
  destruct (truthy (localStorage (world s) !! CONFIG.STORAGE_KEYS.CLIENT_ID));
    cbn [negb]; [reflexivity|].
  destruct uuid as [id|]; [|reflexivity].
  rewrite setItem_eq, next_throws_nth, nth_call_answered.
  now destruct (nth_call_throws 1 s).
Qed.

Lemma storage_reliable_nth (n : nat) s :
  storage_reliable s -> nth_call_throws n s = false.
Proof.
  unfold storage_reliable, nth_call_throws. intros H.
  revert n. induction H as [|b l Hb _ IH]; intros [|n]; cbn; auto.
Qed.

End ClientId.

(** X11.  [getOrCreateClientId] never throws.  The id it returns is the
    one the store holds under the client-id key afterwards, or else it is the
    fallback string and the store is as it was.  The store changes by the
    entry of the returned id under that key or not at all.  When the read
    does not throw, a non-empty stored id is returned and kept.  A write is
    made only to store a uuid just drawn, when no id was stored; and when
    [crypto.randomUUID()] throws nothing is written, and without a stored id
    the fallback string is returned. *)
Theorem getOrCreateClientId_outcomes (uuid : option string) (fallback : string)
  (s : St) :
  let stored := localStorage (world s) !! CONFIG.STORAGE_KEYS.CLIENT_ID in
  let store' := localStorage (world (snd (getOrCreateClientId uuid fallback s))) in
  exists id,
    fst (getOrCreateClientId uuid fallback s) = Normal id /\
    (store' !! CONFIG.STORAGE_KEYS.CLIENT_ID = Some id \/
     id = fallback /\ store' = localStorage (world s)) /\
    (store' = localStorage (world s) \/
     store' = <[CONFIG.STORAGE_KEYS.CLIENT_ID := id]> (localStorage (world s))) /\
    (nth_call_throws 0 s = false -> truthy stored = true ->
     stored = Some id /\ store' = localStorage (world s)) /\
    (store' <> localStorage (world s) -> uuid = Some id /\ truthy stored = false) /\
    (uuid = None ->
     store' = localStorage (world s) /\ (truthy stored = false -> id = fallback)).
Proof.
  cbn zeta. rewrite getOrCreateClientId_eq.
  destruct (nth_call_throws 0 s); cbn [fst snd].
  { exists fallback. rewrite localStorage_answered.
    repeat split; auto; try congruence. }
  destruct (localStorage (world s) !! CONFIG.STORAGE_KEYS.CLIENT_ID) as [id|] eqn:E.
  - destruct (truthy (Some id)) eqn:Ht; cbn [fst snd default].
    + exists id. rewrite localStorage_answered.
      repeat split; auto; try congruence.
    + destruct uuid as [u|]; [destruct (nth_call_throws 1 s)|]; cbn [fst snd].
      * exists fallback. rewrite !localStorage_answered.
        repeat split; auto; try congruence.
      * exists u. rewrite localStorage_write_entry, !localStorage_answered.
        split; [reflexivity|]. split; [left; apply lookup_insert_eq|].
        split; [now right|]. repeat split; auto; try congruence.
      * exists fallback. rewrite localStorage_answered.
        repeat split; auto; try congruence.
  - cbn [truthy].
    destruct uuid as [u|]; [destruct (nth_call_throws 1 s)|]; cbn [fst snd].
    + exists fallback. rewrite !localStorage_answered.
      repeat split; auto; try congruence.
    + exists u. rewrite localStorage_write_entry, !localStorage_answered.
      split; [reflexivity|]. split; [left; apply lookup_insert_eq|].
      split; [now right|]. repeat split; auto; try congruence.
    + exists fallback. rewrite localStorage_answered.
      repeat split; auto; try congruence.
Qed.

(** X12.  The client id is stable across loads on a working storage: once
    [getOrCreateClientId] has run (with a non-empty uuid to draw from), a
    later run that starts from the store it left returns the same id,
    whatever uuid it could draw or none, and leaves the store as it is. *)
Theorem clientId_is_stable (s s' : St) (uuid fallback : string)
  (uuid' : option string) (fallback' : string) :
  storage_reliable s ->
  uuid <> EmptyString ->
  storage_reliable s' ->
  localStorage (world s')
  = localStorage (world (snd (getOrCreateClientId (Some uuid) fallback s))) ->
  fst (getOrCreateClientId uuid' fallback' s')
  = fst (getOrCreateClientId (Some uuid) fallback s) /\
  localStorage (world (snd (getOrCreateClientId uuid' fallback' s')))
  = localStorage (world s').
Proof.
  intros Hrel Huuid Hrel' Hstore.
  rewrite (getOrCreateClientId_eq (Some uuid) fallback s) in Hstore |- *.
  rewrite (getOrCreateClientId_eq uuid' fallback' s').
  rewrite !(storage_reliable_nth _ s Hrel) in *.
  rewrite !(storage_reliable_nth _ s' Hrel').
  destruct (localStorage (world s) !! CONFIG.STORAGE_KEYS.CLIENT_ID)
    as [[|c id]|] eqn:E; cbn [truthy default fst snd] in *.
  - unfold write_entry in Hstore. cbn in Hstore.
    rewrite !localStorage_answered in Hstore.
    rewrite Hstore, lookup_insert_eq, (truthy_nonempty uuid Huuid).
    cbn [default fst snd]. rewrite localStorage_answered. now rewrite Hstore.
  - rewrite localStorage_answered in Hstore. rewrite Hstore, E.
    cbn [truthy default fst snd]. now rewrite localStorage_answered, Hstore.
  - unfold write_entry in Hstore. cbn in Hstore.
    rewrite !localStorage_answered in Hstore.
    rewrite Hstore, lookup_insert_eq, (truthy_nonempty uuid Huuid).
    cbn [default fst snd]. rewrite localStorage_answered. now rewrite Hstore.
Qed.

(** The id drawn on the first load is the id of the second load. *)
Lemma clientId_is_stable_example :
  fst (getOrCreateClientId (Some "uuid-2") "random-2"
         (later_load 1300000
            (localStorage
               (world (snd (getOrCreateClientId (Some "uuid-1") "random-1"
                              (sample_state ∅ [])))))))
  = Normal "uuid-1".
Proof.
  assert (H1 : "uuid-1" <> EmptyString) by discriminate.
  destruct (clientId_is_stable (sample_state ∅ []) (later_load 1300000 _)
              "uuid-1" "random-1" (Some "uuid-2") "random-2"
              (sample_state_reliable ∅) H1
              (storage_reliable_nil (later_load 1300000 _) eq_refl) eq_refl)
    as [H _].
  rewrite H. vm_compute. reflexivity.
Defined.

(** * Further properties of page lifetimes *)

Section Identity.

Implicit Types (s : St) (i : Input).

Lemma carries_identity_eq s s' (p : Payload.t) :
  identity s' = identity s -> carries_identity s' p -> carries_identity s p.
Proof.
  unfold identity, carries_identity. intros [= Hc Hp Hs].
  now rewrite Hc, Hp, Hs.
Qed.

Lemma sends_refl s : sends s s.
Proof.
  split; [reflexivity|]. exists []. split; [now rewrite app_nil_r | constructor].
Qed.

Lemma sends_trans s1 s2 s3 : sends s1 s2 -> sends s2 s3 -> sends s1 s3.
Proof.
  intros [Hi1 (n1 & Hb1 & Hn1)] [Hi2 (n2 & Hb2 & Hn2)].
  split; [congruence|]. exists (n1 ++ n2). split.
  - now rewrite Hb2, Hb1, <- app_assoc.
  - apply Forall_app. split; [exact Hn1|].
    eapply Forall_impl; [exact Hn2|]. intros p. now apply carries_identity_eq.
Qed.

Lemma sends_frame s s' :
  identity s' = identity s -> beacons (world s') = beacons (world s) ->
  sends s s'.
Proof.
  intros Hi Hb. split; [exact Hi|]. exists [].
  split; [now rewrite app_nil_r | constructor].
Qed.

Lemma ready_session_Some s (ses : Session.t) :
  ready_session s = Some ses -> session (tracker s) = Some ses.
Proof.
  unfold ready_session. destruct (session (tracker s)) as [x|]; [|discriminate].
  destruct (truthy _); [congruence | discriminate].
Qed.

Lemma compose_payload_identity s (ses : Session.t) (name : string)
  (d : EventData) :
  session (tracker s) = Some ses ->
  carries_identity s (compose_payload s ses name d).
Proof.
  intros H. unfold carries_identity. rewrite H. now repeat split.
Qed.

Lemma trackEvent_send_sends (name : string) (d : EventData) s :
  sends s (trackEvent_send name d s).
Proof.
  unfold trackEvent_send. destruct (ready_session s) as [ses|] eqn:E;
    [|apply sends_refl].
  split; [reflexivity|]. exists [compose_payload s ses name d].
  split; [reflexivity|]. constructor; [|constructor].
  now apply compose_payload_identity, ready_session_Some.
Qed.

Lemma trackEvent_sends (name : string) (d : EventData) s :
  sends s (trackEvent name d s).
Proof.
  unfold trackEvent. destruct (isDestroyed (tracker s)); [apply sends_refl|].
  destruct (ready_session s) eqn:E; [apply trackEvent_send_sends|].
  now apply sends_frame.
Qed.

Lemma trackPageView_sends s : sends s (trackPageView s).
Proof.
  unfold trackPageView. destruct (isDestroyed (tracker s)); [apply sends_refl|].
  cbn zeta. eapply sends_trans; [apply trackEvent_sends|].
  now apply sends_frame.
Qed.

Lemma sendFinalMetrics_sends s : sends s (sendFinalMetrics s).
Proof.
  unfold sendFinalMetrics. destruct (finalMetricsSent (perf s)); cbn [negb];
    [apply sends_refl|].
  cbn zeta. eapply sends_trans; [|apply trackEvent_sends].
  now apply sends_frame.
Qed.

Lemma session_end_listener_sends s : sends s (session_end_listener s).
Proof.
  unfold session_end_listener.
  destruct (session (tracker s)); [apply trackEvent_sends | apply sends_refl].
Qed.

Lemma mutation_callback_sends s : sends s (mutation_callback s).
Proof.
  unfold mutation_callback.
  destruct (_ && _); [apply trackPageView_sends | apply sends_refl].
Qed.

Lemma destroy_sends s : sends s (destroy s).
Proof.
  unfold destroy, PerformanceTracker_destroy. cbn zeta.
  eapply sends_trans; [|apply sendFinalMetrics_sends].
  now apply sends_frame.
Qed.

Lemma refreshSession_sends s : sends s (exec refreshSession s).
Proof.
  destruct (refreshSession_effect s) as (Hb & _ & _ & _ & Hs). cbn zeta in *.
  apply sends_frame; [|exact Hb].
  assert (Ht : clientId (tracker (exec refreshSession s)) = clientId (tracker s) /\
               pageLoadId (tracker (exec refreshSession s))
               = pageLoadId (tracker s)).
  { unfold exec, refreshSession, bind, gets, try_catch, modify, throw, ret.
    destruct (visibilityState (env (world s))), (isDestroyed (tracker s));
      try (now split).
    rewrite setItem_eq.
    destruct (next_storage_call_throws s); cbn.
    - now rewrite tracker_answered.
    - rewrite tracker_answered.
      destruct (session (tracker s)); unfold write_entry; cbn;
        now rewrite ?tracker_answered. }
  destruct Ht as [Hc Hp]. unfold identity. rewrite Hc, Hp. f_equal.
  destruct Hs as [-> | (ses & v & E & ->)]; [reflexivity | now rewrite E].
Qed.

Lemma step_sends s i : sends s (step s i).
Proof.
  destruct i; cbn [step].
  - now apply sends_frame.
  - now apply sends_frame.
  - now apply sends_frame.
  - destruct (tracking (perf s)); [now apply sends_frame | apply sends_refl].
  - destruct (_ && _); [now apply sends_frame | apply sends_refl].
  - destruct (tracking (perf s)); [now apply sends_frame | apply sends_refl].
  - destruct (tracking (perf s)); [now apply sends_frame | apply sends_refl].
  - destruct (tracking (perf s)); [now apply sends_frame | apply sends_refl].
  - destruct (_ && _); [now apply sends_frame | apply sends_refl].
  - destruct (tracking (perf s)); [now apply sends_frame | apply sends_refl].
  - destruct (tracking (perf s)); [|apply sends_refl].
    destruct (visibilityState (env (world s)));
      [apply sends_refl | apply sendFinalMetrics_sends].
  - eapply sends_trans; [|apply session_end_listener_sends].
    destruct (tracking (perf s)); [apply sendFinalMetrics_sends | apply sends_refl].
  - destruct (sessionInterval (tracker s));
      [apply refreshSession_sends | apply sends_refl].
  - destruct (timeouts (world s)) as [|[name d] rest]; [apply sends_refl|].
    eapply sends_trans; [|apply trackEvent_send_sends]. now apply sends_frame.
  - apply sends_refl.
  - destruct (mutationObserver (tracker s));
      [apply mutation_callback_sends | apply sends_refl].
  - destruct (lynq (world s)); [destruct eventId|];
      [apply trackEvent_sends | apply sends_refl ..].
  - apply trackEvent_sends.
  - apply destroy_sends.
Qed.

Lemma run_sends (inputs : list Input) : forall s, sends s (run s inputs).
Proof.
  induction inputs as [|i inputs IH]; intros s; [apply sends_refl|].
  change (run s (i :: inputs)) with (run (step s i) inputs).
  eapply sends_trans; [apply step_sends | apply IH].
Qed.

Lemma trackEvent_sent_before (name : string) (d : EventData) s :
  sent_before_listeners s -> sent_before_listeners (trackEvent name d s).
Proof.
  intros [Hp Hall]. destruct (trackEvent_sends name d s) as [Hi (new & Hb & Hn)].
  assert (Ht : tracker (trackEvent name d s) = tracker s)
    by apply trackEvent_tracker.
  split; [now rewrite Ht|]. rewrite Hb. apply Forall_app. split.
  - eapply Forall_impl; [exact Hall|]. intros p.
    unfold carries_identity. now rewrite Ht.
  - eapply Forall_impl; [exact Hn|]. intros p.
    unfold carries_identity. now rewrite Ht.
Qed.

Lemma construct_sent_before (pg : Page) (r : Fresh) :
  pageLoadId (tracker (construct pg r)) = fresh_pageLoadId r /\
  Forall
    (fun p =>
       Payload.clientId p = clientId (tracker (construct pg r)) /\
       Payload.pageLoadId p = None /\
       Some (Payload.sessionId p)
       = option_map Session.sessionId (session (tracker (construct pg r))))
    (beacons (world (construct pg r))).
Proof.
  unfold construct.
  set (P := fun s : St => beacons (world s) = [] /\ pageLoadId (tracker s) = None).
  assert (PA : forall s, P s -> P (answered s)).
  { intros s [H1 H2]. split; [now rewrite beacons_answered
                             | now rewrite tracker_answered]. }
  assert (PW : forall key value s, P s -> P (write_entry key value s))
    by (intros key value s H; exact H).
  assert (H0 : P (initial_state pg)) by now split.
  pose proof (getOrCreateClientId_invariant P PA PW (fresh_clientId r)
                (fresh_clientId_fallback r) _ H0) as H1.
  destruct (getOrCreateClientId _ _ _) as [id s1]. cbn [snd] in H1.
  set (s2 := on_tracker (set_clientId _) s1).
  assert (H2 : P s2) by exact H1.
  assert (H3 : sent_before_listeners
                 (exec (initializeSession (fresh_sessionId r)) s2)).
  { apply (initializeSession_invariant P sent_before_listeners); try assumption.
    - intros s [Hb Hp]. split; [exact Hp | rewrite Hb; constructor].
    - intros v s [Hb Hp]. split; [exact Hp|].
      change (beacons (world (on_tracker (set_session v) s)))
        with (beacons (world s)).
      rewrite Hb. constructor.
    - intros name d s _. apply trackEvent_sent_before.
    - intros s H. unfold trackPageView.
      destruct (isDestroyed (tracker s)); [exact H|]. cbn zeta.
      apply (trackEvent_sent_before CONFIG.EVENTS.PAGE_VIEW EmptyObject) in H.
      exact H.
    - intros s H. exact H.
    - intros s H. exact H. }
  destruct H3 as [Hp Hall].
  destruct (fresh_pageLoadId r) as [pageLoadId|].
  - split; [reflexivity|].
    eapply Forall_impl; [exact Hall|].
    intros p (Hc & Hl & Hs). rewrite Hp in Hl. now repeat split.
  - split; [exact Hp|].
    eapply Forall_impl; [exact Hall|].
    intros p (Hc & Hl & Hs). rewrite Hp in Hl. now repeat split.
Qed.

End Identity.

(** X13.  Every payload sent during a page lifetime carries the client id
    of the tracker and the id of the one session that the constructor set:
    neither changes while the page lives, whatever is delivered. *)
Theorem payloads_carry_one_identity
  (pg : Page) (r : Fresh) (inputs : list Input) :
  identity (run (construct pg r) inputs) = identity (construct pg r) /\
  Forall
    (fun p =>
       Payload.clientId p = clientId (tracker (construct pg r)) /\
       Some (Payload.sessionId p)
       = option_map Session.sessionId (session (tracker (construct pg r))))
    (beacons (world (run (construct pg r) inputs))).
Proof.
  destruct (run_sends inputs (construct pg r)) as [Hi (later & Hb & Hl)].
  split; [exact Hi|]. rewrite Hb. apply Forall_app. split.
  - destruct (construct_sent_before pg r) as [_ H].
    eapply Forall_impl; [exact H|]. now intros p (Hc & _ & Hs).
  - eapply Forall_impl; [exact Hl|]. now intros p (Hc & _ & Hs).
Qed.

(** X14.  The payloads sent by the constructor (session-start or page-view,
    and the flushed queue) carry no page-load id, because the id is drawn
    after [initializeSession].  Every payload sent later in the page lifetime
    carries what that draw left: the page-load id when
    [crypto.randomUUID()] returned one, and none when it threw. *)
Theorem pageLoadId_is_missing_at_initialization
  (pg : Page) (r : Fresh) (inputs : list Input) :
  Forall (fun p => Payload.pageLoadId p = None)
    (beacons (world (construct pg r))) /\
  exists later : list Payload.t,
    beacons (world (run (construct pg r) inputs))
    = beacons (world (construct pg r)) ++ later /\
    Forall (fun p => Payload.pageLoadId p = fresh_pageLoadId r) later.
Proof.
  destruct (construct_sent_before pg r) as [Hp H]. split.
  - eapply Forall_impl; [exact H|]. now intros p (_ & Hl & _).
  - destruct (run_sends inputs (construct pg r)) as [_ (later & Hb & Hl)].
    exists later. split; [exact Hb|].
    eapply Forall_impl; [exact Hl|]. intros p (_ & Hl' & _). now rewrite Hl', Hp.
Qed.

Section NoSession.

Implicit Types (s : St) (i : Input).

Lemma trackEvent_no_session (name : string) (d : EventData) s :
  ready_session s = None ->
  beacons (world (trackEvent name d s)) = beacons (world s).
Proof.
  intros H. destruct (trackEvent_cases name d s)
    as [-> | [(ses & Hr & _) | [_ ->]]]; [reflexivity | congruence | reflexivity].
Qed.

Lemma sends_ready_session s s' :
  sends s s' -> ready_session s = None -> ready_session s' = None.
Proof.
  intros [Hi _]. unfold identity in Hi. injection Hi as _ _ Hs.
  unfold ready_session.
  destruct (session (tracker s)) as [a|], (session (tracker s')) as [b|];
    cbn in Hs; try discriminate; try reflexivity.
  injection Hs as Hs. rewrite Hs.
  now destruct (truthy (Some (Session.sessionId a))).
Qed.

Lemma step_no_session s i :
  ready_session s = None -> beacons (world (step s i)) = beacons (world s).
Proof.
  intros H. destruct i; cbn [step]; try reflexivity.
  - now destruct (tracking (perf s)).
  - now destruct (_ && _).
  - now destruct (tracking (perf s)).
  - now destruct (tracking (perf s)).
  - now destruct (tracking (perf s)).
  - now destruct (_ && _).
  - now destruct (tracking (perf s)).
  - destruct (tracking (perf s)); [|reflexivity].
    destruct (visibilityState (env (world s))); [reflexivity|].
    unfold sendFinalMetrics. destruct (finalMetricsSent (perf s)); [reflexivity|].
    cbn [negb]. cbn zeta. now rewrite trackEvent_no_session.
  - set (x := if tracking (perf s) then sendFinalMetrics s else s).
    assert (Hx : beacons (world x) = beacons (world s) /\ ready_session x = None).
    { unfold x. destruct (tracking (perf s)); [|now split]. split.
      - unfold sendFinalMetrics.
        destruct (finalMetricsSent (perf s)); [reflexivity|].
        cbn [negb]. cbn zeta. now rewrite trackEvent_no_session.
      - now apply (sends_ready_session s), H; apply sendFinalMetrics_sends. }
    destruct Hx as [Hb Hr]. unfold session_end_listener.
    destruct (session (tracker x)); [|exact Hb].
    now rewrite trackEvent_no_session.
  - destruct (sessionInterval (tracker s)); [|reflexivity].
    now destruct (refreshSession_effect s) as (Hb & _).
  - destruct (timeouts (world s)) as [|[name d] rest]; [reflexivity|].
    unfold trackEvent_resume, trackEvent_send.
    now rewrite (ready_session_tracker s (on_world (set_timeouts rest) s) eq_refl), H.
  - destruct (mutationObserver (tracker s)); [|reflexivity].
    unfold mutation_callback. destruct (_ && _); [|reflexivity].
    unfold trackPageView. destruct (isDestroyed (tracker s)); [reflexivity|].
    cbn zeta. cbn [world on_tracker]. now apply trackEvent_no_session.
  - destruct (lynq (world s)); [destruct eventId|]; try reflexivity.
    now apply trackEvent_no_session.
  - now apply trackEvent_no_session.
  - now destruct (destroy_sends_nothing s) as (Hb & _).
Qed.

End NoSession.

(** X15.  Without a session nothing is ever sent: from a state in which the
    tracker has no session (or one with an empty id), no sequence of inputs
    adds a payload; events tracked meanwhile are dropped. *)
Theorem nothing_is_sent_without_session (s : St) (inputs : list Input) :
  ready_session s = None ->
  beacons (world (run s inputs)) = beacons (world s) /\
  ready_session (run s inputs) = None.
Proof.
  revert s. induction inputs as [|i inputs IH]; intros s H; [now split|].
  change (run s (i :: inputs)) with (run (step s i) inputs).
  assert (H' : ready_session (step s i) = None)
    by (apply (sends_ready_session s); [apply step_sends | exact H]).
  destruct (IH _ H') as [Hb Hr]. split; [|exact Hr].
  rewrite Hb. now apply step_no_session.
Qed.

(** On a page whose storage throws, a tracked event and the unload send
    nothing. *)
Lemma nothing_is_sent_without_session_example :
  beacons
    (world (run (construct broken_storage_page sample_fresh)
              [YourTracking "signup" None; TimerFires; BeforeUnload]))
  = [].
Proof.
  destruct (nothing_is_sent_without_session
              (construct broken_storage_page sample_fresh)
              [YourTracking "signup" None; TimerFires; BeforeUnload])
    as [H _].
  - vm_compute. reflexivity.
  - rewrite H. vm_compute. reflexivity.
Defined.

(** X16.  When one of the two reads of initialization throws, the error is
    swallowed and nothing else happens: the tracker is as before (no session,
    no refresh interval), nothing is sent or scheduled, the store is
    unchanged, and the queue of early events is neither flushed nor
    discarded ([window.lynq] is not installed). *)
Theorem initializeSession_read_failure (s : St) (newSessionId : string) :
  nth_call_throws 0 s || nth_call_throws 1 s = true ->
  let s' := exec (initializeSession newSessionId) s in
  fst (initializeSession newSessionId s) = Normal tt /\
  tracker s' = tracker s /\
  perf s' = perf s /\
  beacons (world s') = beacons (world s) /\
  timeouts (world s') = timeouts (world s) /\
  localStorage (world s') = localStorage (world s) /\
  lynqQueue (world s') = lynqQueue (world s) /\
  lynq (world s') = lynq (world s).
Proof.
  intros H. cbn zeta. split.
  - unfold initializeSession, try_catch, ret.
    now destruct (bind _ _ s) as [[[]|] s1].
  - rewrite initializeSession_unfold.
    destruct (nth_call_throws 0 s); cbn [orb] in H.
    + rewrite world_answered, tracker_answered, perf_answered. now repeat split.
    + rewrite H, !world_answered, !tracker_answered, !perf_answered.
      now repeat split.
Qed.

(** The first read throws: the queued event stays in the queue. *)
Lemma initializeSession_read_failure_example :
  lynqQueue (world (exec (initializeSession "fresh-id") (sample_state ∅ [true])))
  = Some ["queued"].
Proof.
  destruct (initializeSession_read_failure (sample_state ∅ [true]) "fresh-id"
              eq_refl) as (_ & _ & _ & _ & _ & _ & H & _).
  exact H.
Defined.

(** * Further properties of the listeners *)

Section Listeners.

Implicit Types (s : St).

Lemma emitted_same s s' :
  beacons (world s') = beacons (world s) -> emitted s s' = [].
Proof.
  intros H. apply emitted_app. now rewrite app_nil_r.
Qed.

Lemma trackPageView_emitted s :
  (count_event CONFIG.EVENTS.PAGE_VIEW (emitted s (trackPageView s)) <= 1)%nat.
Proof.
  unfold trackPageView. destruct (isDestroyed (tracker s)).
  - rewrite emitted_same by reflexivity. cbn. lia.
  - cbn zeta.
    destruct (trackEvent_beacons CONFIG.EVENTS.PAGE_VIEW EmptyObject s)
      as [H | [ses H]].
    + rewrite emitted_same by exact H. cbn. lia.
    + rewrite (emitted_app s _ [compose_payload s ses CONFIG.EVENTS.PAGE_VIEW
                                  EmptyObject]) by exact H.
      cbn. lia.
Qed.

End Listeners.

(** X17.  The mutation-observer callback sends at most one page-view, sends
    none and changes nothing when the pathname is the one last reported, and
    is idempotent: a second mutation on the same pathname changes nothing,
    because the first one has recorded the pathname. *)
Theorem mutation_callback_reports_pathname_once (s : St) :
  mutation_callback (mutation_callback s) = mutation_callback s /\
  (pathname (env (world s)) = initialPathname (tracker s) ->
   mutation_callback s = s) /\
  (count_event CONFIG.EVENTS.PAGE_VIEW (emitted s (mutation_callback s)) <= 1)%nat.
Proof.
  split; [|split].
  - unfold mutation_callback at 2.
    destruct (isDestroyed (tracker s)) eqn:Hd; cbn [negb andb].
    { unfold mutation_callback. now rewrite Hd. }
    destruct (String.eqb (pathname (env (world s))) (initialPathname (tracker s)))
      eqn:Hp; cbn [negb].
    { unfold mutation_callback. now rewrite Hd, Hp. }
    unfold trackPageView. rewrite Hd. cbn zeta.
    unfold mutation_callback.
    cbn [tracker on_tracker world isDestroyed set_initialPathname initialPathname].
    rewrite String.eqb_refl, andb_false_r, Hd, Hp. cbn [negb andb].
    unfold trackPageView. now rewrite Hd.
  - intros H. unfold mutation_callback. rewrite H, String.eqb_refl.
    now rewrite andb_false_r.
  - unfold mutation_callback. destruct (_ && _).
    + apply trackPageView_emitted.
    + rewrite emitted_same by reflexivity. cbn. lia.
Qed.





(** X20.  Destroying a tracker twice is the same as destroying it once. *)
Theorem destroy_is_idempotent (s : St) : destroy (destroy s) = destroy s.
Proof.
  unfold destroy, PerformanceTracker_destroy, sendFinalMetrics. cbn zeta.
  cbn [perf on_perf on_tracker finalMetricsSent set_observers].
  destruct (finalMetricsSent (perf s)) eqn:E; cbn [negb].
  - cbn. now rewrite E.
  - rewrite !trackEvent_destroyed by reflexivity.
    cbn. reflexivity.
Qed.

(** * Properties of the user-agent classifier *)

Section Classifier.

Import BrowserDetector.

Implicit Types (p : regex) (s : string) (a c : ascii).

Lemma match_here_more set p a s :
  match_here (OneOrMore set :: p) (String a s)
  = in_set set a && (match_here (OneOrMore set :: p) s || match_here p s).
Proof. reflexivity. Qed.

Lemma match_here_none set p :
  match_here (OneOrMore set :: p) EmptyString = false.
Proof. reflexivity. Qed.

Lemma search_eq p s :
  search p s
  = match_here p s
    || match s with String _ s' => search p s' | EmptyString => false end.
Proof. destruct s; reflexivity. Qed.

Lemma match_here_sound p : forall s,
  match_here p s = true ->
  exists m rest, s = String.append m rest /\ matches p m.
Proof.
  induction p as [|[c|set] p IH]; intros s H.
  - exists EmptyString, s. split; [reflexivity | constructor].
  - destruct s as [|a s]; cbn [match_here] in H; [discriminate|].
    apply andb_true_iff in H as [Hc H].
    destruct (IH s H) as (m & rest & -> & Hm).
    exists (String a m), rest. split; [reflexivity | now constructor].
  - induction s as [|a s IHs].
    + now rewrite match_here_none in H.
    + rewrite match_here_more in H.
      apply andb_true_iff in H as [Hc H].
      apply orb_true_iff in H as [H | H].
      * destruct (IHs H) as (m & rest & -> & Hm).
        exists (String a m), rest. split; [reflexivity | now apply matches_more].
      * destruct (IH s H) as (m & rest & -> & Hm).
        exists (String a m), rest. split; [reflexivity | now apply matches_one].
Qed.

Lemma match_here_complete p m :
  matches p m -> forall rest, match_here p (String.append m rest) = true.
Proof.
  induction 1 as [|c a p m Hc Hm IH|set p a m Hc Hm IH|set p a m Hc Hm IH];
    intros rest.
  - reflexivity.
  - change (String.append (String a m) rest) with (String a (String.append m rest)).
    cbn [match_here]. now rewrite Hc, IH.
  - change (String.append (String a m) rest) with (String a (String.append m rest)).
    rewrite match_here_more, Hc, IH. cbn [andb]. apply orb_true_r.
  - change (String.append (String a m) rest) with (String a (String.append m rest)).
    now rewrite match_here_more, Hc, IH.
Qed.

Lemma search_occurs p s : search p s = true <-> occurs p s.
Proof.
  split.
  - induction s as [|a s IH]; rewrite search_eq; intros H;
      apply orb_true_iff in H as [H | H]; try discriminate.
    + destruct (match_here_sound p _ H) as (m & rest & E & Hm).
      exists EmptyString, m, rest. now split.
    + destruct (match_here_sound p _ H) as (m & rest & E & Hm).
      exists EmptyString, m, rest. now split.
    + destruct (IH H) as (pre & m & post & -> & Hm).
      exists (String a pre), m, post. now split.
  - intros (pre & m & post & -> & Hm).
    induction pre as [|a pre IH].
    + change (String.append EmptyString (String.append m post))
        with (String.append m post).
      rewrite search_eq. now rewrite (match_here_complete p m Hm).
    + change (String.append (String a pre) (String.append m post))
        with (String a (String.append pre (String.append m post))).
      rewrite search_eq, IH. apply orb_true_r.
Qed.

Lemma search_absent p s : search p s = false <-> ~ occurs p s.
Proof.
  rewrite <- search_occurs. destruct (search p s); split; intros H;
    try reflexivity; try discriminate; try congruence.
Qed.

Lemma toUpperCase_idempotent a : toUpperCase (toUpperCase a) = toUpperCase a.
Proof. destruct a as [[] [] [] [] [] [] [] []]; reflexivity. Qed.

Lemma canonical_eqb_upper c a :
  canonical_eqb c (toUpperCase a) = canonical_eqb c a.
Proof. unfold canonical_eqb. now rewrite toUpperCase_idempotent. Qed.

Lemma in_set_upper set a : in_set set (toUpperCase a) = in_set set a.
Proof.
  unfold in_set. induction set as [|c set IH]; [reflexivity|].
  cbn. rewrite IH. f_equal. unfold canonical_eqb.
  now rewrite toUpperCase_idempotent.
Qed.

Lemma match_here_canonical p : forall s,
  match_here p (canonical s) = match_here p s.
Proof.
  induction p as [|[c|set] p IH]; intros s.
  - reflexivity.
  - destruct s as [|a s]; [reflexivity|].
    cbn [canonical match_here]. now rewrite canonical_eqb_upper, IH.
  - induction s as [|a s IHs]; [reflexivity|].
    cbn [canonical]. rewrite !match_here_more.
    now rewrite in_set_upper, IHs, IH.
Qed.

Lemma search_canonical p s : search p (canonical s) = search p s.
Proof.
  induction s as [|a s IH].
  - reflexivity.
  - cbn [canonical]. rewrite (search_eq p (String a s)), <- IH.
    rewrite <- (match_here_canonical p (String a s)). reflexivity.
Qed.

Lemma search_same_letters p s s' :
  canonical s = canonical s' -> search p s = search p s'.
Proof.
  intros H. now rewrite <- (search_canonical p s), H, search_canonical.
Qed.

End Classifier.

(** X21.  [detectBrowser] reports the first pattern of its table that occurs
    in the user agent: Edge whenever its token occurs, whatever else the user
    agent holds; each later name only when no earlier token occurs; and
    "Unknown" exactly when none does.  The answer is one of six names. *)
Theorem detectBrowser_precedence (userAgent : string) :
  let has p := BrowserDetector.occurs p userAgent in
  let browser := BrowserDetector.detectBrowser userAgent in
  (browser = "Edge" <-> has BrowserDetector.Edg_pattern) /\
  (browser = "Opera" <->
     ~ has BrowserDetector.Edg_pattern /\ has BrowserDetector.OPR_pattern) /\
  (browser = "Chrome" <->
     ~ has BrowserDetector.Edg_pattern /\ ~ has BrowserDetector.OPR_pattern /\
     has BrowserDetector.Chrome_pattern) /\
  (browser = "Firefox" <->
     ~ has BrowserDetector.Edg_pattern /\ ~ has BrowserDetector.OPR_pattern /\
     ~ has BrowserDetector.Chrome_pattern /\ has BrowserDetector.Firefox_pattern) /\
  (browser = "Safari" <->
     ~ has BrowserDetector.Edg_pattern /\ ~ has BrowserDetector.OPR_pattern /\
     ~ has BrowserDetector.Chrome_pattern /\ ~ has BrowserDetector.Firefox_pattern /\
     has BrowserDetector.Safari_pattern) /\
  (browser = "Unknown" <->
     ~ has BrowserDetector.Edg_pattern /\ ~ has BrowserDetector.OPR_pattern /\
     ~ has BrowserDetector.Chrome_pattern /\ ~ has BrowserDetector.Firefox_pattern /\
     ~ has BrowserDetector.Safari_pattern) /\
  In browser ["Edge"; "Opera"; "Chrome"; "Firefox"; "Safari"; "Unknown"].
Proof.
  intros has browser. subst has browser.
  unfold BrowserDetector.detectBrowser, BrowserDetector.browserPatterns.
  cbn [List.find fst snd].
  rewrite <- !search_occurs.
  destruct (BrowserDetector.search BrowserDetector.Edg_pattern userAgent);
  destruct (BrowserDetector.search BrowserDetector.OPR_pattern userAgent);
  destruct (BrowserDetector.search BrowserDetector.Chrome_pattern userAgent);
  destruct (BrowserDetector.search BrowserDetector.Firefox_pattern userAgent);
  destruct (BrowserDetector.search BrowserDetector.Safari_pattern userAgent);
  cbn [In snd fst]; intuition (discriminate || congruence).
Qed.

(** A user agent of Edge names Chrome and Safari too and is reported as
    Edge. *)
Lemma detectBrowser_precedence_example :
  BrowserDetector.occurs BrowserDetector.Chrome_pattern
    BrowserDetector.edge_userAgent /\
  BrowserDetector.detectBrowser BrowserDetector.edge_userAgent = "Edge".
Proof.
  split.
  - apply search_occurs. vm_compute. reflexivity.
  - apply (detectBrowser_precedence BrowserDetector.edge_userAgent).
    apply search_occurs. vm_compute. reflexivity.
Defined.

(** X22.  [detectOS] reports the first pattern of [osPatterns] that occurs,
    in the order windows, mac, ios, android, linux, under the key with its
    first letter in upper case; so a user agent of Android, which names Linux
    too, is "Android", and iOS is reported as "Ios".  No version is part of
    the answer, which is one of six names. *)
Theorem detectOS_precedence (userAgent : string) :
  let has p := BrowserDetector.occurs p userAgent in
  let os := BrowserDetector.detectOS userAgent in
  (os = "Windows" <-> has BrowserDetector.windows_pattern) /\
  (os = "Mac" <->
     ~ has BrowserDetector.windows_pattern /\ has BrowserDetector.mac_pattern) /\
  (os = "Ios" <->
     ~ has BrowserDetector.windows_pattern /\ ~ has BrowserDetector.mac_pattern /\
     has BrowserDetector.ios_pattern) /\
  (os = "Android" <->
     ~ has BrowserDetector.windows_pattern /\ ~ has BrowserDetector.mac_pattern /\
     ~ has BrowserDetector.ios_pattern /\ has BrowserDetector.android_pattern) /\
  (os = "Linux" <->
     ~ has BrowserDetector.windows_pattern /\ ~ has BrowserDetector.mac_pattern /\
     ~ has BrowserDetector.ios_pattern /\ ~ has BrowserDetector.android_pattern /\
     has BrowserDetector.linux_pattern) /\
  (os = "Unknown" <->
     ~ has BrowserDetector.windows_pattern /\ ~ has BrowserDetector.mac_pattern /\
     ~ has BrowserDetector.ios_pattern /\ ~ has BrowserDetector.android_pattern /\
     ~ has BrowserDetector.linux_pattern) /\
  In os ["Windows"; "Mac"; "Ios"; "Android"; "Linux"; "Unknown"].
Proof.
  intros has os. subst has os.
  unfold BrowserDetector.detectOS, BrowserDetector.osPatterns.
  cbn [List.find fst snd].
  rewrite <- !search_occurs.
  destruct (BrowserDetector.search BrowserDetector.windows_pattern userAgent);
  destruct (BrowserDetector.search BrowserDetector.mac_pattern userAgent);
  destruct (BrowserDetector.search BrowserDetector.ios_pattern userAgent);
  destruct (BrowserDetector.search BrowserDetector.android_pattern userAgent);
  destruct (BrowserDetector.search BrowserDetector.linux_pattern userAgent);
  change (BrowserDetector.capitalize "windows") with "Windows";
  change (BrowserDetector.capitalize "mac") with "Mac";
  change (BrowserDetector.capitalize "ios") with "Ios";
  change (BrowserDetector.capitalize "android") with "Android";
  change (BrowserDetector.capitalize "linux") with "Linux";
  cbn [In snd fst]; intuition (discriminate || congruence).
Qed.

(** A user agent of Android names Linux too and is reported as Android. *)
Lemma detectOS_precedence_example :
  BrowserDetector.occurs BrowserDetector.linux_pattern
    BrowserDetector.android_userAgent /\
  BrowserDetector.detectOS BrowserDetector.android_userAgent = "Android".
Proof.
  split.
  - apply search_occurs. vm_compute. reflexivity.
  - apply (detectOS_precedence BrowserDetector.android_userAgent).
    repeat split; try (apply search_absent; vm_compute; reflexivity).
    apply search_occurs. vm_compute. reflexivity.
Defined.

(** X23.  The classification does not depend on the case of the letters of
    the user agent: two user agents that differ only in the case of ASCII
    letters get the same browser and the same system. *)
Theorem classification_ignores_letter_case (userAgent userAgent' : string) :
  BrowserDetector.canonical userAgent = BrowserDetector.canonical userAgent' ->
  BrowserDetector.detectBrowser userAgent = BrowserDetector.detectBrowser userAgent' /\
  BrowserDetector.detectOS userAgent = BrowserDetector.detectOS userAgent'.
Proof.
  intros H.
  unfold BrowserDetector.detectBrowser, BrowserDetector.detectOS.
  unfold BrowserDetector.browserPatterns, BrowserDetector.osPatterns.
  cbn [List.find fst snd].
  now rewrite !(search_same_letters _ userAgent userAgent' H).
Qed.

(** A user agent in lower case is classified as the one in mixed case. *)
Lemma classification_ignores_letter_case_example :
  BrowserDetector.detectBrowser "mozilla/5.0 (x11; linux x86_64) firefox/119.0"
  = BrowserDetector.detectBrowser "Mozilla/5.0 (X11; Linux x86_64) Firefox/119.0" /\
  BrowserDetector.detectOS "mozilla/5.0 (x11; linux x86_64) firefox/119.0"
  = BrowserDetector.detectOS "Mozilla/5.0 (X11; Linux x86_64) Firefox/119.0".
Proof.
  apply (classification_ignores_letter_case
           "mozilla/5.0 (x11; linux x86_64) firefox/119.0"
           "Mozilla/5.0 (X11; Linux x86_64) Firefox/119.0").
  vm_compute. reflexivity.
Defined.

(** * The tracker's part of [localStorage] *)

Section StorageOwnership.

Implicit Types (s : St) (m : gmap string string).

Lemma kept_refl m : kept m m.
Proof. intros k. split; [reflexivity | trivial]. Qed.

Lemma kept_insert m0 m (key value : string) :
  In key own_keys -> kept m0 m -> kept m0 (<[key := value]> m).
Proof.
  intros Hkey H k. destruct (H k) as [H1 H2]. split.
  - intros Hk. rewrite lookup_insert_ne; [now apply H1|].
    intros ->. now apply Hk.
  - intros Hs. apply lookup_insert_is_Some.
    destruct (decide (key = k)); [now left | right; split; auto].
Qed.

Lemma setItem_kept m0 (key value : string) s :
  In key own_keys ->
  kept m0 (localStorage (world s)) ->
  kept m0 (localStorage (world (snd (setItem key value s)))).
Proof.
  intros Hkey H. rewrite setItem_eq.
  destruct (next_storage_call_throws s); cbn [snd].
  - now rewrite localStorage_answered.
  - rewrite localStorage_write_entry, localStorage_answered.
    now apply kept_insert.
Qed.

Lemma getOrCreateClientId_kept m0 (uuid : option string) (fallback : string) s :
  kept m0 (localStorage (world s)) ->
  kept m0 (localStorage (world (snd (getOrCreateClientId uuid fallback s)))).
Proof.
  intros H. rewrite getOrCreateClientId_eq.
  destruct (nth_call_throws 0 s); cbn [snd];
    [now rewrite localStorage_answered|].
  destruct (truthy _); cbn [snd]; [now rewrite localStorage_answered|].
  destruct uuid as [uuid|]; cbn [snd]; [|now rewrite localStorage_answered].
  destruct (nth_call_throws 1 s); cbn [snd];
    [now rewrite !localStorage_answered|].
  rewrite localStorage_write_entry, !localStorage_answered.
  apply kept_insert; [|exact H]. cbn. tauto.
Qed.

Lemma start_new_session_kept m0 (newSessionId : string) s :
  kept m0 (localStorage (world s)) ->
  kept m0 (localStorage (world (snd (start_new_session newSessionId s)))).
Proof.
  intros H. unfold start_new_session, bind, gets, modify.
  rewrite setItem_eq.
  destruct (next_storage_call_throws s); cbn [snd];
    [now rewrite localStorage_answered|].
  rewrite setItem_eq.
  destruct (next_storage_call_throws _); cbn [snd].
  - rewrite localStorage_answered, localStorage_write_entry, localStorage_answered.
    apply kept_insert; [cbn; tauto | exact H].
  - rewrite initializeLynq_localStorage, trackEvent_localStorage.
    change (kept m0
              (<[CONFIG.STORAGE_KEYS.EXPIRATION :=
                   toString (now (env (world s)) + CONFIG.SESSION_DURATION)]>
                 (localStorage
                    (world
                       (answered
                          (write_entry CONFIG.STORAGE_KEYS.SESSION_ID newSessionId
                             (answered s))))))).
    rewrite localStorage_answered, localStorage_write_entry, localStorage_answered.
    apply kept_insert; [cbn; tauto|].
    apply kept_insert; [cbn; tauto | exact H].
Qed.

Lemma initializeSession_kept m0 (newSessionId : string) s :
  kept m0 (localStorage (world s)) ->
  kept m0 (localStorage (world (exec (initializeSession newSessionId) s))).
Proof.
  intros H. rewrite initializeSession_unfold.
  destruct (nth_call_throws 0 s); [now rewrite localStorage_answered|].
  destruct (nth_call_throws 1 s); [now rewrite !localStorage_answered|].
  cbn zeta.
  assert (Ha : kept m0 (localStorage (world (answered (answered s)))))
    by now rewrite !localStorage_answered.
  assert (Hnew :
    kept m0
      (localStorage
         (world
            match start_new_session newSessionId (answered (answered s)) with
            | (Normal _, s3) => on_tracker (set_sessionInterval true) s3
            | (Throw, s3) => s3
            end))).
  { pose proof (start_new_session_kept m0 newSessionId _ Ha) as Hs.
    destruct (start_new_session newSessionId _) as [[[]|] s3]; exact Hs. }
  destruct (localStorage (world s) !! CONFIG.STORAGE_KEYS.SESSION_ID) as [sid|];
    destruct (localStorage (world s) !! CONFIG.STORAGE_KEYS.EXPIRATION) as [exp|];
    try exact Hnew.
  destruct (stored_session_stale s (Some sid) (Some exp)); [exact Hnew|].
  pose proof (resume_session_localStorage sid exp (answered (answered s))) as Hr.
  unfold exec in Hr.
  destruct (resume_session sid exp _) as [[[]|] s3]; cbn [snd] in Hr;
    change (kept m0 (localStorage (world s3))); now rewrite Hr.
Qed.

Lemma construct_kept (pg : Page) (r : Fresh) :
  kept (page_localStorage pg) (localStorage (world (construct pg r))).
Proof.
  unfold construct.
  pose proof (getOrCreateClientId_kept (page_localStorage pg) (fresh_clientId r)
                (fresh_clientId_fallback r) (initial_state pg)
                (kept_refl _)) as H1.
  destruct (getOrCreateClientId _ _ _) as [id s1]. cbn [snd] in H1.
  assert (H3 : kept (page_localStorage pg)
                 (localStorage
                    (world
                       (exec (initializeSession (fresh_sessionId r))
                          (on_tracker
                             (set_clientId
                                match id with
                                | Normal c => c
                                | Throw => EmptyString
                                end) s1)))))
    by (apply initializeSession_kept; exact H1).
  destruct (fresh_pageLoadId r); exact H3.
Qed.

Lemma refreshSession_kept m0 s :
  kept m0 (localStorage (world s)) ->
  kept m0 (localStorage (world (exec refreshSession s))).
Proof.
  intros H. unfold exec, refreshSession, bind, gets, try_catch.
  destruct (visibilityState (env (world s))), (isDestroyed (tracker s));
    try exact H.
  rewrite setItem_eq.
  destruct (next_storage_call_throws s).
  - cbn. now rewrite localStorage_answered.
  - cbn [fst snd].
    assert (Hw : kept m0
                   (localStorage
                      (world
                         (write_entry CONFIG.STORAGE_KEYS.EXPIRATION
                            (toString (now (env (world s)) + CONFIG.SESSION_DURATION))
                            (answered s))))).
    { rewrite localStorage_write_entry, localStorage_answered.
      apply kept_insert; [cbn; tauto | exact H]. }
    destruct (session (tracker (write_entry _ _ (answered s)))); exact Hw.
Qed.

Lemma sendFinalMetrics_localStorage s :
  localStorage (world (sendFinalMetrics s)) = localStorage (world s).
Proof.
  unfold sendFinalMetrics. destruct (finalMetricsSent (perf s)); cbn [negb];
    [reflexivity|].
  cbn zeta. now rewrite trackEvent_localStorage.
Qed.

Lemma session_end_listener_localStorage s :
  localStorage (world (session_end_listener s)) = localStorage (world s).
Proof.
  unfold session_end_listener. destruct (session (tracker s)); [|reflexivity].
  apply trackEvent_localStorage.
Qed.

Lemma step_kept m0 s (i : Input) :
  foreign_write i = false ->
  kept m0 (localStorage (world s)) ->
  kept m0 (localStorage (world (step s i))).
Proof.
  intros Hi H. destruct i; try discriminate Hi; cbn [step];
    try exact H;
    try (destruct (tracking (perf s)); exact H);
    try (destruct (_ && _); exact H).
  - destruct (tracking (perf s)); [|exact H].
    destruct (visibilityState (env (world s))); [exact H|].
    now rewrite sendFinalMetrics_localStorage.
  - rewrite session_end_listener_localStorage.
    destruct (tracking (perf s)); [|exact H].
    now rewrite sendFinalMetrics_localStorage.
  - destruct (sessionInterval (tracker s)); [|exact H].
    now apply refreshSession_kept.
  - destruct (timeouts (world s)) as [|[name d] rest]; [exact H|].
    unfold trackEvent_resume, trackEvent_send.
    destruct (ready_session _); exact H.
  - destruct (mutationObserver (tracker s)); [|exact H].
    unfold mutation_callback. destruct (_ && _); [|exact H].
    now rewrite trackPageView_localStorage.
  - destruct (lynq (world s)); [destruct eventId|]; try exact H.
    now rewrite trackEvent_localStorage.
  - now rewrite trackEvent_localStorage.
  - unfold destroy, PerformanceTracker_destroy. cbn zeta.
    now rewrite sendFinalMetrics_localStorage.
Qed.

Lemma run_kept m0 (inputs : list Input) : forall s,
  forallb (fun i => negb (foreign_write i)) inputs = true ->
  kept m0 (localStorage (world s)) ->
  kept m0 (localStorage (world (run s inputs))).
Proof.
  unfold run. induction inputs as [|i inputs IH]; intros s Hi H; [exact H|].
  cbn in Hi. apply andb_true_iff in Hi as [Hi Hrest].
  cbn [fold_left]. apply IH; [exact Hrest|].
  apply step_kept; [now apply negb_true_iff | exact H].
Qed.

End StorageOwnership.

(** X24.  Over a page lifetime the tracker writes [localStorage] under its
    three keys only and removes nothing: when no input writes the storage
    from outside, every other key holds at the end what the page had for it
    at load, and every key the page had is still there, also after
    [destroy]. *)
Theorem tracker_writes_own_keys_only (pg : Page) (r : Fresh)
  (inputs : list Input) (key : string) :
  forallb (fun i => negb (foreign_write i)) inputs = true ->
  let stored := localStorage (world (run (construct pg r) inputs)) in
  (~ In key own_keys -> stored !! key = page_localStorage pg !! key) /\
  (is_Some (page_localStorage pg !! key) -> is_Some (stored !! key)).
Proof.
  intros Hi. cbn zeta.
  apply (run_kept (page_localStorage pg) inputs (construct pg r) Hi).
  apply construct_kept.
Qed.

(** On a page with a foreign entry and a failing storage call, that entry
    is as the page had it after a refresh and [destroy]. *)
Lemma tracker_writes_own_keys_only_example :
  localStorage (world (run (construct busy_page sample_fresh) [Interval; Destroy]))
    !! "theme"
  = Some "dark".
Proof.
  destruct (tracker_writes_own_keys_only busy_page sample_fresh
              [Interval; Destroy] "theme" eq_refl) as [H _].
  rewrite H.
  - vm_compute. reflexivity.
  - vm_compute. intros [E | [E | [E | []]]]; discriminate E.
Defined.


(** X25.  An event that [trackEvent] suspends for want of a session is never
    delivered: the session is set by the constructor or not at all, so at
    every point of a page lifetime the firing of a pending 100 ms timer sends
    nothing. *)
Theorem suspended_events_are_never_sent (pg : Page) (r : Fresh)
  (inputs : list Input) :
  let s := run (construct pg r) inputs in
  beacons (world (step s TimerFires)) = beacons (world s).
Proof.
  cbn zeta.
  pose proof (run_harmless inputs _ (construct_harmless pg r)) as H.
  set (s := run (construct pg r) inputs) in *. clearbody s.
  cbn [step].
  destruct H as [H | H].
  - destruct (timeouts (world s)) as [|[name d] rest]; [reflexivity|].
    unfold trackEvent_resume, trackEvent_send.
    change (ready_session (on_world (set_timeouts rest) s)) with (ready_session s).
    now rewrite H.
  - now rewrite H.
Qed.

(** X8.  An expiration written by the script reads back as written: the text
    that [setItem] stores for an integer is not empty, [parseInt] gives that
    integer again, and [isSessionExpired] on the text holds exactly from that
    time on. *)
Theorem stored_expiration_round_trip (expirationTime : Z) (s : St) :
  parseInt (toString expirationTime) = Num expirationTime /\
  truthy (Some (toString expirationTime)) = true /\
  isSessionExpired s (toString expirationTime)
  = (expirationTime <=? now (env (world s))).
Proof.
  repeat split.
  - apply parseInt_toString.
  - apply truthy_nonempty, toString_nonempty.
  - unfold isSessionExpired. now rewrite parseInt_toString.
Qed.
